(** * build_idevice_ffi_xcframework.py: the XCFramework build script

    A shallow embedding of [IdeviceFfiXCFrameworkBuilder] and of [main].
    The script is a sequential orchestration of external tools over the
    file system, so the embedding is a state-and-exception monad over a
    world made of
      - the file system (a finite map from paths to nodes),
      - the process environment ([os.environ]),
      - the external tools, as an oracle giving each invocation its exit
        status and captured output,
      - the trace of what the script did: commands run, lines printed,
        files written through [open].
    Python exceptions are values of [Exn]; every method is a function
    [World -> Result _ * World], so the world reached when an exception
    escapes is still observable (as it is for [finally] and for [main]'s
    handler).

    Environment assumptions, fixed once here: starting a subprocess and
    [os.getlogin()] succeed (what can fail is the tool's exit status),
    except in the part on the installation attempts, where the
    preparation is modelled again with both failures; tool output is
    ASCII; path components hold no separator. *)

From Stdlib Require Import ZArith Ascii.
From Stdlib Require OrderedTypeEx.
From stdpp Require Import gmap strings list fin_maps pretty sorting.

Local Open Scope Z_scope.

(** ** Python string primitives used by the script *)

Module Py.

(** [str.isspace] on ASCII: tab, LF, VT, FF, CR, FS, GS, RS, US, space. *)
Definition isspace (c : ascii) : bool :=
  match c with
  | "009" | "010" | "011" | "012" | "013"
  | "028" | "029" | "030" | "031" | " " => true
  | _ => false
  end%char.

Fixpoint lstrip (s : string) : string :=
  match s with
  | String c s' => if isspace c then lstrip s' else s
  | EmptyString => EmptyString
  end.

Fixpoint rstrip (s : string) : string :=
  match s with
  | String c s' =>
      match rstrip s' with
      | EmptyString => if isspace c then EmptyString else String c EmptyString
      | r => String c r
      end
  | EmptyString => EmptyString
  end.

(** [s.strip()] *)
Definition strip (s : string) : string := rstrip (lstrip s).

(** [sub in s] *)
Fixpoint contains (sub s : string) : bool :=
  String.prefix sub s ||
  match s with
  | String _ s' => contains sub s'
  | EmptyString => false
  end.

Definition of_rev (cur : list ascii) : string :=
  String.string_of_list_ascii (rev cur).

(** [s.split(sep)] for a non-empty [sep]: left to right, matches do not
    overlap.  [skip] counts the characters of a matched separator that
    are still to be dropped; [cur] is the current piece, reversed. *)
Fixpoint split_go (sep : string) (skip : nat) (cur : list ascii)
    (s : string) : list string :=
  match s with
  | EmptyString => [of_rev cur]
  | String c s' =>
      match skip with
      | S k => split_go sep k cur s'
      | O =>
          if String.prefix sep s
          then of_rev cur :: split_go sep (Nat.pred (String.length sep)) [] s'
          else split_go sep O (c :: cur) s'
      end
  end.

Definition split (sep s : string) : list string := split_go sep O [] s.

(** [s.split()]: pieces between runs of white space, none empty. *)
Fixpoint words_go (cur : list ascii) (s : string) : list string :=
  match s with
  | EmptyString => match cur with [] => [] | _ => [of_rev cur] end
  | String c s' =>
      if isspace c
      then match cur with
           | [] => words_go [] s'
           | _ => of_rev cur :: words_go [] s'
           end
      else words_go (c :: cur) s'
  end.

Definition words (s : string) : list string := words_go [] s.

(** [l[-1]] of a list that [split] returned (never empty). *)
Definition last_piece (l : list string) : string := List.last l EmptyString.

(** [sep.join(l)] *)
Definition join (sep : string) (l : list string) : string :=
  String.concat sep l.

(** [sorted(l)] on strings: ascending by code point.  The order is total,
    so any sorting function yields Python's result; insertion sort. *)
Fixpoint insert_sorted (x : string) (l : list string) : list string :=
  match l with
  | [] => [x]
  | y :: l' => if String.leb x y then x :: l else y :: insert_sorted x l'
  end.

Definition sorted (l : list string) : list string :=
  foldr insert_sorted [] l.

(** [s.endswith(suffix)] *)
Fixpoint endswith (suffix s : string) : bool :=
  String.eqb s suffix ||
  match s with
  | String _ s' => endswith suffix s'
  | EmptyString => false
  end.

(** [s.lower()] on ASCII *)
Definition lower_char (c : ascii) : ascii :=
  let n := nat_of_ascii c in
  if (65 <=? n)%nat && (n <=? 90)%nat then ascii_of_nat (n + 32) else c.

Fixpoint lower (s : string) : string :=
  match s with
  | String c s' => String (lower_char c) (lower s')
  | EmptyString => EmptyString
  end.

(** [x or y] on strings and on lists: the first operand unless it is
    empty. *)
Definition or_str (x y : string) : string :=
  match x with EmptyString => y | _ => x end.

Definition or_list {A} (x y : list A) : list A :=
  match x with [] => y | _ => x end.

(** [repr(s)] of a string.  The quote is the apostrophe, or the double
    quote when the string holds an apostrophe and no double quote; the
    backslash and the quote are escaped with a backslash, LF, CR and tab
    are written [\n], [\r], [\t], the other characters below U+0020 and
    U+007F are written [\xNN].  The bytes of a character above U+007F are
    kept, as [repr] keeps every printable character. *)
Definition apostrophe : ascii := "039".
Definition double_quote : ascii := "034".
Definition backslash : ascii := "092".

Fixpoint has_char (c : ascii) (s : string) : bool :=
  match s with
  | String c' s' => Ascii.eqb c c' || has_char c s'
  | EmptyString => false
  end.

Definition hex_digit (n : nat) : ascii :=
  match String.get n "0123456789abcdef" with
  | Some c => c
  | None => "0"%char
  end.

Definition repr_char (quote c : ascii) : string :=
  let n := nat_of_ascii c in
  if Ascii.eqb c backslash || Ascii.eqb c quote
  then String backslash (String c EmptyString)
  else if (n =? 9)%nat then String backslash "t"
  else if (n =? 10)%nat then String backslash "n"
  else if (n =? 13)%nat then String backslash "r"
  else if (n <? 32)%nat || (n =? 127)%nat
  then String backslash
         (String "x" (String (hex_digit (n / 16))
                        (String (hex_digit (n mod 16)) EmptyString)))
  else String c EmptyString.

Fixpoint repr_body (quote : ascii) (s : string) : string :=
  match s with
  | String c s' => repr_char quote c +:+ repr_body quote s'
  | EmptyString => EmptyString
  end.

Definition repr_str (s : string) : string :=
  let quote := if has_char apostrophe s && negb (has_char double_quote s)
               then double_quote else apostrophe in
  String quote (repr_body quote s +:+ String quote EmptyString).

(** [str(l)] of a list of strings *)
Definition repr_list (l : list string) : string :=
  "[" +:+ join ", " (map repr_str l) +:+ "]".

End Py.

Example strip_ex : Py.strip "  Architectures are: x86_64 arm64
" = "Architectures are: x86_64 arm64".
Proof. reflexivity. Qed.

Example split_ex :
  Py.split "are:" "fat file: are: x86_64 arm64" = ["fat file: "; " x86_64 arm64"].
Proof. reflexivity. Qed.

Example split_ex2 : Py.split "aa" "aaaxaa" = [EmptyString; "ax"; EmptyString].
Proof. reflexivity. Qed.

Example words_ex : Py.words " x86_64   arm64 " = ["x86_64"; "arm64"].
Proof. reflexivity. Qed.

Example sorted_ex : Py.sorted ["x86_64"; "arm64"] = ["arm64"; "x86_64"].
Proof. reflexivity. Qed.

Example repr_ex : Py.repr_list ["lipo"; "-info"] = "['lipo', '-info']".
Proof. reflexivity. Qed.

Example repr_ex2 :
  Py.repr_str "it's" = String Py.double_quote ("it's" +:+ String Py.double_quote EmptyString).
Proof. reflexivity. Qed.

Example repr_ex3 :
  Py.repr_str (String "a" (String "010" (String "001" "'b")))
  = String Py.double_quote
      (String "a" (String Py.backslash
         ("n" +:+ String Py.backslash ("x01'b" +:+
                    String Py.double_quote EmptyString)))).
Proof. reflexivity. Qed.


(** ** Paths and the file system *)

(** A [pathlib.Path], as the list of its components from the root. *)
Abbreviation Path := (list string).

(** [p / c] *)
Definition joinpath (p : Path) (c : string) : Path := p ++ [c].
Notation "p // c" := (joinpath p c) (at level 40, left associativity).

(** [p.parent] and [p.name] *)
Definition parent (p : Path) : Path := removelast p.
Definition name (p : Path) : string := List.last p EmptyString.

(** [str(p)] *)
Definition path_str (p : Path) : string := "/" +:+ Py.join "/" p.

(** The build-version load command of a Mach-O object: platform code,
    minimum OS version, SDK version (the three arguments of
    [vtool -set-build-version]). *)
Record BuildVersion := {
  bv_platform : string;
  bv_minos : string;
  bv_sdk : string
}.

(** What a regular file or an archive member holds. *)
Inductive Payload :=
| Object (bv : BuildVersion) (code : string)
| Raw (bytes : string).

(** One record of [AvailableLibraries] in [Info.plist].  [plistlib] writes
    a dict, whose key [SupportedPlatformVariant] may be absent. *)
Record LibraryEntry := {
  BinaryPath : string;
  HeadersPath : string;
  LibraryIdentifier : string;
  LibraryPath : string;
  SupportedArchitectures : list string;
  SupportedPlatform : string;
  SupportedPlatformVariant : option string
}.

Record InfoPlist := {
  AvailableLibraries : list LibraryEntry;
  CFBundlePackageType : string;
  XCFrameworkFormatVersion : string
}.

(** What a file holds.  [Unfinished] is a property list that was opened
    for writing and abandoned part-way. *)
Inductive FileData :=
| Plain (p : Payload)
| Archive (members : list (string * Payload))
| PropertyList (plist : InfoPlist)
| Unfinished.

Inductive Node :=
| File (d : FileData)
| Dir.

#[global] Instance BuildVersion_eq_dec : EqDecision BuildVersion.
Proof. solve_decision. Defined.
#[global] Instance Payload_eq_dec : EqDecision Payload.
Proof. solve_decision. Defined.
#[global] Instance LibraryEntry_eq_dec : EqDecision LibraryEntry.
Proof. solve_decision. Defined.
#[global] Instance InfoPlist_eq_dec : EqDecision InfoPlist.
Proof. solve_decision. Defined.
#[global] Instance FileData_eq_dec : EqDecision FileData.
Proof. solve_decision. Defined.
#[global] Instance Node_eq_dec : EqDecision Node.
Proof. solve_decision. Defined.

Abbreviation FS := (gmap Path Node).

Definition is_under (p q : Path) : Prop := p `prefix_of` q.

Module Fs.

Definition exists_ (fs : FS) (p : Path) : bool :=
  match fs !! p with Some _ => true | None => false end.

(** All of [p]'s subtree, [p] included, removed. *)
Definition remove_tree (p : Path) (fs : FS) : FS :=
  filter (λ kv, ¬ p `prefix_of` kv.1) fs.

(** The entries of the subtree at [src], re-rooted at [dst]. *)
Definition moved_tree (src dst : Path) (fs : FS) : FS :=
  list_to_map
    (omap (λ kv, if decide (src `prefix_of` kv.1)
                 then Some (dst ++ drop (length src) kv.1, kv.2)
                 else None)
          (map_to_list fs)).

(** The entries directly inside the directory [d]. *)
Definition children (d : Path) (fs : FS) : list Path :=
  filter (λ k, parent k = d ∧ k ≠ []) (map_to_list fs).*1.

End Fs.

(** ** Commands and the external tools *)

(** One word of a command line.  [str(p)] of a [Path] is kept as the path
    it denotes, so that the tools need not parse it back. *)
Inductive Word :=
| Str (s : string)
| PathArg (p : Path).

Definition word_str (w : Word) : string :=
  match w with
  | Str s => s
  | PathArg p => path_str p
  end.

(** The arguments of [subprocess.run] that vary: [cmd], [cwd], [env]
    ([None]: the environment is inherited). *)
Record Call := {
  cmd : list Word;
  cwd : Path;
  env : option (gmap string string)
}.

(** What a finished subprocess leaves: [returncode], the captured
    [stdout] and [stderr], and for the tools whose product is opaque here
    (the compiler, the combiner) the file they produced, if any. *)
Record Outcome := {
  returncode : Z;
  stdout : string;
  stderr : string;
  artifact : option FileData
}.

#[global] Instance Word_eq_dec : EqDecision Word.
Proof. solve_decision. Defined.
#[global] Instance Outcome_eq_dec : EqDecision Outcome.
Proof. solve_decision. Defined.

(** All prefixes of a path, the root first and the path itself last. *)
Fixpoint prefixes (p : Path) : list Path :=
  [] :: match p with
        | [] => []
        | c :: r => map (cons c) (prefixes r)
        end.

(** The [filename] of an [OSError]: the string of the path the failing
    call was given, or the [Path] object itself where [shutil] stores
    its own argument. *)
Inductive Filename :=
| Name (p : Path)
| PathObject (p : Path).

(** [OSError msg] stands for an error of the operating system of any
    other class, with its text. *)
Inductive Exn :=
| CalledProcessError (c : list Word) (o : Outcome)
| FileNotFoundError (msg : string)
| FileExistsError (f : Filename)
| NotADirectoryError (f : Filename)
| IsADirectoryError (f : Filename)
| SameFileError (msg : string)
| OSError (msg : string)
| KeyError (k : string)
| IndexError
| ValueError (msg : string).

(** [os.makedirs]-style creation of every directory of [todo] that is
    missing.  A regular file in the way is an error, reported for the
    path that was to be made inside it, and nothing is created. *)
Fixpoint make_dirs (todo : list Path) (fs : FS) : Exn + FS :=
  match todo with
  | [] => inr fs
  | q :: rest =>
      match fs !! q with
      | Some (File _) => inl (NotADirectoryError (Name (hd q rest)))
      | Some Dir => make_dirs rest fs
      | None => make_dirs rest (<[q := Dir]> fs)
      end
  end.

(** The contracts of the external tools, as far as the script relies on
    them.  A tool that exits non-zero leaves the file system as it was. *)
Module Tools.

(** The word that follows [flag] on a command line. *)
Fixpoint option_value (flag : string) (ws : list Word) : option Word :=
  match ws with
  | [] => None
  | w :: rest =>
      match w, rest with
      | Str f, v :: _ =>
          if String.eqb f flag then Some v else option_value flag rest
      | _, _ => option_value flag rest
      end
  end.

(** [cargo build --target T] leaves its library, when it made one, at
    [<workspace>/target/T/release/libidevice_ffi.a]; the workspace is the
    parent of the crate directory it runs in. *)
Definition cargo_output (c : Call) (triple : string) : Path :=
  parent (cwd c) // "target" // triple // "release" // "libidevice_ffi.a".

Definition cargo (c : Call) (o : Outcome) (fs : FS) : FS :=
  match option_value "--target" (cmd c), artifact o with
  | Some (Str triple), Some d =>
      let out := cargo_output c triple in
      match make_dirs (prefixes (parent out)) fs with
      | inr fs' => <[out := File d]> fs'
      | inl _ => fs
      end
  | _, _ => fs
  end.

(** [lipo -create ... -output out] *)
Definition lipo_create (c : Call) (o : Outcome) (fs : FS) : FS :=
  match option_value "-output" (cmd c), artifact o with
  | Some (PathArg out), Some d => <[out := File d]> fs
  | _, _ => fs
  end.

(** [ar x lib]: every member becomes a file of the working directory, a
    later member of the same name overwriting an earlier one. *)
Definition ar_extract (dir : Path) (ms : list (string * Payload))
    (fs : FS) : FS :=
  foldl (λ acc m, <[dir // m.1 := File (Plain m.2)]> acc) fs ms.

(** [ar r]: a file replaces the first member of its name, or is appended
    when there is none. *)
Fixpoint ar_replace (m : string * Payload)
    (ms : list (string * Payload)) : list (string * Payload) :=
  match ms with
  | [] => [m]
  | m' :: rest =>
      if decide (m'.1 = m.1) then m :: rest else m' :: ar_replace m rest
  end.

(** The files named on the command line that exist, as members. *)
Fixpoint members_of (ws : list Word) (fs : FS) : list (string * Payload) :=
  match ws with
  | [] => []
  | PathArg q :: rest =>
      match fs !! q with
      | Some (File (Plain pl)) => (name q, pl) :: members_of rest fs
      | _ => members_of rest fs
      end
  | Str _ :: rest => members_of rest fs
  end.

(** [ar rcs lib files...]: insertion with replacement into the archive
    at [lib], created if there is none. *)
Definition ar_rcs (lib : Path) (files : list Word) (fs : FS) : FS :=
  let old := match fs !! lib with
             | Some (File (Archive ms)) => ms
             | _ => []
             end in
  <[lib := File (Archive (foldl (λ ms m, ar_replace m ms) old
                                (members_of files fs)))]> fs.

(** [vtool -set-build-version P MIN SDK -replace obj]: the build version
    of the object file is overwritten in place. *)
Definition vtool_set (plat minos sdk : string) (obj : Path) (fs : FS) : FS :=
  match fs !! obj with
  | Some (File (Plain (Object _ code))) =>
      <[obj := File (Plain (Object
               {| bv_platform := plat; bv_minos := minos; bv_sdk := sdk |}
               code))]> fs
  | _ => fs
  end.

Definition effect (c : Call) (o : Outcome) (fs : FS) : FS :=
  if decide (returncode o = 0) then
    match cmd c with
    | Str "cargo" :: _ => cargo c o fs
    | Str "lipo" :: Str "-create" :: _ => lipo_create c o fs
    | [Str "ar"; Str "x"; PathArg lib] =>
        match fs !! lib with
        | Some (File (Archive ms)) => ar_extract (cwd c) ms fs
        | _ => fs
        end
    | Str "ar" :: Str "rcs" :: PathArg lib :: files => ar_rcs lib files fs
    | [Str "vtool"; Str "-set-build-version"; Str plat; Str minos; Str sdk;
       Str "-replace"; PathArg obj] => vtool_set plat minos sdk obj fs
    | _ => fs
    end
  else fs.

End Tools.

(** ** The world and the monad of the script *)

Inductive Event :=
| Ran (c : Call) (o : Outcome)
| Printed (line : string)
| Wrote (p : Path) (d : FileData).

Record World := {
  disk : FS;
  environ : gmap string string;   (* os.environ *)
  login : string;                 (* os.getlogin() *)
  pw_dir : string;                (* os.path.expanduser('~') without HOME *)
  script_dir : Path;              (* Path(__file__).parent.absolute() *)
  tools : list Event → Call → Outcome;
  trace : list Event
}.

Definition set_disk (d : FS) (w : World) : World :=
  {| disk := d; environ := environ w; login := login w; pw_dir := pw_dir w;
     script_dir := script_dir w; tools := tools w; trace := trace w |}.

Definition log (e : Event) (w : World) : World :=
  {| disk := disk w; environ := environ w; login := login w;
     pw_dir := pw_dir w; script_dir := script_dir w; tools := tools w;
     trace := trace w ++ [e] |}.

Inductive Result (A : Type) :=
| Ok (a : A)
| Raise (e : Exn).
Arguments Ok {A} a.
Arguments Raise {A} e.

Definition M (A : Type) : Type := World → Result A * World.

Definition ret {A} (a : A) : M A := λ w, (Ok a, w).

Definition raise {A} (e : Exn) : M A := λ w, (Raise e, w).

Definition bind {A B} (m : M A) (f : A → M B) : M B :=
  λ w, match m w with
       | (Ok a, w') => f a w'
       | (Raise e, w') => (Raise e, w')
       end.

Declare Scope py_scope.
Delimit Scope py_scope with py.
Notation "x <- m ;; k" := (bind m (λ x, k))
  (at level 100, m at next level, right associativity) : py_scope.
Notation "m ;; k" := (bind m (λ _, k))
  (at level 100, right associativity) : py_scope.
Local Open Scope py_scope.

(** [try: m  except <classes>: h], the classes given as a test on the
    exception. *)
Definition try_except {A} (m : M A) (catches : Exn → bool)
    (h : Exn → M A) : M A :=
  λ w, match m w with
       | (Ok a, w') => (Ok a, w')
       | (Raise e, w') => if catches e then h e w' else (Raise e, w')
       end.

(** [try: m  finally: fin] *)
Definition try_finally {A} (m : M A) (fin : M unit) : M A :=
  λ w, match m w with
       | (r, w') =>
           match fin w' with
           | (Ok _, w'') => (r, w'')
           | (Raise e, w'') => (Raise e, w'')
           end
       end.

(** [for x in l: s = body(x, s)]; [continue] is the body returning [s]. *)
Fixpoint for_in {A S} (l : list A) (body : A → S → M S) (s : S) : M S :=
  match l with
  | [] => ret s
  | x :: l' => s' <- body x s ;; for_in l' body s'
  end.

Definition is_CalledProcessError (e : Exn) : bool :=
  match e with CalledProcessError _ _ => true | _ => false end.

Definition any_Exception (e : Exn) : bool := true.

(** [repr] of the [filename] of an [OSError] *)
Definition filename_repr (f : Filename) : string :=
  match f with
  | Name p => Py.repr_str (path_str p)
  | PathObject p => "PosixPath(" +:+ Py.repr_str (path_str p) +:+ ")"
  end.

Definition errno_text (no what : string) (f : Filename) : string :=
  "[Errno " +:+ no +:+ "] " +:+ what +:+ ": " +:+ filename_repr f.

(** [signal.Signals] on macOS, the system of the tools the script runs. *)
Definition signal_names : list (Z * string) :=
  [ (1, "SIGHUP"); (2, "SIGINT"); (3, "SIGQUIT"); (4, "SIGILL");
    (5, "SIGTRAP"); (6, "SIGABRT"); (7, "SIGEMT"); (8, "SIGFPE");
    (9, "SIGKILL"); (10, "SIGBUS"); (11, "SIGSEGV"); (12, "SIGSYS");
    (13, "SIGPIPE"); (14, "SIGALRM"); (15, "SIGTERM"); (16, "SIGURG");
    (17, "SIGSTOP"); (18, "SIGTSTP"); (19, "SIGCONT"); (20, "SIGCHLD");
    (21, "SIGTTIN"); (22, "SIGTTOU"); (23, "SIGIO"); (24, "SIGXCPU");
    (25, "SIGXFSZ"); (26, "SIGVTALRM"); (27, "SIGPROF"); (28, "SIGWINCH");
    (29, "SIGINFO"); (30, "SIGUSR1"); (31, "SIGUSR2") ].

Fixpoint signal_name (table : list (Z * string)) (n : Z) : option string :=
  match table with
  | [] => None
  | (k, s) :: table' => if decide (k = n) then Some s else signal_name table' n
  end.

(** [CalledProcessError.__str__]: a negative return code is the number
    of the signal that ended the process. *)
Definition called_process_error_str (c : list Word) (returncode : Z)
    : string :=
  "Command '" +:+ Py.repr_list (map word_str c) +:+ "' " +:+
  (if decide (returncode < 0) then
     match signal_name signal_names (- returncode) with
     | Some s =>
         "died with <Signals." +:+ s +:+ ": " +:+ pretty (- returncode) +:+
         ">."
     | None => "died with unknown signal " +:+ pretty (- returncode) +:+ "."
     end
   else "returned non-zero exit status " +:+ pretty returncode +:+ ".").

(** [str(e)] *)
Definition exn_str (e : Exn) : string :=
  match e with
  | CalledProcessError c o => called_process_error_str c (returncode o)
  | FileNotFoundError msg => msg
  | FileExistsError f => errno_text "17" "File exists" f
  | NotADirectoryError f => errno_text "20" "Not a directory" f
  | IsADirectoryError f => errno_text "21" "Is a directory" f
  | SameFileError msg => msg
  | OSError msg => msg
  | KeyError k => Py.repr_str k
  | IndexError => "list index out of range"
  | ValueError msg => msg
  end.

Example exn_str_killed :
  exn_str (CalledProcessError [Str "cargo"; Str "build"]
             {| returncode := -9; stdout := EmptyString;
                stderr := EmptyString; artifact := None |})
  = "Command '['cargo', 'build']' died with <Signals.SIGKILL: 9>.".
Proof. reflexivity. Qed.

Example exn_str_failed :
  exn_str (CalledProcessError [Str "lipo"; Str "-info"; PathArg ["tmp"; "lib.a"]]
             {| returncode := 1; stdout := EmptyString;
                stderr := EmptyString; artifact := None |})
  = "Command '['lipo', '-info', '/tmp/lib.a']' returned non-zero exit status 1.".
Proof. reflexivity. Qed.

Example exn_str_rmtree :
  exn_str (NotADirectoryError (PathObject ["tmp"; "a.txt"]))
  = "[Errno 20] Not a directory: PosixPath('/tmp/a.txt')".
Proof. reflexivity. Qed.

Definition enoent (p : Path) : Exn :=
  FileNotFoundError (errno_text "2" "No such file or directory" (Name p)).

Definition is_file (n : option Node) : bool :=
  match n with Some (File _) => true | _ => false end.

(** The error of a system call on a path that is not there: [ENOTDIR]
    when a regular file is among the directories that lead to it, else
    [ENOENT]. *)
Definition no_entry (fs : FS) (p : Path) : Exn :=
  if existsb (λ q, is_file (fs !! q)) (prefixes (parent p))
  then NotADirectoryError (Name p)
  else enoent p.

(** [print(line)] *)
Definition print (line : string) : M unit :=
  λ w, (Ok tt, log (Printed line) w).

(** [subprocess.run(cmd, cwd=cwd, env=env, capture_output=True)] without
    [check]: the tool's outcome is the oracle's, given everything that
    happened so far; its effect on the files is the tool's contract. *)
Definition subprocess_run (c : Call) : M Outcome :=
  λ w, let o := tools w (trace w) c in
       (Ok o, log (Ran c o) (set_disk (Tools.effect c o (disk w)) w)).

(** A dict is the list of its items in insertion order; [d.get(k)] is the
    value of the first (and only) item with key [k]. *)
Fixpoint dict_get {V} (d : list (string * V)) (k : string) : option V :=
  match d with
  | [] => None
  | (k', v) :: d' => if decide (k' = k) then Some v else dict_get d' k
  end.

(** [d[k]] and [l[i]] *)
Definition getitem {V} (d : list (string * V)) (k : string) : M V :=
  match dict_get d k with
  | Some v => ret v
  | None => raise (KeyError k)
  end.

Definition index {A} (l : list A) (i : nat) : M A :=
  match l !! i with
  | Some x => ret x
  | None => raise IndexError
  end.

(** [d[k] = v] on a dict: the key keeps its place if present. *)
Fixpoint setitem {V} (d : list (string * V)) (k : string) (v : V)
    : list (string * V) :=
  match d with
  | [] => [(k, v)]
  | (k', v') :: d' =>
      if decide (k' = k) then (k, v) :: d' else (k', v') :: setitem d' k v
  end.

(** *** [pathlib] and [shutil] *)

(** [p.exists()] *)
Definition path_exists (p : Path) : M bool :=
  λ w, (Ok (Fs.exists_ (disk w) p), w).

(** [p.mkdir(parents=parents, exist_ok=exist_ok)] *)
Definition mkdir (p : Path) (parents exist_ok : bool) : M unit :=
  λ w, match disk w !! p with
       | Some Dir =>
           if exist_ok then (Ok tt, w)
           else (Raise (FileExistsError (Name p)), w)
       | Some (File _) => (Raise (FileExistsError (Name p)), w)
       | None =>
           if parents then
             match make_dirs (prefixes p) (disk w) with
             | inr d => (Ok tt, set_disk d w)
             | inl _ => (Raise (NotADirectoryError (Name p)), w)
             end
           else
             match disk w !! parent p with
             | Some Dir => (Ok tt, set_disk (<[p := Dir]> (disk w)) w)
             | _ => (Raise (no_entry (disk w) p), w)
             end
       end.

(** [shutil.rmtree(p)] *)
Definition rmtree (p : Path) : M unit :=
  λ w, match disk w !! p with
       | Some Dir => (Ok tt, set_disk (Fs.remove_tree p (disk w)) w)
       | Some (File _) => (Raise (NotADirectoryError (PathObject p)), w)
       | None => (Raise (no_entry (disk w) p), w)
       end.

(** The text of [shutil.SameFileError]: [src] is the [Path] it was given,
    the destination the [Path] given or, when that was a directory, the
    string of the file looked for inside it. *)
Definition same_file_text (src : Path) (dst : Filename) : string :=
  filename_repr (PathObject src) +:+ " and " +:+ filename_repr dst +:+
  " are the same file".

(** [shutil.copy2(src, dst)]: into [dst] when that is a directory. *)
Definition copy2 (src dst : Path) : M unit :=
  λ w, let target := match disk w !! dst with
                     | Some Dir => Name (dst // name src)
                     | _ => PathObject dst
                     end in
       let target_path := match target with Name q | PathObject q => q end in
       match disk w !! src with
       | Some n =>
           if decide (target_path = src)
           then (Raise (SameFileError (same_file_text src target)), w)
           else
             match n with
             | Dir => (Raise (IsADirectoryError (Name src)), w)
             | File d =>
                 match disk w !! target_path, disk w !! parent target_path with
                 | Some Dir, _ => (Raise (IsADirectoryError (Name target_path)), w)
                 | _, Some Dir =>
                     (Ok tt, set_disk (<[target_path := File d]> (disk w)) w)
                 | _, _ => (Raise (no_entry (disk w) target_path), w)
                 end
             end
       | None => (Raise (no_entry (disk w) src), w)
       end.

(** [shutil.copytree(src, dst, dirs_exist_ok=dirs_exist_ok)]: the subtree
    at [src] laid over [dst]. *)
Definition copytree (src dst : Path) (dirs_exist_ok : bool) : M unit :=
  λ w, match disk w !! src with
       | Some Dir =>
           let copied := Fs.moved_tree src dst (disk w) in
           match disk w !! dst with
           | Some (File _) => (Raise (FileExistsError (Name dst)), w)
           | Some Dir =>
               if dirs_exist_ok then (Ok tt, set_disk (copied ∪ disk w) w)
               else (Raise (FileExistsError (Name dst)), w)
           | None =>
               match make_dirs (prefixes dst) (disk w) with
               | inr d => (Ok tt, set_disk (copied ∪ d) w)
               | inl e => (Raise e, w)
               end
           end
       | Some (File _) => (Raise (NotADirectoryError (Name src)), w)
       | None => (Raise (no_entry (disk w) src), w)
       end.

(** [dir.glob("*" + suffix)], in the order the directory lists them. *)
Definition glob_suffix (dir : Path) (suffix : string) : M (list Path) :=
  λ w, (Ok (filter (λ k, Py.endswith suffix (name k) = true)
                   (Fs.children dir (disk w))), w).

(** *** [plistlib] *)

(** The characters [plistlib] refuses in a string: those below U+0020
    other than tab, LF and CR. *)
Definition control_char (c : ascii) : bool :=
  let n := nat_of_ascii c in
  (n <? 32)%nat && negb ((n =? 9)%nat || (n =? 10)%nat || (n =? 13)%nat).

Fixpoint writable (s : string) : bool :=
  match s with
  | String c s' => negb (control_char c) && writable s'
  | EmptyString => true
  end.

(** The strings of the manifest, keys apart (the keys are literals). *)
Definition entry_strings (entry : LibraryEntry) : list string :=
  [ BinaryPath entry; HeadersPath entry; LibraryIdentifier entry;
    LibraryPath entry ] ++ SupportedArchitectures entry ++
  [ SupportedPlatform entry ] ++
  match SupportedPlatformVariant entry with
  | Some v => [v]
  | None => []
  end.

Definition plist_strings (content : InfoPlist) : list string :=
  flat_map entry_strings (AvailableLibraries content) ++
  [ CFBundlePackageType content; XCFrameworkFormatVersion content ].

Definition plist_writable (content : InfoPlist) : bool :=
  forallb writable (plist_strings content).

(** [with open(p, 'wb') as f: plistlib.dump(content, f)].  The file is
    created, or emptied, when it is opened; a string that [plistlib]
    refuses ends the dump with [ValueError], and what was written up to
    there stays. *)
Definition dump_plist (p : Path) (content : InfoPlist) : M unit :=
  λ w, match disk w !! p, disk w !! parent p with
       | Some Dir, _ => (Raise (IsADirectoryError (Name p)), w)
       | _, Some Dir =>
           if plist_writable content then
             let d := PropertyList content in
             (Ok tt, log (Wrote p d) (set_disk (<[p := File d]> (disk w)) w))
           else
             (Raise (ValueError
                "strings can't contain control characters; use bytes instead"),
              log (Wrote p Unfinished)
                (set_disk (<[p := File Unfinished]> (disk w)) w))
       | _, _ => (Raise (no_entry (disk w) p), w)
       end.

(** ** [class IdeviceFfiXCFrameworkBuilder] *)

(** A platform configuration has either the keys [rust_target] and [arch]
    or the keys [rust_targets] and [archs]. *)
Inductive Targets :=
| SingleTarget (rust_target arch : string)
| MultiTarget (rust_targets archs : list string).

Record PlatformConfig := {
  targets : Targets;
  sdk : string;
  min_version : string;
  platform_name : string
}.

Record Builder := {
  project_root : Path;
  idevice_ffi_dir : Path;
  build_dir : Path;
  xcframework_dir : Path;
  platforms : list (string * PlatformConfig)
}.

Definition nl : string := String "010" EmptyString.

Definition lib_name : string := "libidevice_ffi.a".

(** [self.platforms], in the order of the dict literal *)
Definition platform_table : list (string * PlatformConfig) :=
  [ ("iphoneos",
     {| targets := SingleTarget "aarch64-apple-ios" "arm64";
        sdk := "iphoneos"; min_version := "12.0"; platform_name := "iOS" |});
    ("iphonesimulator",
     {| targets := MultiTarget ["aarch64-apple-ios-sim"; "x86_64-apple-ios"]
                               ["arm64"; "x86_64"];
        sdk := "iphonesimulator"; min_version := "12.0";
        platform_name := "iOS Simulator" |});
    ("appletvos",
     {| targets := SingleTarget "aarch64-apple-tvos" "arm64";
        sdk := "appletvos"; min_version := "12.0"; platform_name := "tvOS" |});
    ("appletvsimulator",
     {| targets := MultiTarget ["aarch64-apple-tvos-sim"; "x86_64-apple-tvos"]
                               ["arm64"; "x86_64"];
        sdk := "appletvsimulator"; min_version := "12.0";
        platform_name := "tvOS Simulator" |});
    ("macosx",
     {| targets := MultiTarget ["aarch64-apple-darwin"; "x86_64-apple-darwin"]
                               ["arm64"; "x86_64"];
        sdk := "macosx"; min_version := "12.0"; platform_name := "macOS" |});
    ("maccatalyst",
     {| targets := MultiTarget
                     ["aarch64-apple-ios-macabi"; "x86_64-apple-ios-macabi"]
                     ["arm64"; "x86_64"];
        sdk := "macosx"; min_version := "13.1";
        platform_name := "Mac Catalyst" |}) ].

(** [__init__], from [Path(__file__).parent.absolute()] *)
Definition init (root : Path) : Builder :=
  {| project_root := root;
     idevice_ffi_dir := root // "ffi";
     build_dir := root // "build" // "idevice_ffi";
     xcframework_dir := root // "xcframework";
     platforms := platform_table |}.

Local Open Scope py_scope.

(** [run_command] *)
Definition run_command (self : Builder) (cmd : list Word)
    (cwd : option Path) (env : option (gmap string string)) : M Outcome :=
  print ("Running: " +:+ Py.join " " (map word_str cmd)) ;;
  result <- subprocess_run
              {| cmd := cmd; cwd := default (idevice_ffi_dir self) cwd;
                 env := env |} ;;
  if decide (returncode result = 0) then ret result
  else
    let e := CalledProcessError cmd result in
    print ("Command failed: " +:+ exn_str e) ;;
    print ("stdout: " +:+ stdout result) ;;
    print ("stderr: " +:+ stderr result) ;;
    raise e.

(** The clean environment dict that [prepare_build_environment] (twice) and
    [build_for_target] build from [os.environ]. *)
Definition clean_env : M (gmap string string) :=
  λ w,
    let get k dflt := default dflt (environ w !! k) in
    let home_dir := get "HOME" (pw_dir w) in
    (Ok (list_to_map
           [ ("PATH", home_dir +:+
                "/.cargo/bin:/usr/bin:/bin:/usr/sbin:/sbin:/opt/homebrew/bin:/usr/local/bin");
             ("HOME", home_dir);
             ("USER", get "USER" (login w));
             ("SHELL", get "SHELL" "/bin/zsh");
             ("TERM", get "TERM" "xterm-256color");
             ("LANG", get "LANG" "en_US.UTF-8");
             ("LC_ALL", get "LC_ALL" "en_US.UTF-8") ]), w).

Definition install_targets : list string :=
  [ "aarch64-apple-ios"; "aarch64-apple-ios-sim"; "x86_64-apple-ios";
    "aarch64-apple-darwin"; "x86_64-apple-darwin";
    "aarch64-apple-ios-macabi"; "x86_64-apple-ios-macabi" ].

(** The first part of [prepare_build_environment]: the directories. *)
Definition prepare_directories (self : Builder) : M unit :=
  ex <- path_exists (idevice_ffi_dir self) ;;
  (if negb ex
   then raise (FileNotFoundError ("idevice ffi directory not found at: " +:+
                                  path_str (idevice_ffi_dir self)))
   else ret tt) ;;
  ex <- path_exists (build_dir self) ;;
  (if ex then rmtree (build_dir self) else ret tt) ;;
  mkdir (xcframework_dir self) true true ;;
  let idevice_ffi_xcframework := xcframework_dir self // "idevice_ffi.xcframework" in
  ex <- path_exists idevice_ffi_xcframework ;;
  (if ex then rmtree idevice_ffi_xcframework else ret tt) ;;
  mkdir (build_dir self) true true.

(** The second part: the toolchain installs. *)
Definition install_rust_src (self : Builder) : M unit :=
  try_except
    (env <- clean_env ;;
     run_command self
       [Str "rustup"; Str "component"; Str "add"; Str "rust-src";
        Str "--toolchain"; Str "nightly"]
       (Some (project_root self)) (Some env) ;;
     ret tt)
    is_CalledProcessError
    (λ _, print "rust-src component might already be installed").

Definition install_target (self : Builder) (env : gmap string string)
    (target : string) (_ : unit) : M unit :=
  try_except
    (run_command self [Str "rustup"; Str "target"; Str "add"; Str target]
       (Some (project_root self)) (Some env) ;;
     ret tt)
    is_CalledProcessError
    (λ _, print ("Target " +:+ target +:+
                 " might already be installed or not required on this toolchain")).

Definition install_rust_targets (self : Builder) : M unit :=
  try_except
    (env <- clean_env ;;
     for_in install_targets (install_target self env) tt)
    any_Exception
    (λ e, print ("Warning: failed to ensure some targets: " +:+ exn_str e)).

(** [prepare_build_environment] *)
Definition prepare_build_environment (self : Builder) : M unit :=
  prepare_directories self ;;
  install_rust_src self ;;
  install_rust_targets self ;;
  print "Using nightly Rust with -Zbuild-std for tvOS targets (Tier 3)".

(** The deployment-target assignments of [build_for_target]. *)
Definition set_deployment_target (platform : string)
    (platform_config : PlatformConfig) (env : gmap string string)
    : gmap string string :=
  if bool_decide (platform ∈ ["iphoneos"; "iphonesimulator"]) then
    <["IPHONEOS_DEPLOYMENT_TARGET" := min_version platform_config]> env
  else if bool_decide (platform ∈ ["appletvos"; "appletvsimulator"]) then
    <["TVOS_DEPLOYMENT_TARGET" := min_version platform_config]> env
  else if bool_decide (platform ∈ ["macosx"]) then
    <["MACOSX_DEPLOYMENT_TARGET" := min_version platform_config]> env
  else if bool_decide (platform ∈ ["maccatalyst"]) then
    <["IPHONEOS_DEPLOYMENT_TARGET" := min_version platform_config]>
      (<["MACOSX_DEPLOYMENT_TARGET" := min_version platform_config]> env)
  else env.

Definition cargo_cmd (rust_target : string) : list Word :=
  if Py.contains "apple-tvos" rust_target then
    [Str "cargo"; Str "+nightly"; Str "build";
     Str "-Zbuild-std=std,panic_abort";
     Str "--release";
     Str "--target"; Str rust_target;
     Str "--features"; Str "full,ring";
     Str "--no-default-features"]
  else
    [Str "cargo"; Str "build";
     Str "--release";
     Str "--target"; Str rust_target;
     Str "--features"; Str "full,ring";
     Str "--no-default-features"].

(** [build_for_target] *)
Definition build_for_target (self : Builder)
    (platform rust_target arch : string) : M Path :=
  platform_config <- getitem (platforms self) platform ;;
  let build_subdir := build_dir self // (platform +:+ "-" +:+ arch) in
  mkdir build_subdir true true ;;
  env <- clean_env ;;
  let env := set_deployment_target platform platform_config env in
  print (nl +:+ "=== Building for " +:+ platform +:+ " (" +:+ arch +:+
         ") using target " +:+ rust_target +:+ " ===") ;;
  run_command self (cargo_cmd rust_target)
    (Some (idevice_ffi_dir self)) (Some env) ;;
  let target_dir :=
    parent (idevice_ffi_dir self) // "target" // rust_target // "release" in
  let lib_file := target_dir // lib_name in
  ex <- path_exists lib_file ;;
  (if negb ex
   then raise (FileNotFoundError ("Built library not found at: " +:+
                                  path_str lib_file))
   else ret tt) ;;
  let output_lib := build_subdir // lib_name in
  copy2 lib_file output_lib ;;
  let header_file := idevice_ffi_dir self // "idevice.h" in
  ex <- path_exists header_file ;;
  (if ex then
     let headers_dir := build_subdir // "include" in
     mkdir headers_dir false true ;;
     copy2 header_file (headers_dir // "idevice.h")
   else
     print ("Warning: Header file not found at " +:+ path_str header_file)) ;;
  ret build_subdir.

Definition remove_if_exists (p : Path) : M unit :=
  ex <- path_exists p ;;
  if ex then rmtree p else ret tt.

(** The body of the [for obj_file in object_files] loop. *)
Definition fix_object (self : Builder) (temp_dir obj_file : Path)
    (_ : unit) : M unit :=
  try_except
    (run_command self
       [Str "vtool"; Str "-set-build-version"; Str "3"; Str "12.0";
        Str "12.0"; Str "-replace"; PathArg obj_file]
       (Some temp_dir) None ;;
     print ("Successfully updated platform metadata for " +:+ name obj_file))
    is_CalledProcessError
    (λ e, print ("vtool failed for " +:+ name obj_file +:+ ": " +:+
                 exn_str e)).

(** [fix_tvos_platform_metadata] *)
Definition fix_tvos_platform_metadata (self : Builder) (lib_path : Path)
    (platform : string) : M unit :=
  print ("Fixing platform metadata for " +:+ platform +:+ "...") ;;
  let temp_dir := parent lib_path // "temp_objects" in
  remove_if_exists temp_dir ;;
  mkdir temp_dir false false ;;
  try_finally
    (run_command self [Str "ar"; Str "x"; PathArg lib_path]
       (Some temp_dir) None ;;
     object_files <- glob_suffix temp_dir ".o" ;;
     for_in object_files (fix_object self temp_dir) tt ;;
     let ar_cmd :=
       [Str "ar"; Str "rcs"; PathArg lib_path] ++ map PathArg object_files in
     run_command self ar_cmd (Some temp_dir) None ;;
     ret tt)
    (remove_if_exists temp_dir).

(** The parsing of [lipo -info] output in [get_lib_archs]. *)
Definition parse_archs (result : Outcome) : list string :=
  let output := Py.or_str (Py.strip (stdout result))
                          (Py.strip (stderr result)) in
  if Py.contains "are:" output then
    Py.words (Py.strip (Py.last_piece (Py.split "are:" output)))
  else if Py.contains "architecture:" output then
    [Py.strip (Py.last_piece (Py.split "architecture:" output))]
  else [].

(** [get_lib_archs] *)
Definition get_lib_archs (self : Builder) (lib_path : Path)
    : M (list string) :=
  try_except
    (result <- run_command self [Str "lipo"; Str "-info"; PathArg lib_path]
                 (Some (project_root self)) None ;;
     ret (parse_archs result))
    any_Exception
    (λ _, ret []).

Definition lipo_cmd (lib_paths : list Path) (fat_lib : Path) : list Word :=
  [Str "lipo"; Str "-create"] ++ map PathArg lib_paths ++
  [Str "-output"; PathArg fat_lib].

(** [create_fat_library] *)
Definition create_fat_library (self : Builder) (platform : string)
    (build_paths : list Path) : M Path :=
  if decide (length build_paths = 1%nat) then index build_paths 0
  else
    let fat_dir := build_dir self // (platform +:+ "-fat") in
    mkdir fat_dir false true ;;
    first_build <- index build_paths 0 ;;
    ex <- path_exists (first_build // "include") ;;
    (if ex then copytree (first_build // "include") (fat_dir // "include") true
     else ret tt) ;;
    let lib_paths := map (λ build_path, build_path // lib_name) build_paths in
    let fat_lib := fat_dir // lib_name in
    run_command self (lipo_cmd lib_paths fat_lib)
      (Some (project_root self)) None ;;
    print ("Created fat library: " +:+ path_str fat_lib) ;;
    ret fat_dir.

(** [enumerate(l)] *)
Definition enumerate {A} (l : list A) : list (nat * A) :=
  zip (seq 0 (length l)) l.

(** [build_platform] *)
Definition build_platform (self : Builder) (platform : string) : M Path :=
  platform_config <- getitem (platforms self) platform ;;
  match targets platform_config with
  | MultiTarget rust_targets archs =>
      build_paths <-
        for_in (enumerate rust_targets)
          (λ '(i, rust_target) build_paths,
             arch <- index archs i ;;
             build_path <- build_for_target self platform rust_target arch ;;
             ret (build_paths ++ [build_path]))
          [] ;;
      create_fat_library self platform build_paths
  | SingleTarget rust_target arch =>
      build_for_target self platform rust_target arch
  end.

(** [platform_config.get('archs', [])] *)
Definition config_archs (platform_config : PlatformConfig) : list string :=
  match targets platform_config with
  | MultiTarget _ archs => archs
  | SingleTarget _ _ => []
  end.

(** [sorted(self.get_lib_archs(lib_path) or platform_config.get('archs', []))] *)
Definition detect_sorted_archs (self : Builder)
    (platform_config : PlatformConfig) (lib_path : Path) : M (list string) :=
  detected_archs <- get_lib_archs self lib_path ;;
  ret (Py.sorted (Py.or_list detected_archs (config_archs platform_config))).

(** The inner [if sorted_archs == [...]] chain, the same for the four
    platforms that have one, with the four strings of the platform. *)
Definition by_archs (sorted_archs : list string)
    (both arm64 x86_64 other : string) : string :=
  if decide (sorted_archs = ["arm64"; "x86_64"]) then both
  else if decide (sorted_archs = ["arm64"]) then arm64
  else if decide (sorted_archs = ["x86_64"]) then x86_64
  else other.

(** What the [if platform == ...] chain of [create_xcframework] assigns. *)
Record Slot := {
  slot_identifier : string;
  supported_platform : string;
  supported_architectures : list string;
  platform_variant : option string
}.

Local Open Scope py_scope.

(** The [if platform == ...] chain; [None] is its final [else: continue]. *)
Definition classify (self : Builder) (platform : string)
    (platform_config : PlatformConfig) (lib_path : Path) : M (option Slot) :=
  if decide (platform = "appletvos") then
    ret (Some {| slot_identifier := "tvos-arm64";
                 supported_platform := "tvos";
                 supported_architectures := ["arm64"];
                 platform_variant := None |})
  else if decide (platform = "appletvsimulator") then
    sorted_archs <- detect_sorted_archs self platform_config lib_path ;;
    ret (Some {| slot_identifier :=
                   by_archs sorted_archs "tvos-arm64_x86_64-simulator"
                     "tvos-arm64-simulator" "tvos-x86_64-simulator"
                     "tvos-simulator";
                 supported_platform := "tvos";
                 supported_architectures := sorted_archs;
                 platform_variant := Some "simulator" |})
  else if decide (platform = "iphoneos") then
    ret (Some {| slot_identifier := "ios-arm64";
                 supported_platform := "ios";
                 supported_architectures := ["arm64"];
                 platform_variant := None |})
  else if decide (platform = "iphonesimulator") then
    sorted_archs <- detect_sorted_archs self platform_config lib_path ;;
    ret (Some {| slot_identifier :=
                   by_archs sorted_archs "ios-arm64_x86_64-simulator"
                     "ios-arm64-simulator" "ios-x86_64-simulator"
                     "ios-simulator";
                 supported_platform := "ios";
                 supported_architectures := sorted_archs;
                 platform_variant := Some "simulator" |})
  else if decide (platform = "macosx") then
    sorted_archs <- detect_sorted_archs self platform_config lib_path ;;
    ret (Some {| slot_identifier :=
                   by_archs sorted_archs "macos-arm64_x86_64" "macos-arm64"
                     "macos-x86_64" "macos";
                 supported_platform := "macos";
                 supported_architectures := sorted_archs;
                 platform_variant := None |})
  else if decide (platform = "maccatalyst") then
    sorted_archs <- detect_sorted_archs self platform_config lib_path ;;
    ret (Some {| slot_identifier :=
                   by_archs sorted_archs "ios-arm64_x86_64-maccatalyst"
                     "ios-arm64-maccatalyst" "ios-x86_64-maccatalyst"
                     "ios-maccatalyst";
                 supported_platform := "ios";
                 supported_architectures := sorted_archs;
                 platform_variant := Some "maccatalyst" |})
  else ret None.

(** [if platform_variant:] keeps a variant that is not the empty string. *)
Definition truthy (v : option string) : option string :=
  match v with
  | Some EmptyString => None
  | _ => v
  end.

Definition library_entry (s : Slot) : LibraryEntry :=
  {| BinaryPath := lib_name;
     HeadersPath := "Headers";
     LibraryIdentifier := slot_identifier s;
     LibraryPath := lib_name;
     SupportedArchitectures := supported_architectures s;
     SupportedPlatform := supported_platform s;
     SupportedPlatformVariant := truthy (platform_variant s) |}.

(** The body of the loop over [platform_builds.items()]. *)
Definition add_platform (self : Builder) (xcframework_path : Path)
    (item : string * Path) (available_libraries : list LibraryEntry)
    : M (list LibraryEntry) :=
  let '(platform, build_path) := item in
  let lib_path := build_path // lib_name in
  let headers_path := build_path // "include" in
  ex <- path_exists lib_path ;;
  if negb ex then ret available_libraries
  else
    platform_config <- getitem (platforms self) platform ;;
    found <- classify self platform platform_config lib_path ;;
    match found with
    | None => ret available_libraries
    | Some s =>
        let platform_dir := xcframework_path // slot_identifier s in
        mkdir platform_dir false false ;;
        copy2 lib_path (platform_dir // lib_name) ;;
        ex <- path_exists headers_path ;;
        (if ex then copytree headers_path (platform_dir // "Headers") false
         else ret tt) ;;
        ret (available_libraries ++ [library_entry s])
    end.

Definition bundle_path (self : Builder) : Path :=
  xcframework_dir self // "idevice_ffi.xcframework".

(** The start of [create_xcframework]: the old bundle goes, an empty one
    is made. *)
Definition reset_bundle (self : Builder) : M unit :=
  let xcframework_path := bundle_path self in
  remove_if_exists xcframework_path ;;
  mkdir xcframework_path true false.

(** [create_xcframework] *)
Definition create_xcframework (self : Builder)
    (platform_builds : list (string * Path)) : M Path :=
  let xcframework_path := bundle_path self in
  reset_bundle self ;;
  print (nl +:+ "=== Creating XCFramework manually ===") ;;
  available_libraries <-
    for_in platform_builds (add_platform self xcframework_path) [] ;;
  let info_plist_content :=
    {| AvailableLibraries := available_libraries;
       CFBundlePackageType := "XFWK";
       XCFrameworkFormatVersion := "1.0" |} in
  let info_plist_path := xcframework_path // "Info.plist" in
  dump_plist info_plist_path info_plist_content ;;
  print (nl +:+ "✅ XCFramework created successfully:") ;;
  print ("   idevice_ffi: " +:+ path_str xcframework_path) ;;
  ret xcframework_path.

(** The body of the loop of [build_all_platforms]. *)
Definition build_one (self : Builder) (platform : string)
    (platform_builds : list (string * Path)) : M (list (string * Path)) :=
  platform_config <- getitem (platforms self) platform ;;
  print (nl +:+ "🚀 Building for " +:+ platform_name platform_config +:+
         " (" +:+ platform +:+ ")") ;;
  build_path <- build_platform self platform ;;
  ret (setitem platform_builds platform build_path).

(** [build_all_platforms] *)
Definition build_all_platforms (self : Builder) : M Path :=
  platform_builds <- for_in (platforms self).*1 (build_one self) [] ;;
  create_xcframework self platform_builds.

Definition platform_map : list (string * string) :=
  [ ("iphoneos", "iphoneos"); ("iphonesimulator", "iphonesimulator");
    ("appletvos", "appletvos"); ("appletvsimulator", "appletvsimulator");
    ("macosx", "macosx"); ("maccatalyst", "maccatalyst") ].

(** [build_active_platform] *)
Definition build_active_platform (self : Builder) (sdk_name : string)
    : M Path :=
  match truthy (dict_get platform_map (Py.lower sdk_name)) with
  | None => raise (ValueError ("Unsupported SDK: " +:+ sdk_name))
  | Some platform =>
      platform_config <- getitem (platforms self) platform ;;
      print ("🚀 Building for active platform: " +:+
             platform_name platform_config) ;;
      build_path <- build_platform self platform ;;
      create_xcframework self [(platform, build_path)]
  end.

(** What [main] does inside its [try], for a builder made at [root]. *)
Definition run_body (root : Path) (sdk_arg : option string) : M unit :=
  let builder := init root in
  print "🔧 Preparing build environment..." ;;
  prepare_build_environment builder ;;
  match truthy sdk_arg with
  | Some sdk_name => build_active_platform builder sdk_name ;; ret tt
  | None => build_all_platforms builder ;; ret tt
  end.

(** The same, with the directory of the script for [root]. *)
Definition run (sdk_arg : option string) : M unit :=
  λ w, run_body (script_dir w) sdk_arg w.

Definition failure_line (e : Exn) : Event :=
  Printed ("❌ Build failed: " +:+ exn_str e).

(** [main], with the value of [--sdk]; the result is the exit status of
    the process. *)
Definition main (sdk_arg : option string) (w : World) : Z * World :=
  match run sdk_arg w with
  | (Ok _, w') => (0, w')
  | (Raise e, w') => (1, log (failure_line e) w')
  end.

(** The events of a whole process. *)
Definition emitted (sdk_arg : option string) (w : World) : list Event :=
  drop (length (trace w)) (trace (main sdk_arg w).2).

(** ** Reasoning about what a computation emits *)

(** [spec m Q]: from every world, [m] only appends to the trace, and [Q]
    holds of its result and of the events it appended. *)
Definition spec {A} (m : M A) (Q : Result A → list Event → Prop) : Prop :=
  ∀ w, ∃ evs, trace (m w).2 = trace w ++ evs ∧ Q (m w).1 evs.

(** The events [m] appends when run from [w]. *)
Definition steps {A} (m : M A) (w : World) : list Event :=
  drop (length (trace w)) (trace (m w).2).

(** The commands among some events, with their outcomes. *)
Definition runs (evs : list Event) : list (Call * Outcome) :=
  omap (λ e, match e with Ran c o => Some (c, o) | _ => None end) evs.

(** The lines printed and the files written among some events. *)
Definition prints (evs : list Event) : list string :=
  omap (λ e, match e with Printed s => Some s | _ => None end) evs.

Definition writes (evs : list Event) : list Path :=
  omap (λ e, match e with Wrote p _ => Some p | _ => None end) evs.

Lemma runs_app evs1 evs2 : runs (evs1 ++ evs2) = runs evs1 ++ runs evs2.
Proof. apply omap_app. Qed.

Lemma writes_app evs1 evs2 : writes (evs1 ++ evs2) = writes evs1 ++ writes evs2.
Proof. apply omap_app. Qed.

Lemma prints_app evs1 evs2 : prints (evs1 ++ evs2) = prints evs1 ++ prints evs2.
Proof. apply omap_app. Qed.

Lemma runs_nil : runs [] = [].
Proof. done. Qed.

Lemma writes_nil : writes [] = [].
Proof. done. Qed.

Lemma prints_nil : prints [] = [].
Proof. done. Qed.

Lemma runs_cons e evs :
  runs (e :: evs) =
  match e with Ran c o => (c, o) :: runs evs | _ => runs evs end.
Proof. by destruct e. Qed.

Lemma writes_cons e evs :
  writes (e :: evs) =
  match e with Wrote p _ => p :: writes evs | _ => writes evs end.
Proof. by destruct e. Qed.

Lemma prints_cons e evs :
  prints (e :: evs) =
  match e with Printed s => s :: prints evs | _ => prints evs end.
Proof. by destruct e. Qed.

Arguments runs : simpl never.
Arguments writes : simpl never.
Arguments prints : simpl never.

Ltac ev_simpl :=
  repeat first [ rewrite runs_app | rewrite writes_app | rewrite prints_app
               | rewrite runs_cons | rewrite writes_cons | rewrite prints_cons
               | rewrite runs_nil | rewrite writes_nil | rewrite prints_nil
               | rewrite app_nil_r | rewrite app_nil_l ];
  cbn.

(** An exception of the operating system or of the language, as opposed
    to the [CalledProcessError] of a tool that exited non-zero. *)
Definition os_error (e : Exn) : Prop := is_CalledProcessError e = false.

(** A computation that leaves the trace alone and never raises
    [CalledProcessError]: the [pathlib] and [shutil] calls. *)
Definition silent {A} (m : M A) : Prop :=
  ∀ w, trace (m w).2 = trace w ∧ ∀ e, (m w).1 = Raise e → os_error e.

Section Rules.
Context {A : Type}.
Implicit Types (m : M A) (Q : Result A → list Event → Prop).

Lemma spec_steps m Q w : spec m Q → Q (m w).1 (steps m w).
Proof.
  intros H. destruct (H w) as (evs & Ht & HQ). unfold steps.
  by rewrite Ht, drop_app_length.
Qed.

Lemma spec_trace m Q w :
  spec m Q → trace (m w).2 = trace w ++ steps m w.
Proof.
  intros H. destruct (H w) as (evs & Ht & _). unfold steps.
  by rewrite Ht, drop_app_length.
Qed.

Lemma spec_conseq m Q Q' :
  spec m Q → (∀ r evs, Q r evs → Q' r evs) → spec m Q'.
Proof.
  intros H HQ w. destruct (H w) as (evs & Ht & Hq). exists evs. auto.
Qed.

Lemma spec_and m Q Q' :
  spec m Q → spec m Q' → spec m (λ r evs, Q r evs ∧ Q' r evs).
Proof.
  intros H H' w. destruct (H w) as (evs & Ht & Hq).
  destruct (H' w) as (evs' & Ht' & Hq'). exists evs.
  rewrite Ht in Ht'. apply app_inv_head in Ht'. subst evs'. auto.
Qed.

Lemma spec_ret (a : A) Q : Q (Ok a) [] → spec (ret a) Q.
Proof. intros H w. exists []. simpl. by rewrite app_nil_r. Qed.

Lemma spec_raise (e : Exn) Q : Q (Raise e) [] → spec (raise e) Q.
Proof. intros H w. exists []. simpl. by rewrite app_nil_r. Qed.

Lemma spec_silent m Q :
  silent m → (∀ a, Q (Ok a) []) → (∀ e, os_error e → Q (Raise e) []) →
  spec m Q.
Proof.
  intros Hs Hok He w. destruct (Hs w) as [Ht Hr]. exists [].
  rewrite app_nil_r. split; [done|].
  destruct (m w).1 as [a|e]; [apply Hok|by apply He, Hr].
Qed.

Lemma spec_bind {B} (m : M B) (f : B → M A) Q :
  spec m (λ r evs1,
            match r with
            | Ok b => spec (f b) (λ r2 evs2, Q r2 (evs1 ++ evs2))
            | Raise e => Q (Raise e) evs1
            end) →
  spec (bind m f) Q.
Proof.
  intros H w. destruct (H w) as (evs1 & Ht & HQ). unfold bind.
  destruct (m w) as [[b|e] w1]; simpl in *.
  - destruct (HQ w1) as (evs2 & Ht2 & HQ2). exists (evs1 ++ evs2).
    by rewrite Ht2, Ht, (assoc_L (++)).
  - by exists evs1.
Qed.

Lemma spec_bind_assoc {B C} (m : M C) (f : C → M B) (k : B → M A) Q :
  spec (bind m (λ c, bind (f c) k)) Q → spec (bind (bind m f) k) Q.
Proof.
  intros H w. destruct (H w) as (evs & Ht & HQ). exists evs.
  unfold bind in *. by destruct (m w) as [[c|e] w1].
Qed.

Lemma spec_try_except m (catches : Exn → bool) (h : Exn → M A) Q :
  spec m (λ r evs1,
            match r with
            | Ok a => Q (Ok a) evs1
            | Raise e =>
                if catches e
                then spec (h e) (λ r2 evs2, Q r2 (evs1 ++ evs2))
                else Q (Raise e) evs1
            end) →
  spec (try_except m catches h) Q.
Proof.
  intros H w. destruct (H w) as (evs1 & Ht & HQ). unfold try_except.
  destruct (m w) as [[a|e] w1]; simpl in *.
  - by exists evs1.
  - destruct (catches e).
    + destruct (HQ w1) as (evs2 & Ht2 & HQ2). exists (evs1 ++ evs2).
      by rewrite Ht2, Ht, (assoc_L (++)).
    + by exists evs1.
Qed.

Lemma spec_try_finally m (fin : M unit) Q :
  spec m (λ r evs1,
            spec fin (λ rf evs2,
                        match rf with
                        | Ok _ => Q r (evs1 ++ evs2)
                        | Raise e => Q (Raise e) (evs1 ++ evs2)
                        end)) →
  spec (try_finally m fin) Q.
Proof.
  intros H w. destruct (H w) as (evs1 & Ht & HQ). unfold try_finally.
  destruct (m w) as [r w1]; simpl in *.
  destruct (HQ w1) as (evs2 & Ht2 & HQ2). exists (evs1 ++ evs2).
  destruct (fin w1) as [[[]|e] w2]; simpl in *;
    by rewrite Ht2, Ht, (assoc_L (++)).
Qed.

End Rules.

(** A loop keeps an invariant [I] of the items done, of its state and of
    the events so far; [E] is what holds if the body raises. *)
Lemma spec_for_in {X S} (I : list X → S → list Event → Prop)
    (E : Exn → list Event → Prop) (body : X → S → M S) (l done : list X) :
  (∀ pre x post s evs, done ++ l = pre ++ x :: post → I pre s evs →
     spec (body x s) (λ r evs2,
                        match r with
                        | Ok s' => I (pre ++ [x]) s' (evs ++ evs2)
                        | Raise e => E e (evs ++ evs2)
                        end)) →
  ∀ s0 evs0, I done s0 evs0 →
  spec (for_in l body s0) (λ r evs,
                             match r with
                             | Ok s => I (done ++ l) s (evs0 ++ evs)
                             | Raise e => E e (evs0 ++ evs)
                             end).
Proof.
  revert done. induction l as [|x l IH]; intros done Hbody s0 evs0 HI; simpl.
  - apply spec_ret. by rewrite !app_nil_r.
  - apply spec_bind. eapply spec_conseq.
    { by apply (Hbody done x l s0 evs0). }
    intros [s'|e] evs1 H1; simpl; [|done].
    eapply spec_conseq.
    { apply (IH (done ++ [x])); [|exact H1].
      intros pre y post s evs Heq. apply (Hbody pre y post).
      by rewrite <- Heq, <- (assoc_L (++)). }
    intros [s|e] evs2; simpl; rewrite <- ?(assoc_L (++)); simpl;
      by rewrite ?(assoc_L (++)).
Qed.

Lemma for_in_cons_bind {X S B} (x : X) (l : list X) (body : X → S → M S)
    (s : S) (k : S → M B) Q :
  spec (bind (body x s) (λ s', bind (for_in l body s') k)) Q →
  spec (bind (for_in (x :: l) body s) k) Q.
Proof. apply spec_bind_assoc. Qed.

Lemma spec_print (line : string) Q :
  Q (Ok tt) [Printed line] → spec (print line) Q.
Proof. intros H w. by exists [Printed line]. Qed.

Lemma spec_subprocess_run (c : Call) Q :
  (∀ o, Q (Ok o) [Ran c o]) → spec (subprocess_run c) Q.
Proof. intros H w. eexists [Ran c _]. split; [done|]. apply H. Qed.

Lemma no_entry_os_error (fs : FS) (p : Path) : os_error (no_entry fs p).
Proof. unfold no_entry. by case_match. Qed.

Lemma spec_dump_plist (p : Path) (content : InfoPlist) Q :
  (∀ e, os_error e → Q (Raise e) []) →
  (plist_writable content = false →
   ∀ e, os_error e → Q (Raise e) [Wrote p Unfinished]) →
  (plist_writable content = true →
   Q (Ok tt) [Wrote p (PropertyList content)]) →
  spec (dump_plist p content) Q.
Proof.
  intros He Hbad Hok w. unfold dump_plist.
  destruct (disk w !! p) as [[|]|], (disk w !! parent p) as [[|]|];
    try destruct (plist_writable content) eqn:Hw; simpl;
    first [ by (exists []; rewrite app_nil_r; split;
                [|first [by apply He|apply He, no_entry_os_error]])
          | by (exists [Wrote p (PropertyList content)]; split;
                [|by apply Hok])
          | by (exists [Wrote p Unfinished]; split; [|by apply Hbad]) ].
Qed.

Lemma spec_getitem {V} (d : list (string * V)) (k : string) Q :
  (∀ v, dict_get d k = Some v → Q (Ok v) []) →
  (dict_get d k = None → Q (Raise (KeyError k)) []) →
  spec (getitem d k) Q.
Proof.
  intros Hok He. unfold getitem. destruct (dict_get d k) eqn:Hd.
  - by apply spec_ret, Hok.
  - by apply spec_raise, He.
Qed.

Lemma spec_index {X} (l : list X) (i : nat) Q :
  (∀ x, l !! i = Some x → Q (Ok x) []) →
  (l !! i = None → Q (Raise IndexError) []) →
  spec (index l i) Q.
Proof.
  intros Hok He. unfold index. destruct (l !! i) eqn:Hl.
  - by apply spec_ret, Hok.
  - by apply spec_raise, He.
Qed.

Lemma spec_path_exists (p : Path) Q :
  (∀ b, Q (Ok b) []) → spec (path_exists p) Q.
Proof. intros H w. exists []. rewrite app_nil_r. split; [done|]. apply H. Qed.

Lemma spec_glob_suffix (d : Path) (suffix : string) Q :
  (∀ l, Q (Ok l) []) → spec (glob_suffix d suffix) Q.
Proof. intros H w. exists []. rewrite app_nil_r. split; [done|]. apply H. Qed.

Lemma silent_ret {A} (a : A) : silent (ret a).
Proof. done. Qed.

Lemma silent_raise {A} (e : Exn) : os_error e → silent (raise (A := A) e).
Proof. intros He w. split; [done|]. by intros ? [= <-]. Qed.

Lemma silent_path_exists p : silent (path_exists p).
Proof. done. Qed.

Lemma make_dirs_error (todo : list Path) (fs : FS) (e : Exn) :
  make_dirs todo fs = inl e → os_error e.
Proof.
  revert fs. induction todo as [|q todo IH]; intros fs; cbn; [done|].
  destruct (fs !! q) as [[|]|]; eauto. by intros [= <-].
Qed.

Ltac silent_cases :=
  split; [done|];
  first [ done
        | intros ? [= <-];
          first [ done | apply no_entry_os_error | by eapply make_dirs_error ] ].

Lemma silent_mkdir p parents exist_ok : silent (mkdir p parents exist_ok).
Proof.
  intros w. unfold mkdir.
  destruct (disk w !! p) as [[|]|];
    [silent_cases|destruct exist_ok; silent_cases|].
  destruct parents.
  - destruct (make_dirs _ _) eqn:Hm; silent_cases.
  - destruct (disk w !! parent p) as [[|]|]; silent_cases.
Qed.

Lemma silent_rmtree p : silent (rmtree p).
Proof.
  intros w. unfold rmtree. destruct (disk w !! p) as [[|]|]; silent_cases.
Qed.

Lemma silent_copy2 src dst : silent (copy2 src dst).
Proof.
  intros w. unfold copy2. cbv zeta.
  destruct (disk w !! src) as [[|]|]; [| |silent_cases];
    (case_decide; [silent_cases|]); [|silent_cases].
  repeat case_match; silent_cases.
Qed.

Lemma silent_copytree src dst ok : silent (copytree src dst ok).
Proof.
  intros w. unfold copytree.
  destruct (disk w !! src) as [[|]|]; [silent_cases| |silent_cases].
  destruct (disk w !! dst) as [[|]|];
    [silent_cases|destruct ok; silent_cases|].
  destruct (make_dirs _ _) eqn:Hm; silent_cases.
Qed.

Lemma silent_bind {A B} (m : M A) (f : A → M B) :
  silent m → (∀ a, silent (f a)) → silent (bind m f).
Proof.
  intros Hm Hf w. unfold bind. destruct (Hm w) as [Ht Hr].
  destruct (m w) as [[a|e] w1]; simpl in *.
  - destruct (Hf a w1) as [Ht' Hr']. split; [congruence|done].
  - split; [done|]. intros ? [= <-]. by apply Hr.
Qed.

Create HintDb silent.
#[global] Hint Resolve silent_ret silent_path_exists silent_mkdir
  silent_rmtree silent_copy2 silent_copytree : silent.
#[global] Hint Extern 1 (silent (raise _)) =>
  apply silent_raise; reflexivity : silent.

Ltac solve_silent :=
  repeat first
    [ apply silent_bind; [|intros ?]
    | match goal with |- silent (if ?b then _ else _) => destruct b end
    | solve [auto with silent] ].

Lemma silent_remove_if_exists p : silent (remove_if_exists p).
Proof. unfold remove_if_exists. solve_silent. Qed.

#[global] Hint Resolve silent_remove_if_exists : silent.

(** One step of the calculus on the head of the computation. *)
Ltac spec_os m :=
  apply (spec_silent m); [auto with silent|intros []|intros ? ?].

Ltac spec_step :=
  lazymatch goal with
  | |- spec (bind _ _) _ => apply spec_bind
  | |- spec (ret _) _ => apply spec_ret
  | |- spec (raise _) _ => apply spec_raise
  | |- spec (print _) _ => apply spec_print
  | |- spec (subprocess_run _) _ => apply spec_subprocess_run; intros ?
  | |- spec (try_except _ _ _) _ => apply spec_try_except
  | |- spec (try_finally _ _) _ => apply spec_try_finally
  | |- spec (path_exists _) _ => apply spec_path_exists; intros []
  | |- spec (glob_suffix _ _) _ => apply spec_glob_suffix; intros ?
  | |- spec (mkdir ?p ?a ?b) _ => spec_os (mkdir p a b)
  | |- spec (rmtree ?p) _ => spec_os (rmtree p)
  | |- spec (copy2 ?s ?d) _ => spec_os (copy2 s d)
  | |- spec (copytree ?s ?d ?b) _ => spec_os (copytree s d b)
  | |- spec (remove_if_exists ?p) _ => spec_os (remove_if_exists p)
  | |- spec (if ?b then _ else _) _ => destruct b
  end.

Ltac spec_steps := repeat (spec_step; cbn).

(** ** What each method emits *)

(** The call that [run_command] hands to [subprocess.run]. *)
Definition call_of (self : Builder) (c : list Word) (cw : option Path)
    (e : option (gmap string string)) : Call :=
  {| cmd := c; cwd := default (idevice_ffi_dir self) cw; env := e |}.

Definition failure_report (c : list Word) (o : Outcome) : list Event :=
  [ Printed ("Command failed: " +:+ exn_str (CalledProcessError c o));
    Printed ("stdout: " +:+ stdout o);
    Printed ("stderr: " +:+ stderr o) ].

(** Everything [run_command] emits, given the outcome of the tool. *)
Definition run_events (self : Builder) (c : list Word) (cw : option Path)
    (e : option (gmap string string)) (o : Outcome) : list Event :=
  [ Printed ("Running: " +:+ Py.join " " (map word_str c));
    Ran (call_of self c cw e) o ] ++
  (if decide (returncode o = 0) then [] else failure_report c o).

Definition run_result (c : list Word) (o : Outcome) : Result Outcome :=
  if decide (returncode o = 0) then Ok o else Raise (CalledProcessError c o).

Arguments run_events : simpl never.
Arguments failure_report : simpl never.
Arguments call_of : simpl never.

Lemma spec_run_command self c cw e Q :
  (∀ o, Q (run_result c o) (run_events self c cw e o)) →
  spec (run_command self c cw e) Q.
Proof.
  intros H. unfold run_command. do 4 spec_step. cbn.
  match goal with o : Outcome |- _ =>
    specialize (H o); unfold run_result, run_events, failure_report in H;
    destruct (decide (returncode o = 0)) end;
  spec_steps; by ev_simpl.
Qed.

Lemma runs_run_events self c cw e o :
  runs (run_events self c cw e o) = [(call_of self c cw e, o)].
Proof. unfold run_events, failure_report. case_decide; by ev_simpl. Qed.

Lemma writes_run_events self c cw e o : writes (run_events self c cw e o) = [].
Proof. unfold run_events, failure_report. case_decide; by ev_simpl. Qed.

Ltac ev_norm :=
  repeat first [ rewrite runs_app | rewrite writes_app | rewrite prints_app
               | rewrite runs_run_events | rewrite writes_run_events
               | rewrite runs_cons | rewrite writes_cons | rewrite prints_cons
               | rewrite runs_nil | rewrite writes_nil | rewrite prints_nil
               | rewrite app_nil_r | rewrite app_nil_l ];
  cbn.

(** The keys of the clean environment. *)
Definition clean_keys : list string :=
  ["PATH"; "HOME"; "USER"; "SHELL"; "TERM"; "LANG"; "LC_ALL"].

Definition is_clean (e : gmap string string) : Prop :=
  ∀ k, k ∉ clean_keys → e !! k = None.

Lemma spec_clean_env Q :
  (∀ e, is_clean e → Q (Ok e) []) → spec clean_env Q.
Proof.
  intros H w. exists []. rewrite app_nil_r. split; [done|]. apply H.
  intros k Hk. apply not_elem_of_list_to_map_1.
  rewrite !fmap_cons. exact Hk.
Qed.

Ltac spec_step' :=
  lazymatch goal with
  | |- spec (run_command _ _ _ _) _ => apply spec_run_command; intros ?
  | |- spec clean_env _ => apply spec_clean_env; intros ? ?
  | |- _ => spec_step
  end.

Ltac spec_go := repeat (spec_step'; cbn).

Definition failed (co : Call * Outcome) : Prop := returncode co.2 ≠ 0.

Definition raised {A} (r : Result A) : Prop := ∃ e, r = Raise e.

(** Membership in a list of literals, or its negation from disequalities. *)
Ltac solve_elem :=
  first [ by (apply (bool_decide_unpack _); vm_compute)
        | let H := fresh in
          intros H; repeat (apply elem_of_cons in H as [?|H]; [done|]);
          by apply elem_of_nil in H ].

Ltac solve_in H :=
  repeat (apply elem_of_cons in H as [->|H];
          [by (apply (bool_decide_unpack _); vm_compute)|]);
  by apply elem_of_nil in H.

(** *** The installs of [prepare_build_environment] *)

Definition rust_src_cmd : list Word :=
  [Str "rustup"; Str "component"; Str "add"; Str "rust-src";
   Str "--toolchain"; Str "nightly"].

Definition target_add_cmd (target : string) : list Word :=
  [Str "rustup"; Str "target"; Str "add"; Str target].

Definition rust_src_note : string :=
  "rust-src component might already be installed".

Definition target_note (target : string) : string :=
  "Target " +:+ target +:+
  " might already be installed or not required on this toolchain".

(** One installation attempt: the command with what [run_command] prints
    around it, and after a non-zero exit the note of the handler. *)
Definition attempt (self : Builder) (c : list Word) (note : string)
    (e : gmap string string) (o : Outcome) : list Event :=
  run_events self c (Some (project_root self)) (Some e) o ++
  (if decide (returncode o = 0) then [] else [Printed note]).

Arguments attempt : simpl never.

Ltac finish_events :=
  unfold attempt, run_events in *; repeat case_decide; try done;
  ev_simpl; try done.

Lemma install_rust_src_spec self :
  spec (install_rust_src self)
    (λ r evs, r = Ok tt ∧
              ∃ e o, evs = attempt self rust_src_cmd rust_src_note e o).
Proof.
  unfold install_rust_src. do 5 spec_step'.
  unfold run_result, attempt.
  destruct (decide (returncode o = 0)); simpl.
  - spec_step. split; [done|]. exists e, o. by finish_events.
  - spec_step. split; [done|]. exists e, o. by finish_events.
Qed.

Lemma install_target_spec self e target :
  spec (install_target self e target tt)
    (λ r evs, r = Ok tt ∧
              ∃ o, evs = attempt self (target_add_cmd target)
                           (target_note target) e o).
Proof.
  unfold install_target. do 3 spec_step'.
  unfold run_result, attempt.
  destruct (decide (returncode o = 0)); simpl.
  - spec_step. split; [done|]. exists o. by finish_events.
  - spec_step. split; [done|]. exists o. by finish_events.
Qed.

(** The events of the loop over the targets, one outcome per target. *)
Definition target_attempts (self : Builder) (e : gmap string string)
    (targets : list string) (os : list Outcome) : list Event :=
  concat (zip_with (λ t o, attempt self (target_add_cmd t) (target_note t) e o)
                   targets os).

Arguments target_attempts : simpl never.

Lemma install_rust_targets_spec self :
  spec (install_rust_targets self)
    (λ r evs, r = Ok tt ∧
              ∃ e os, length os = length install_targets ∧
                      evs = target_attempts self e install_targets os).
Proof.
  unfold install_rust_targets. do 3 spec_step'. eapply spec_conseq.
  { apply (spec_for_in
             (λ pre (_ : unit) evs, ∃ os, length os = length pre ∧
                                     evs = target_attempts self e pre os)
             (λ _ _, False)) with (done := []) (evs0 := []); [|by exists []].
    intros pre x post [] evs _ (os & Hlen & ->).
    eapply spec_conseq; [apply install_target_spec|].
    intros r evs2 (-> & o & ->). exists (os ++ [o]). split.
    - rewrite !length_app. simpl. lia.
    - unfold target_attempts. rewrite zip_with_app by done.
      rewrite concat_app. simpl. by rewrite app_nil_r. }
  intros [[]|ex] evs; simpl; [|done].
  intros (os & Hlen & ->). split; [done|]. by exists e, os.
Qed.

Lemma runs_attempt self c note e o :
  runs (attempt self c note e o)
  = [(call_of self c (Some (project_root self)) (Some e), o)].
Proof. unfold attempt. ev_norm. by case_decide. Qed.

Lemma writes_attempt self c note e o : writes (attempt self c note e o) = [].
Proof. unfold attempt. ev_norm. by case_decide. Qed.

Lemma runs_target_attempts self e targets os :
  runs (target_attempts self e targets os)
  = zip_with (λ t o, (call_of self (target_add_cmd t)
                        (Some (project_root self)) (Some e), o)) targets os.
Proof.
  unfold target_attempts. revert os.
  induction targets as [|t ts IH]; intros [|o os]; try done.
  cbn. rewrite runs_app, runs_attempt, IH. done.
Qed.

Lemma writes_target_attempts self e targets os :
  writes (target_attempts self e targets os) = [].
Proof.
  unfold target_attempts. revert os.
  induction targets as [|t ts IH]; intros [|o os]; try done.
  cbn. by rewrite writes_app, writes_attempt, IH.
Qed.

Definition nightly_note : string :=
  "Using nightly Rust with -Zbuild-std for tvOS targets (Tier 3)".

(** The events of a preparation whose directory part succeeded. *)
Definition install_events (self : Builder) (e1 e2 : gmap string string)
    (o : Outcome) (os : list Outcome) : list Event :=
  attempt self rust_src_cmd rust_src_note e1 o ++
  target_attempts self e2 install_targets os ++
  [Printed nightly_note].

Lemma silent_prepare_directories self : silent (prepare_directories self).
Proof. unfold prepare_directories. solve_silent. Qed.

(** A computation that raised before it ran any command. *)
Definition setup_failed {A} (r : Result A) (evs : list Event) : Prop :=
  evs = [] ∧ ∃ e, r = Raise e ∧ os_error e.

Lemma prepare_build_environment_spec self :
  spec (prepare_build_environment self)
    (λ r evs,
       setup_failed r evs ∨
       (r = Ok tt ∧ ∃ e1 e2 o os, length os = length install_targets ∧
                                  evs = install_events self e1 e2 o os)).
Proof.
  unfold prepare_build_environment. spec_step.
  apply spec_silent; [apply silent_prepare_directories|intros []|];
    [|intros e He; left; split; [done|by exists e]].
  cbn. spec_step. eapply spec_conseq; [apply install_rust_src_spec|].
  intros r evs1 (-> & e1 & o & ->). spec_step.
  eapply spec_conseq; [apply install_rust_targets_spec|].
  intros r evs2 (-> & e2 & os & Hlen & ->). spec_step.
  right. split; [done|]. exists e1, e2, o, os. split; [done|].
  unfold install_events. by rewrite ?app_nil_l.
Qed.

Definition is_rustup (c : Call) : Prop :=
  cmd c = rust_src_cmd ∨ ∃ target, cmd c = target_add_cmd target.

Lemma prepare_build_environment_runs self :
  spec (prepare_build_environment self)
    (λ r evs, writes evs = [] ∧ Forall (λ co, is_rustup co.1) (runs evs)).
Proof.
  eapply spec_conseq; [apply prepare_build_environment_spec|].
  intros r evs [(-> & _)|(_ & e1 & e2 & o & os & Hlen & ->)].
  - split; [done|]. constructor.
  - unfold install_events.
    rewrite !writes_app, !runs_app, writes_attempt, writes_target_attempts,
      runs_attempt, runs_target_attempts. split; [done|].
    rewrite runs_cons, runs_nil, app_nil_r. apply Forall_cons.
    split; [by left|]. apply Forall_forall. intros [c o'] Hin.
    apply elem_of_lookup_zip_with in Hin as (i & t & o'' & [= -> ->] & _ & _).
    right. by exists t.
Qed.

(** *** The builds *)

(** The compiler call of [build_for_target]. *)
Definition cargo_call (self : Builder) (platform rust_target : string)
    (platform_config : PlatformConfig) (e : gmap string string) : Call :=
  call_of self (cargo_cmd rust_target) (Some (idevice_ffi_dir self))
    (Some (set_deployment_target platform platform_config e)).

Lemma build_for_target_spec self platform rust_target arch :
  spec (build_for_target self platform rust_target arch)
    (λ r evs,
       writes evs = [] ∧
       (setup_failed r evs ∨
        ∃ platform_config e o,
          dict_get (platforms self) platform = Some platform_config ∧
          is_clean e ∧
          runs evs = [(cargo_call self platform rust_target platform_config e, o)] ∧
          (returncode o ≠ 0 → raised r) ∧
          (∀ p, r = Ok p → returncode o = 0 ∧
                           p = build_dir self // (platform +:+ "-" +:+ arch)))).
Proof.
  unfold build_for_target. spec_step. apply spec_getitem.
  2:{ intros _. split; [done|]. left. split; [done|]. by eexists. }
  intros cfg Hcfg. spec_step. spec_step; cbn.
  2:{ split; [done|]. left. split; [done|]. by eexists. }
  do 6 spec_step'. cbn.
  unfold run_result. destruct (decide (returncode o = 0)) as [Hz|Hnz];
    spec_go; ev_norm; (split; [done|]); right; exists cfg, e, o;
    unfold raised; (split_and!; [done..| |]);
    first [ by intros ? | by intros ? [= <-] | by eexists ].
Qed.

(** The combiner call of [create_fat_library]. *)
Definition fat_dir_of (self : Builder) (platform : string) : Path :=
  build_dir self // (platform +:+ "-fat").

Definition lipo_call (self : Builder) (platform : string)
    (build_paths : list Path) : Call :=
  call_of self
    (lipo_cmd (map (λ build_path, build_path // lib_name) build_paths)
              (fat_dir_of self platform // lib_name))
    (Some (project_root self)) None.

Lemma create_fat_library_single self platform build_path :
  create_fat_library self platform [build_path] = ret build_path.
Proof. reflexivity. Qed.

Lemma create_fat_library_spec self platform build_paths :
  length build_paths ≠ 1%nat →
  spec (create_fat_library self platform build_paths)
    (λ r evs,
       writes evs = [] ∧
       (setup_failed r evs ∨
        ∃ o, runs evs = [(lipo_call self platform build_paths, o)] ∧
             r = if decide (returncode o = 0)
                 then Ok (fat_dir_of self platform)
                 else Raise (CalledProcessError
                               (cmd (lipo_call self platform build_paths)) o))).
Proof.
  intros Hlen. unfold create_fat_library. rewrite decide_False by done.
  spec_step. spec_step; cbn.
  2:{ split; [done|]. left. split; [done|]. by eexists. }
  spec_step. apply spec_index.
  2:{ split; [done|]. left. split; [done|]. by eexists. }
  intros first_build _. spec_go;
    try (split; [done|]; left; split; [done|]; by eexists);
    unfold run_result; case_decide; spec_go; ev_norm;
    (split; [done|]); right; exists o; (split; [done|]);
    by (rewrite ?decide_True, ?decide_False by done).
Qed.

Definition rust_targets_of (platform_config : PlatformConfig) : list string :=
  match targets platform_config with
  | SingleTarget rust_target _ => [rust_target]
  | MultiTarget rust_targets _ => rust_targets
  end.

(** The commands of the build of one platform: its compiler calls and its
    combiner call. *)
Definition platform_call (self : Builder) (platform : string) (c : Call)
    : Prop :=
  (∃ platform_config rust_target e,
     dict_get (platforms self) platform = Some platform_config ∧
     rust_target ∈ rust_targets_of platform_config ∧ is_clean e ∧
     c = cargo_call self platform rust_target platform_config e) ∨
  (∃ build_paths, c = lipo_call self platform build_paths).

(** What holds of a build: nothing is written through [open], every
    command belongs to [K], and a command that fails ends the build. *)
Definition build_post {A} (K : Call → Prop) (r : Result A)
    (evs : list Event) : Prop :=
  writes evs = [] ∧ Forall (λ co, K co.1) (runs evs) ∧
  (Exists failed (runs evs) → raised r).

Lemma build_post_nil {A} (K : Call → Prop) (r : Result A) evs :
  runs evs = [] → writes evs = [] → build_post K r evs.
Proof.
  intros Hr Hw. split; [done|]. rewrite Hr. split; [constructor|].
  by intros ?%Exists_nil.
Qed.

Lemma build_for_target_post self platform rust_target arch platform_config :
  dict_get (platforms self) platform = Some platform_config →
  rust_target ∈ rust_targets_of platform_config →
  spec (build_for_target self platform rust_target arch)
    (build_post (platform_call self platform)).
Proof.
  intros Hcfg Ht. eapply spec_conseq; [apply build_for_target_spec|].
  intros r evs (Hw & [(-> & _)|(cfg & e & o & Hcfg' & He & Hr & Hfail & _)]);
    [by apply build_post_nil|].
  split; [done|]. rewrite Hr. split.
  - apply Forall_singleton. left. exists cfg, rust_target, e. simpl.
    by replace cfg with platform_config in * by congruence.
  - intros [Hf|?%Exists_nil]%Exists_cons; [|done]. by apply Hfail.
Qed.

Lemma create_fat_library_post self platform build_paths :
  spec (create_fat_library self platform build_paths)
    (build_post (platform_call self platform)).
Proof.
  destruct (decide (length build_paths = 1%nat)) as [Hlen|Hlen].
  - destruct build_paths as [|p [|]]; try done. apply spec_ret.
    by apply build_post_nil.
  - eapply spec_conseq; [by apply create_fat_library_spec|].
    intros r evs (Hw & [(-> & _)|(o & Hr & Hres)]);
      [by apply build_post_nil|].
    split; [done|]. rewrite Hr. split.
    + apply Forall_singleton. right. by eexists.
    + intros [Hf|?%Exists_nil]%Exists_cons; [|done].
      unfold failed in Hf. simpl in Hf. rewrite decide_False in Hres by done.
      by eexists.
Qed.

Lemma build_post_bind {A B} (K : Call → Prop) (m : M A) (f : A → M B) :
  spec m (build_post K) → (∀ a, spec (f a) (build_post K)) →
  spec (bind m f) (build_post K).
Proof.
  intros Hm Hf. apply spec_bind. eapply spec_conseq; [exact Hm|].
  intros [a|e] evs1 (Hw1 & HK1 & Hf1); simpl.
  - eapply spec_conseq; [apply Hf|].
    intros r evs2 (Hw2 & HK2 & Hf2). unfold build_post. ev_norm.
    rewrite Hw1, Hw2. split; [done|]. split; [by apply Forall_app|].
    intros [H1|H2]%Exists_app; [|by apply Hf2].
    destruct (Hf1 H1) as [? [=]].
  - split; [done|]. split; [done|]. intros _. by eexists.
Qed.

Lemma build_post_ret {A} (K : Call → Prop) (a : A) :
  spec (ret a) (build_post K).
Proof. apply spec_ret. by apply build_post_nil. Qed.

Lemma build_post_print (K : Call → Prop) line :
  spec (print line) (build_post K).
Proof. apply spec_print. by apply build_post_nil. Qed.

Lemma build_post_getitem {V} (K : Call → Prop) (d : list (string * V)) k :
  spec (getitem d k) (build_post K).
Proof. apply spec_getitem; intros; by apply build_post_nil. Qed.

Lemma build_post_index {X} (K : Call → Prop) (l : list X) i :
  spec (index l i) (build_post K).
Proof. apply spec_index; intros; by apply build_post_nil. Qed.

Lemma build_post_for_in {X S} (K : Call → Prop) (l : list X)
    (body : X → S → M S) (s0 : S) :
  (∀ x s, x ∈ l → spec (body x s) (build_post K)) →
  spec (for_in l body s0) (build_post K).
Proof.
  revert s0. induction l as [|x l IH]; intros s0 Hbody; simpl.
  - apply build_post_ret.
  - apply build_post_bind; [apply Hbody; left|].
    intros s. apply IH. intros y s' Hy. apply Hbody. by right.
Qed.

Lemma elem_of_enumerate {X} (l : list X) i x :
  (i, x) ∈ enumerate l → x ∈ l.
Proof. unfold enumerate. intros H. by apply elem_of_zip_r in H. Qed.

Lemma build_platform_post self platform :
  spec (build_platform self platform)
    (build_post (platform_call self platform)).
Proof.
  unfold build_platform. apply spec_bind, spec_getitem.
  2:{ intros _. by apply build_post_nil. }
  intros cfg Hcfg. simpl.
  destruct (targets cfg) as [rust_target arch|rust_targets archs] eqn:Ht.
  - apply (build_for_target_post _ _ _ _ cfg); [done|].
    unfold rust_targets_of. rewrite Ht. by left.
  - apply build_post_bind.
    + apply build_post_for_in. intros [i rust_target] build_paths Hin.
      apply build_post_bind; [apply build_post_index|]. intros arch.
      apply build_post_bind; [|intros; apply build_post_ret].
      apply (build_for_target_post _ _ _ _ cfg); [done|].
      unfold rust_targets_of. rewrite Ht. by eapply elem_of_enumerate.
    + intros build_paths. apply create_fat_library_post.
Qed.

Lemma build_one_post self platform platform_builds :
  spec (build_one self platform platform_builds)
    (build_post (platform_call self platform)).
Proof.
  unfold build_one. apply build_post_bind; [apply build_post_getitem|].
  intros cfg. apply build_post_bind; [apply build_post_print|]. intros _.
  apply build_post_bind; [apply build_platform_post|]. intros p.
  apply build_post_ret.
Qed.

(** *** The assembler *)

(** The introspection call of [get_lib_archs], and what the method
    returns given the outcome of the tool. *)
Definition lipo_info_call (self : Builder) (lib_path : Path) : Call :=
  call_of self [Str "lipo"; Str "-info"; PathArg lib_path]
    (Some (project_root self)) None.

Definition detected (o : Outcome) : list string :=
  if decide (returncode o = 0) then parse_archs o else [].

Lemma get_lib_archs_spec self lib_path :
  spec (get_lib_archs self lib_path)
    (λ r evs, writes evs = [] ∧
              ∃ o, runs evs = [(lipo_info_call self lib_path, o)] ∧
                   r = Ok (detected o)).
Proof.
  unfold get_lib_archs. do 3 spec_step'.
  unfold run_result, detected. case_decide; cbn; spec_go; ev_norm;
    (split; [done|]); exists o; by rewrite ?decide_True, ?decide_False by done.
Qed.

(** The platforms whose branch of [create_xcframework] asks [lipo], and
    those whose branch does not. *)
Definition lipo_platforms : list string :=
  ["appletvsimulator"; "iphonesimulator"; "macosx"; "maccatalyst"].

Definition fixed_platforms : list string := ["appletvos"; "iphoneos"].

(** The architectures [create_xcframework] records for a platform whose
    branch asks [lipo]. *)
Definition recorded_archs (platform_config : PlatformConfig) (o : Outcome)
    : list string :=
  Py.sorted (Py.or_list (detected o) (config_archs platform_config)).

Lemma detect_sorted_archs_spec self platform_config lib_path :
  spec (detect_sorted_archs self platform_config lib_path)
    (λ r evs, writes evs = [] ∧
              ∃ o, runs evs = [(lipo_info_call self lib_path, o)] ∧
                   r = Ok (recorded_archs platform_config o)).
Proof.
  unfold detect_sorted_archs. spec_step.
  eapply spec_conseq; [apply get_lib_archs_spec|].
  intros r evs (Hw & o & Hr & ->). spec_step. ev_norm.
  rewrite Hw, Hr. split; [done|]. by exists o.
Qed.

(** The library identifier as a function of the platform key and of the
    sorted architectures, read off the branches of [create_xcframework];
    [None] for a key that no branch names. *)
Definition library_identifier (platform : string)
    (sorted_archs : list string) : option string :=
  if decide (platform = "appletvos") then Some "tvos-arm64"
  else if decide (platform = "appletvsimulator") then
    Some (by_archs sorted_archs "tvos-arm64_x86_64-simulator"
            "tvos-arm64-simulator" "tvos-x86_64-simulator" "tvos-simulator")
  else if decide (platform = "iphoneos") then Some "ios-arm64"
  else if decide (platform = "iphonesimulator") then
    Some (by_archs sorted_archs "ios-arm64_x86_64-simulator"
            "ios-arm64-simulator" "ios-x86_64-simulator" "ios-simulator")
  else if decide (platform = "macosx") then
    Some (by_archs sorted_archs "macos-arm64_x86_64" "macos-arm64"
            "macos-x86_64" "macos")
  else if decide (platform = "maccatalyst") then
    Some (by_archs sorted_archs "ios-arm64_x86_64-maccatalyst"
            "ios-arm64-maccatalyst" "ios-x86_64-maccatalyst"
            "ios-maccatalyst")
  else None.

(** A slot found by asking [lipo] once. *)
Definition asked_lipo (self : Builder) (platform : string)
    (platform_config : PlatformConfig) (lib_path : Path)
    (r : Result (option Slot)) (evs : list Event) : Prop :=
  ∃ o s, runs evs = [(lipo_info_call self lib_path, o)] ∧
         r = Ok (Some s) ∧
         supported_architectures s = recorded_archs platform_config o ∧
         library_identifier platform (supported_architectures s)
         = Some (slot_identifier s).

(** A slot found without any command. *)
Definition fixed_slot (platform : string)
    (r : Result (option Slot)) (evs : list Event) : Prop :=
  ∃ s, evs = [] ∧ r = Ok (Some s) ∧
       supported_architectures s = ["arm64"] ∧
       library_identifier platform (supported_architectures s)
       = Some (slot_identifier s).

Definition classify_post (self : Builder) (platform : string)
    (platform_config : PlatformConfig) (lib_path : Path)
    (r : Result (option Slot)) (evs : list Event) : Prop :=
  writes evs = [] ∧
  if decide (platform ∈ lipo_platforms)
  then asked_lipo self platform platform_config lib_path r evs
  else if decide (platform ∈ fixed_platforms)
       then fixed_slot platform r evs
       else evs = [] ∧ r = Ok None.

Lemma classify_spec self platform platform_config lib_path :
  spec (classify self platform platform_config lib_path)
    (classify_post self platform platform_config lib_path).
Proof.
  assert (∀ both arm64 x86_64 other supported variant,
    platform ∈ lipo_platforms →
    (∀ archs, library_identifier platform archs
              = Some (by_archs archs both arm64 x86_64 other)) →
    spec (sorted_archs <- detect_sorted_archs self platform_config lib_path ;;
          ret (Some {| slot_identifier :=
                         by_archs sorted_archs both arm64 x86_64 other;
                       supported_platform := supported;
                       supported_architectures := sorted_archs;
                       platform_variant := variant |}))
      (classify_post self platform platform_config lib_path)) as Hlipo.
  { intros both arm64 x86_64 other supported variant Hin Hid. apply spec_bind.
    eapply spec_conseq; [apply detect_sorted_archs_spec|].
    intros r evs (Hw & o & Hr & ->). apply spec_ret. unfold classify_post.
    rewrite decide_True by done. ev_norm. split; [done|]. exists o.
    eexists. split; [done|]. split; [done|]. split; [done|]. apply Hid. }
  unfold classify.
  destruct (decide (platform = "appletvos")) as [->|H1].
  { apply spec_ret. unfold classify_post.
    rewrite decide_False, decide_True by solve_elem.
    split; [done|]. by eexists. }
  destruct (decide (platform = "appletvsimulator")) as [->|H2].
  { apply Hlipo; [solve_elem|done]. }
  destruct (decide (platform = "iphoneos")) as [->|H3].
  { apply spec_ret. unfold classify_post.
    rewrite decide_False, decide_True by solve_elem.
    split; [done|]. by eexists. }
  destruct (decide (platform = "iphonesimulator")) as [->|H4].
  { apply Hlipo; [solve_elem|done]. }
  destruct (decide (platform = "macosx")) as [->|H5].
  { apply Hlipo; [solve_elem|done]. }
  destruct (decide (platform = "maccatalyst")) as [->|H6].
  { apply Hlipo; [solve_elem|done]. }
  apply spec_ret. unfold classify_post. by rewrite !decide_False by solve_elem.
Qed.

Definition is_lipo_info (self : Builder) (c : Call) : Prop :=
  ∃ lib_path, c = lipo_info_call self lib_path.

Lemma classify_post_runs self platform platform_config lib_path r evs :
  classify_post self platform platform_config lib_path r evs →
  Forall (λ co, is_lipo_info self co.1) (runs evs) ∧ ¬ raised r.
Proof.
  intros (Hw & H). repeat case_decide.
  - destruct H as (o & s & -> & -> & _). split; [|by intros [? [=]]].
    apply Forall_singleton. by eexists.
  - destruct H as (s & -> & -> & _). split; [constructor|by intros [? [=]]].
  - destruct H as (-> & ->). split; [constructor|by intros [? [=]]].
Qed.

(** What the loop body does for one item: it leaves the list alone and
    emits nothing, or it appends the entry of a slot that [classify]
    found. *)
Definition add_platform_post (self : Builder) (platform : string)
    (build_path : Path) (libs : list LibraryEntry)
    (r : Result (list LibraryEntry)) (evs : list Event) : Prop :=
  writes evs = [] ∧ Forall (λ co, is_lipo_info self co.1) (runs evs) ∧
  ∀ libs', r = Ok libs' →
    (libs' = libs ∧ evs = []) ∨
    ∃ platform_config s,
      dict_get (platforms self) platform = Some platform_config ∧
      libs' = libs ++ [library_entry s] ∧
      classify_post self platform platform_config
        (build_path // lib_name) (Ok (Some s)) evs.

Lemma add_platform_spec self xcframework_path platform build_path libs :
  spec (add_platform self xcframework_path (platform, build_path) libs)
    (add_platform_post self platform build_path libs).
Proof.
  unfold add_platform, add_platform_post. spec_step. spec_step; cbn.
  2:{ apply spec_ret. split_and!; [done..|]. intros ? [= <-]. by left. }
  spec_step. apply spec_getitem; [|by intros; split_and!].
  intros cfg Hcfg. spec_step.
  eapply spec_conseq; [apply classify_spec|].
  intros r evs Hc.
  pose proof (classify_post_runs _ _ _ _ _ _ Hc) as [Hruns Hnr].
  destruct r as [[s|]|e]; [| |destruct Hnr; by eexists].
  - destruct Hc as [Hw Hc].
    spec_go; ev_norm; rewrite ?Hw; (split_and!; [done..|]); try done;
      intros ? [= <-]; right; exists cfg, s; split_and!; [done..|]; by split.
  - destruct Hc as [Hw Hc]. spec_go. ev_norm. split_and!; [done..|].
    intros ? [= <-]. left. split; [done|].
    repeat case_decide.
    + by destruct Hc as (? & ? & _ & [=] & _).
    + by destruct Hc as (? & _ & [=] & _).
    + by destruct Hc.
Qed.

(** The manifest is the one file written through [open]: complete when
    the computation returns; when it raises, not begun or abandoned
    part-way. *)
Definition manifest_or_nothing {A} (self : Builder) (r : Result A)
    (evs : list Event) : Prop :=
  let info := bundle_path self // "Info.plist" in
  match r with
  | Ok _ => writes evs = [info] ∧
            ∃ plist, Wrote info (PropertyList plist) ∈ evs ∧
                     plist_writable plist = true
  | Raise _ => writes evs = [] ∨
               (writes evs = [info] ∧ Wrote info Unfinished ∈ evs)
  end.

(** What the assembler emits: only introspection calls, and one write,
    that of [Info.plist]. *)
Definition assembler_post (self : Builder) (r : Result Path)
    (evs : list Event) : Prop :=
  Forall (λ co, is_lipo_info self co.1) (runs evs) ∧
  (∀ p, r = Ok p → p = bundle_path self) ∧
  manifest_or_nothing self r evs.

Lemma create_xcframework_spec self platform_builds :
  spec (create_xcframework self platform_builds) (assembler_post self).
Proof.
  unfold create_xcframework, reset_bundle.
  do 3 spec_step; [|by split_and!; [constructor| |left]].
  spec_step; [|by split_and!; [constructor| |left]]. do 3 spec_step.
  eapply spec_conseq.
  { apply (spec_for_in
             (λ _ _ evs, writes evs = [] ∧
                         Forall (λ co, is_lipo_info self co.1) (runs evs))
             (λ _ evs, writes evs = [] ∧
                       Forall (λ co, is_lipo_info self co.1) (runs evs)))
      with (done := []) (evs0 := []); [|by split; [|constructor]].
    intros pre [platform build_path] post libs evs _ (Hw & Hr).
    eapply spec_conseq; [apply add_platform_spec|].
    intros r evs2 (Hw2 & Hr2 & _). ev_norm. rewrite Hw, Hw2.
    destruct r; (split; [done|]); by apply Forall_app. }
  intros [libs|e] evs; cbn; ev_norm; intros (Hw & Hr).
  - spec_step. apply spec_dump_plist.
    + intros e _. unfold assembler_post, manifest_or_nothing. ev_norm.
      split_and!; [done..|]. left. by rewrite Hw.
    + intros Hbad e _. unfold assembler_post, manifest_or_nothing. ev_norm.
      split_and!; [done..|]. right. rewrite Hw. split; [done|].
      apply elem_of_cons. right. apply elem_of_app. right. by left.
    + intros Hgood. spec_go. unfold assembler_post, manifest_or_nothing. ev_norm.
      rewrite Hw. split; [done|]. split; [by intros ? [= <-]|].
      split; [done|]. eexists. split; [|exact Hgood].
      apply elem_of_cons. right. apply elem_of_app. right. by left.
  - unfold assembler_post, manifest_or_nothing. ev_norm. split_and!; [done..|]. left. by rewrite Hw.
Qed.

(** *** A failing tvOS build in a full run *)

(** The compiler invocation for "appletvos" exited non-zero. *)
Definition tv_build_failed (co : Call * Outcome) : Prop :=
  cmd co.1 = cargo_cmd "aarch64-apple-tvos" ∧ returncode co.2 ≠ 0.

(** A compiler invocation for one of the targets of "macosx". *)
Definition macosx_build (co : Call * Outcome) : Prop :=
  ∃ rust_target, rust_target ∈ ["aarch64-apple-darwin"; "x86_64-apple-darwin"] ∧
                 cmd co.1 = cargo_cmd rust_target.

Definition aborted_early {A} (r : Result A) (evs : list Event) : Prop :=
  Exists tv_build_failed (runs evs) →
  raised r ∧ writes evs = [] ∧ Forall (λ co, ¬ macosx_build co) (runs evs).

Definition quiet {A} (r : Result A) (evs : list Event) : Prop :=
  writes evs = [] ∧
  Forall (λ co, ¬ tv_build_failed co ∧ ¬ macosx_build co) (runs evs).

Definition no_tv_failure {A} (r : Result A) (evs : list Event) : Prop :=
  Forall (λ co, ¬ tv_build_failed co) (runs evs).

Lemma aborted_early_after_quiet {A B} (m : M A) (f : A → M B) :
  spec m quiet → (∀ a, spec (f a) aborted_early) →
  spec (bind m f) aborted_early.
Proof.
  intros Hm Hf. apply spec_bind. eapply spec_conseq; [exact Hm|].
  intros [a|e] evs1 (Hw1 & Hq); cbn.
  - eapply spec_conseq; [apply Hf|]. intros r evs2 H2.
    unfold aborted_early. rewrite runs_app, writes_app, Hw1.
    intros [H1|H]%Exists_app.
    + exfalso. apply Exists_exists in H1 as (co & Hin & Hco).
      rewrite Forall_forall in Hq. by destruct (Hq co Hin).
    + destruct (H2 H) as (Hr & Hw2 & Hm2). split_and!; [done..|].
      apply Forall_app. split; [|done].
      eapply Forall_impl; [exact Hq|]. by intros co [_ ?].
  - intros H1. exfalso. apply Exists_exists in H1 as (co & Hin & Hco).
    rewrite Forall_forall in Hq. by destruct (Hq co Hin).
Qed.

Lemma aborted_early_at_tv {A B} (K : Call → Prop) (m : M A) (f : A → M B) :
  (∀ c, K c → ∀ o, ¬ macosx_build (c, o)) →
  spec m (build_post K) → (∀ a, spec (f a) no_tv_failure) →
  spec (bind m f) aborted_early.
Proof.
  intros HK Hm Hf. apply spec_bind. eapply spec_conseq; [exact Hm|].
  intros [a|e] evs1 (Hw1 & Hall & Hfail); cbn.
  - eapply spec_conseq; [apply Hf|]. intros r evs2 H2.
    unfold aborted_early. rewrite runs_app.
    intros [H1|H]%Exists_app; exfalso.
    + destruct Hfail as [? [=]].
      eapply Exists_impl; [exact H1|]. by intros co [_ ?].
    + apply Exists_exists in H as (co & Hin & Hco).
      unfold no_tv_failure in H2. rewrite Forall_forall in H2.
      by apply (H2 co).
  - intros _. split_and!; [by eexists|done|].
    eapply Forall_impl; [exact Hall|]. intros [c o] Hc. by apply HK.
Qed.

Lemma no_tv_failure_bind {A B} (m : M A) (f : A → M B) :
  spec m no_tv_failure → (∀ a, spec (f a) no_tv_failure) →
  spec (bind m f) no_tv_failure.
Proof.
  intros Hm Hf. apply spec_bind. eapply spec_conseq; [exact Hm|].
  intros [a|e] evs1 H1; cbn; [|done].
  eapply spec_conseq; [apply Hf|]. intros r evs2 H2.
  unfold no_tv_failure. rewrite runs_app. by apply Forall_app.
Qed.

Lemma cargo_cmd_target rust_target :
  Tools.option_value "--target" (cargo_cmd rust_target) = Some (Str rust_target).
Proof. unfold cargo_cmd. by case_match. Qed.

Lemma cargo_cmd_inj t1 t2 : cargo_cmd t1 = cargo_cmd t2 → t1 = t2.
Proof.
  intros H. apply (f_equal (Tools.option_value "--target")) in H.
  rewrite !cargo_cmd_target in H. by injection H.
Qed.

Lemma cargo_cmd_not_lipo rust_target libs out :
  lipo_cmd libs out ≠ cargo_cmd rust_target.
Proof. unfold cargo_cmd, lipo_cmd. by case_match. Qed.

(** The compiler targets of a platform of the table. *)
Lemma platform_call_cmd (root : Path) platform c :
  platform_call (init root) platform c →
  (∃ platform_config rust_target,
     dict_get platform_table platform = Some platform_config ∧
     rust_target ∈ rust_targets_of platform_config ∧
     cmd c = cargo_cmd rust_target) ∨
  (∃ libs out, cmd c = lipo_cmd libs out).
Proof.
  intros [(cfg & t & e & Hcfg & Ht & _ & ->)|(bps & ->)].
  - left. by exists cfg, t.
  - right. by eexists _, _.
Qed.

(** The compiler targets of the table, by platform. *)
Definition platform_targets : list (string * string) :=
  [ ("iphoneos", "aarch64-apple-ios");
    ("iphonesimulator", "aarch64-apple-ios-sim");
    ("iphonesimulator", "x86_64-apple-ios");
    ("appletvos", "aarch64-apple-tvos");
    ("appletvsimulator", "aarch64-apple-tvos-sim");
    ("appletvsimulator", "x86_64-apple-tvos");
    ("macosx", "aarch64-apple-darwin");
    ("macosx", "x86_64-apple-darwin");
    ("maccatalyst", "aarch64-apple-ios-macabi");
    ("maccatalyst", "x86_64-apple-ios-macabi") ].

Lemma platform_targets_complete platform platform_config rust_target :
  dict_get platform_table platform = Some platform_config →
  rust_target ∈ rust_targets_of platform_config →
  (platform, rust_target) ∈ platform_targets.
Proof.
  unfold platform_table, platform_targets. cbn.
  repeat (case_decide; [subst platform; intros [= <-]; cbn;
                        intros Ht; solve_in Ht|]).
  done.
Qed.

(** A compiler target decides its platform. *)
Lemma platform_call_not_tv root platform c o :
  platform ≠ "appletvos" →
  platform_call (init root) platform c → ¬ tv_build_failed (c, o).
Proof.
  intros Hp [(cfg & t & Hcfg & Ht & Hc)|(libs & out & Hc)]%platform_call_cmd
         [Hcmd _]; cbn [fst] in Hcmd; rewrite Hc in Hcmd.
  - apply cargo_cmd_inj in Hcmd as ->.
    pose proof (platform_targets_complete _ _ _ Hcfg Ht) as Hin.
    unfold platform_targets in Hin.
    repeat (apply elem_of_cons in Hin as [?|Hin]; [by simplify_eq|]).
    by apply elem_of_nil in Hin.
  - by apply cargo_cmd_not_lipo in Hcmd.
Qed.

Lemma platform_call_not_macosx root platform c o :
  platform ≠ "macosx" →
  platform_call (init root) platform c → ¬ macosx_build (c, o).
Proof.
  intros Hp [(cfg & t & Hcfg & Ht & Hc)|(libs & out & Hc)]%platform_call_cmd
         (t' & Ht' & Hcmd); cbn [fst] in Hcmd; rewrite Hc in Hcmd.
  - apply cargo_cmd_inj in Hcmd as ->.
    pose proof (platform_targets_complete _ _ _ Hcfg Ht) as Hin.
    unfold platform_targets in Hin.
    repeat (apply elem_of_cons in Ht' as [->|Ht']);
      try (by apply elem_of_nil in Ht');
      repeat (apply elem_of_cons in Hin as [?|Hin]; [by simplify_eq|]);
      by apply elem_of_nil in Hin.
  - by apply cargo_cmd_not_lipo in Hcmd.
Qed.

Lemma build_one_quiet root platform platform_builds :
  platform ≠ "appletvos" → platform ≠ "macosx" →
  spec (build_one (init root) platform platform_builds) quiet.
Proof.
  intros H1 H2. eapply spec_conseq; [apply build_one_post|].
  intros r evs (Hw & Hall & _). split; [done|].
  eapply Forall_impl; [exact Hall|]. intros [c o] Hc. split.
  - by apply platform_call_not_tv with root platform.
  - by apply platform_call_not_macosx with root platform.
Qed.

Lemma build_one_no_tv_failure root platform platform_builds :
  platform ≠ "appletvos" →
  spec (build_one (init root) platform platform_builds) no_tv_failure.
Proof.
  intros H1. eapply spec_conseq; [apply build_one_post|].
  intros r evs (Hw & Hall & _).
  eapply Forall_impl; [exact Hall|]. intros [c o] Hc.
  by apply platform_call_not_tv with root platform.
Qed.

Lemma create_xcframework_no_tv_failure self platform_builds :
  spec (create_xcframework self platform_builds) no_tv_failure.
Proof.
  eapply spec_conseq; [apply create_xcframework_spec|].
  intros r evs (Hall & _).
  eapply Forall_impl; [exact Hall|]. intros [c o] Hl [Hcmd _].
  cbn in Hl. destruct Hl as [lib ->]. by vm_compute in Hcmd.
Qed.

Lemma build_all_platforms_aborted_early root :
  spec (build_all_platforms (init root)) aborted_early.
Proof.
  unfold build_all_platforms. cbn [init platforms platform_table fmap list_fmap fst].
  apply for_in_cons_bind, aborted_early_after_quiet;
    [by apply build_one_quiet|intros ?].
  apply for_in_cons_bind, aborted_early_after_quiet;
    [by apply build_one_quiet|intros ?].
  apply for_in_cons_bind.
  apply (aborted_early_at_tv (platform_call (init root) "appletvos"));
    [|apply build_one_post|intros ?].
  { intros c Hc o. by apply platform_call_not_macosx with root "appletvos". }
  apply for_in_cons_bind, no_tv_failure_bind;
    [by apply build_one_no_tv_failure|intros ?].
  apply for_in_cons_bind, no_tv_failure_bind;
    [by apply build_one_no_tv_failure|intros ?].
  apply for_in_cons_bind, no_tv_failure_bind;
    [by apply build_one_no_tv_failure|intros ?].
  cbn [for_in]. apply no_tv_failure_bind; [by apply spec_ret; constructor|].
  intros ?. apply create_xcframework_no_tv_failure.
Qed.

Lemma spec_run sdk_arg Q :
  (∀ root, spec (run_body root sdk_arg) Q) → spec (run sdk_arg) Q.
Proof. intros H w. apply (H (script_dir w) w). Qed.

Lemma main_emitted sdk_arg w Q :
  spec (run sdk_arg) Q →
  ∃ r evs, Q r evs ∧
    match r with
    | Ok _ => (main sdk_arg w).1 = 0 ∧ emitted sdk_arg w = evs
    | Raise e => (main sdk_arg w).1 = 1 ∧
                 emitted sdk_arg w = evs ++ [failure_line e]
    end.
Proof.
  intros H. destruct (H w) as (evs & Ht & HQ). unfold emitted, main.
  destruct (run sdk_arg w) as [[[]|e] w']; cbn in *;
    eexists _, evs; (split; [exact HQ|]); cbn; split; try done.
  - by rewrite Ht, drop_app_length.
  - by rewrite Ht, <- (assoc_L (++)), drop_app_length.
Qed.

Lemma aborted_early_ret_tt {A} (m : M A) :
  spec m aborted_early → spec (m ;; ret tt) aborted_early.
Proof.
  intros H. apply spec_bind. eapply spec_conseq; [exact H|].
  intros [a|e] evs Hq; cbn.
  - apply spec_ret. rewrite app_nil_r.
    intros Hex. destruct (Hq Hex) as ([? [=]] & _).
  - intros Hex. destruct (Hq Hex) as (_ & ? & ?).
    split_and!; [by eexists|done..].
Qed.

Lemma run_all_aborted_early : spec (run None) aborted_early.
Proof.
  apply spec_run. intros root. unfold run_body. cbn [truthy].
  apply aborted_early_after_quiet.
  { apply spec_print. unfold quiet. ev_norm. split; [done|constructor]. }
  intros _. apply aborted_early_after_quiet.
  { eapply spec_conseq; [apply prepare_build_environment_runs|].
    intros r evs (Hw & Hall). split; [done|].
    eapply Forall_impl; [exact Hall|]. intros [c o] Hc. cbn in Hc. split.
    - intros [Hcmd _]. cbn [fst] in Hcmd.
      destruct Hc as [Hc|[t Hc]]; rewrite Hc in Hcmd; by vm_compute in Hcmd.
    - intros (t & Ht & Hcmd). cbn [fst] in Hcmd.
      destruct Hc as [Hc|[t' Hc]]; rewrite Hc in Hcmd;
        unfold cargo_cmd in Hcmd; by case_match. }
  intros _. apply aborted_early_ret_tt, build_all_platforms_aborted_early.
Qed.

(** *** The commands of a whole run *)

(** Every command among the events satisfies [P]. *)
Definition all_runs {A} (P : Call * Outcome → Prop) (r : Result A)
    (evs : list Event) : Prop :=
  Forall P (runs evs).

Lemma all_runs_bind {A B} P (m : M A) (f : A → M B) :
  spec m (all_runs P) → (∀ a, spec (f a) (all_runs P)) →
  spec (bind m f) (all_runs P).
Proof.
  intros Hm Hf. apply spec_bind. eapply spec_conseq; [exact Hm|].
  intros [a|e] evs1 H1; cbn; [|done].
  eapply spec_conseq; [apply Hf|]. intros r evs2 H2.
  unfold all_runs. rewrite runs_app. by apply Forall_app.
Qed.

Lemma all_runs_for_in {X S} P (l : list X) (body : X → S → M S) (s0 : S) :
  (∀ x s, spec (body x s) (all_runs P)) →
  spec (for_in l body s0) (all_runs P).
Proof.
  intros Hbody. revert s0. induction l as [|x l IH]; intros s0; cbn.
  - apply spec_ret. constructor.
  - by apply all_runs_bind.
Qed.

Lemma all_runs_build_post {A} (K : Call → Prop) P (m : M A) :
  (∀ c o, K c → P (c, o)) → spec m (build_post K) → spec m (all_runs P).
Proof.
  intros HK Hm. eapply spec_conseq; [exact Hm|]. intros r evs (_ & Hall & _).
  eapply Forall_impl; [exact Hall|]. intros [c o]. apply HK.
Qed.

Lemma all_runs_nil {A} P (r : Result A) : all_runs P r [].
Proof. constructor. Qed.

Lemma all_runs_ret {A} P (a : A) : spec (ret a) (all_runs P).
Proof. apply spec_ret. constructor. Qed.

Lemma all_runs_raise {A} P e : spec (raise (A := A) e) (all_runs P).
Proof. apply spec_raise. constructor. Qed.

Lemma all_runs_print P line : spec (print line) (all_runs P).
Proof. apply spec_print. constructor. Qed.

Lemma all_runs_getitem {V} P (d : list (string * V)) k :
  spec (getitem d k) (all_runs P).
Proof. apply spec_getitem; intros; constructor. Qed.

(** The first word of a command line. *)
Definition program (c : Call) : string :=
  match cmd c with
  | Str s :: _ => s
  | _ => EmptyString
  end.

(** The tools the script runs. *)
Definition pipeline_tool (co : Call * Outcome) : Prop :=
  program co.1 ∈ ["rustup"; "cargo"; "lipo"].

Lemma platform_call_tool self platform c o :
  platform_call self platform c → pipeline_tool (c, o).
Proof.
  intros [(cfg & t & e & _ & _ & _ & ->)|(bps & ->)];
    unfold pipeline_tool, program, cargo_call, lipo_call, call_of, cargo_cmd;
    cbn.
  - destruct (Py.contains _ _); solve_elem.
  - solve_elem.
Qed.

Lemma build_platform_tools self platform :
  spec (build_platform self platform) (all_runs pipeline_tool).
Proof.
  eapply all_runs_build_post; [|apply build_platform_post].
  intros c o. apply platform_call_tool.
Qed.

Lemma create_xcframework_tools self platform_builds :
  spec (create_xcframework self platform_builds) (all_runs pipeline_tool).
Proof.
  eapply spec_conseq; [apply create_xcframework_spec|].
  intros r evs (Hall & _). eapply Forall_impl; [exact Hall|].
  intros [c o] [lib Hc]. cbn in Hc. subst c.
  unfold pipeline_tool, program, lipo_info_call, call_of. cbn. solve_elem.
Qed.

Lemma build_all_platforms_tools self :
  spec (build_all_platforms self) (all_runs pipeline_tool).
Proof.
  unfold build_all_platforms. apply all_runs_bind.
  - apply all_runs_for_in. intros platform pbs. unfold build_one.
    apply all_runs_bind; [apply all_runs_getitem|].
    intros cfg. apply all_runs_bind; [apply all_runs_print|].
    intros _. apply all_runs_bind; [apply build_platform_tools|].
    intros p. apply all_runs_ret.
  - intros pbs. apply create_xcframework_tools.
Qed.

Lemma build_active_platform_tools self sdk_name :
  spec (build_active_platform self sdk_name) (all_runs pipeline_tool).
Proof.
  unfold build_active_platform. case_match; [|apply all_runs_raise].
  apply all_runs_bind; [apply all_runs_getitem|].
  intros cfg. apply all_runs_bind; [apply all_runs_print|].
  intros _. apply all_runs_bind; [apply build_platform_tools|].
  intros p. apply create_xcframework_tools.
Qed.

Lemma run_tools sdk_arg : spec (run sdk_arg) (all_runs pipeline_tool).
Proof.
  apply spec_run. intros root. unfold run_body.
  apply all_runs_bind; [apply all_runs_print|]. intros _.
  apply all_runs_bind.
  { eapply spec_conseq; [apply prepare_build_environment_runs|].
    intros r evs (_ & Hall). eapply Forall_impl; [exact Hall|].
    intros [c o] Hc. cbn in Hc. unfold pipeline_tool, program. cbn.
    destruct Hc as [->|[t ->]]; cbn; solve_elem. }
  intros _. case_match.
  - apply all_runs_bind; [apply build_active_platform_tools|].
    intros p. apply all_runs_ret.
  - apply all_runs_bind; [apply build_all_platforms_tools|].
    intros p. apply all_runs_ret.
Qed.

(** ** Reasoning about the file system *)

(** [hoare P m Q]: from a world where [P] holds, [m] ends with a result
    and in a world that satisfy [Q]. *)
Definition hoare {A} (P : World → Prop) (m : M A)
    (Q : Result A → World → Prop) : Prop :=
  ∀ w, P w → Q (m w).1 (m w).2.

Lemma hoare_conseq {A} (P P' : World → Prop) (m : M A)
    (Q Q' : Result A → World → Prop) :
  hoare P m Q → (∀ w, P' w → P w) → (∀ r w, Q r w → Q' r w) →
  hoare P' m Q'.
Proof. intros H HP HQ w Hw. apply HQ, H, HP, Hw. Qed.

Lemma hoare_ret {A} (P : World → Prop) (a : A) (Q : Result A → World → Prop) :
  (∀ w, P w → Q (Ok a) w) → hoare P (ret a) Q.
Proof. intros H w Hw. by apply H. Qed.

Lemma hoare_raise {A} (P : World → Prop) e (Q : Result A → World → Prop) :
  (∀ w, P w → Q (Raise e) w) → hoare P (raise e) Q.
Proof. intros H w Hw. by apply H. Qed.

Lemma hoare_bind {A B} (P : World → Prop) (m : M A) (f : A → M B)
    (R : Result A → World → Prop) (Q : Result B → World → Prop) :
  hoare P m R →
  (∀ a, hoare (R (Ok a)) (f a) Q) →
  (∀ e w, R (Raise e) w → Q (Raise e) w) →
  hoare P (bind m f) Q.
Proof.
  intros Hm Hf He w Hw. specialize (Hm w Hw). unfold bind.
  destruct (m w) as [[a|e] w1]; cbn in *.
  - by apply Hf.
  - by apply He.
Qed.

Lemma hoare_try_except {A} (P : World → Prop) (m : M A) catches h
    (R Q : Result A → World → Prop) :
  hoare P m R →
  (∀ a w, R (Ok a) w → Q (Ok a) w) →
  (∀ e, catches e = true → hoare (R (Raise e)) (h e) Q) →
  (∀ e w, catches e = false → R (Raise e) w → Q (Raise e) w) →
  hoare P (try_except m catches h) Q.
Proof.
  intros Hm Hok Hc Hn w Hw. specialize (Hm w Hw). unfold try_except.
  destruct (m w) as [[a|e] w1]; cbn in *.
  - by apply Hok.
  - destruct (catches e) eqn:Hce.
    + by apply Hc.
    + by apply Hn.
Qed.

Lemma hoare_try_finally {A} (P : World → Prop) (m : M A) (fin : M unit)
    (R Q : Result A → World → Prop) :
  hoare P m R →
  (∀ r, hoare (R r) fin (λ rf w, match rf with
                                 | Ok _ => Q r w
                                 | Raise e => Q (Raise e) w
                                 end)) →
  hoare P (try_finally m fin) Q.
Proof.
  intros Hm Hfin w Hw. specialize (Hm w Hw). unfold try_finally.
  destruct (m w) as [r w1]; cbn in *. specialize (Hfin r w1 Hm).
  by destruct (fin w1) as [[[]|e] w2].
Qed.

Lemma hoare_for_in {X S} (I : S → World → Prop)
    (E : Exn → World → Prop) (l : list X) (body : X → S → M S) (s0 : S) :
  (∀ x s, x ∈ l →
     hoare (I s) (body x s) (λ r w, match r with
                                    | Ok s' => I s' w
                                    | Raise e => E e w
                                    end)) →
  hoare (I s0) (for_in l body s0) (λ r w, match r with
                                          | Ok s => I s w
                                          | Raise e => E e w
                                          end).
Proof.
  revert s0. induction l as [|x l IH]; intros s0 Hbody; cbn.
  - by apply hoare_ret.
  - eapply hoare_bind.
    + apply Hbody. by left.
    + intros s. apply IH. intros y s' Hy. apply Hbody. by right.
    + done.
Qed.

(** The primitives, by what they do to the disk and to the trace. *)
Definition evolves (w w' : World) (d : FS) (evs : list Event) : Prop :=
  disk w' = d ∧ trace w' = trace w ++ evs.

Lemma hoare_print (P : World → Prop) line (Q : Result unit → World → Prop) :
  (∀ w w', P w → evolves w w' (disk w) [Printed line] → Q (Ok tt) w') →
  hoare P (print line) Q.
Proof. intros H w Hw. by apply (H w). Qed.

Lemma hoare_path_exists (P : World → Prop) p (Q : Result bool → World → Prop) :
  (∀ w, P w → Q (Ok (Fs.exists_ (disk w) p)) w) →
  hoare P (path_exists p) Q.
Proof. intros H w Hw. by apply H. Qed.

Lemma run_command_eq self c cw e w :
  let w1 := log (Printed ("Running: " +:+ Py.join " " (map word_str c))) w in
  let call := call_of self c cw e in
  let o := tools w1 (trace w1) call in
  let w2 := log (Ran call o) (set_disk (Tools.effect call o (disk w1)) w1) in
  run_command self c cw e w =
  if decide (returncode o = 0) then (Ok o, w2)
  else (Raise (CalledProcessError c o),
        log (Printed ("stderr: " +:+ stderr o))
          (log (Printed ("stdout: " +:+ stdout o))
             (log (Printed ("Command failed: " +:+
                            exn_str (CalledProcessError c o))) w2))).
Proof.
  cbn. unfold run_command, bind, print, subprocess_run, call_of. cbn.
  by case_decide.
Qed.

Lemma hoare_run_command (P : World → Prop) self c cw e
    (Q : Result Outcome → World → Prop) :
  (∀ w w' o, P w →
     evolves w w' (Tools.effect (call_of self c cw e) o (disk w))
       (run_events self c cw e o) →
     Q (run_result c o) w') →
  hoare P (run_command self c cw e) Q.
Proof.
  intros H w Hw. rewrite run_command_eq. cbn zeta.
  set (w1 := log _ w). set (o := tools w1 (trace w1) _).
  specialize (H w). unfold run_result, run_events, failure_report in H.
  destruct (decide (returncode o = 0)) as [Hz|Hnz]; cbn [fst snd].
  - match goal with |- Q _ ?w2 => specialize (H w2 o Hw) end.
    rewrite !decide_True in H by done. apply H. split; [done|]. cbn.
    by rewrite <- !(assoc_L (++)).
  - match goal with |- Q _ ?w2 => specialize (H w2 o Hw) end.
    rewrite !decide_False in H by done. apply H. split; [done|]. cbn.
    by rewrite <- !(assoc_L (++)).
Qed.

Lemma hoare_remove_if_exists (P : World → Prop) p
    (Q : Result unit → World → Prop) :
  (∀ w, P w → disk w !! p = None → Q (Ok tt) w) →
  (∀ w w', P w → disk w !! p = Some Dir →
     evolves w w' (Fs.remove_tree p (disk w)) [] → Q (Ok tt) w') →
  (∀ e w, P w → Q (Raise e) w) →
  hoare P (remove_if_exists p) Q.
Proof.
  intros Hnone Hdir Hraise w Hw.
  unfold remove_if_exists, bind, path_exists, Fs.exists_, rmtree.
  destruct (disk w !! p) as [[|]|] eqn:Hp; cbn; rewrite ?Hp; cbn.
  - by apply Hraise.
  - apply (Hdir w); [done..|]. split; [done|]. cbn. by rewrite app_nil_r.
  - by apply Hnone.
Qed.

Lemma hoare_mkdir (P : World → Prop) p (Q : Result unit → World → Prop) :
  (∀ w w', P w → disk w !! p = None → disk w !! parent p = Some Dir →
     evolves w w' (<[p := Dir]> (disk w)) [] → Q (Ok tt) w') →
  (∀ e w, P w → Q (Raise e) w) →
  hoare P (mkdir p false false) Q.
Proof.
  intros Hok Hraise w Hw. unfold mkdir.
  destruct (disk w !! p) as [[|]|] eqn:Hp; cbn; [by apply Hraise..|].
  destruct (disk w !! parent p) as [[|]|] eqn:Hpp; cbn; [by apply Hraise| |by apply Hraise].
  apply (Hok w); [done..|]. split; [done|]. cbn. by rewrite app_nil_r.
Qed.

Lemma hoare_glob_suffix (P : World → Prop) d suffix
    (Q : Result (list Path) → World → Prop) :
  (∀ w, P w →
     Q (Ok (filter (λ k, Py.endswith suffix (name k) = true)
                   (Fs.children d (disk w)))) w) →
  hoare P (glob_suffix d suffix) Q.
Proof. intros H w Hw. by apply H. Qed.

(** *** Facts about paths and the disk *)

Lemma parent_joinpath (p : Path) c : parent (p // c) = p.
Proof. unfold parent, joinpath. apply removelast_last. Qed.

Lemma name_joinpath (p : Path) c : name (p // c) = c.
Proof. unfold name, joinpath. apply last_last. Qed.

Lemma joinpath_parent_name (p : Path) : p ≠ [] → parent p // name p = p.
Proof.
  intros Hp. unfold parent, joinpath, name. symmetry.
  by apply app_removelast_last.
Qed.

Lemma lookup_remove_tree (p : Path) (fs : FS) (q : Path) :
  Fs.remove_tree p fs !! q = if decide (p `prefix_of` q) then None else fs !! q.
Proof.
  unfold Fs.remove_tree. rewrite map_lookup_filter.
  destruct (fs !! q) as [n|] eqn:Hq; cbn; [|by case_decide].
  case_guard; by case_decide.
Qed.

(** In a real file system every entry lies in a directory. *)
Definition tree_shaped (fs : FS) : Prop :=
  map_Forall (λ p _, p = [] ∨ fs !! parent p = Some Dir) fs.

Lemma tree_shaped_below (fs : FS) (p q : Path) :
  tree_shaped fs → fs !! p = None → p `prefix_of` q → fs !! q = None.
Proof.
  intros Hts Hp [k ->]. induction k as [|c k IH] using rev_ind.
  - by rewrite app_nil_r.
  - destruct (fs !! (p ++ k ++ [c])) as [n|] eqn:Hq; [|done].
    destruct (Hts _ _ Hq) as [Hnil|Hpar].
    + by destruct p, k.
    + rewrite (assoc_L (++)) in Hpar. fold (joinpath (p ++ k) c) in Hpar.
      rewrite parent_joinpath in Hpar. congruence.
Qed.

Lemma prefix_of_joinpath_sibling (p : Path) c1 (q : Path) :
  q ≠ [] → parent q = p → (p // c1) `prefix_of` q → q = p // c1.
Proof.
  intros Hq Hpar [k Hk]. rewrite <- (joinpath_parent_name q Hq), Hpar in Hk.
  unfold joinpath in Hk. destruct k as [|c k] using rev_ind.
  - by rewrite app_nil_r in Hk; rewrite <- (joinpath_parent_name q Hq), Hpar.
  - clear IHk. rewrite !(assoc_L (++)) in Hk. apply app_inj_tail in Hk as [Hk _].
    apply (f_equal length) in Hk. rewrite !length_app in Hk. cbn in Hk. lia.
Qed.

(** *** The archiver *)

Lemma ar_extract_snoc (dir : Path) (ms : list (string * Payload))
    (m : string * Payload) (fs : FS) :
  Tools.ar_extract dir (ms ++ [m]) fs
  = <[dir // m.1 := File (Plain m.2)]> (Tools.ar_extract dir ms fs).
Proof. unfold Tools.ar_extract. by rewrite foldl_snoc. Qed.

Lemma lookup_ar_extract (dir : Path) (ms : list (string * Payload))
    (fs : FS) (q : Path) (n : Node) :
  Tools.ar_extract dir ms fs !! q = Some n →
  fs !! q = Some n ∨ ∃ m, m ∈ ms ∧ q = dir // m.1 ∧ n = File (Plain m.2).
Proof.
  induction ms as [|m ms IH] using rev_ind; [by left|].
  rewrite ar_extract_snoc. destruct (decide (dir // m.1 = q)) as [<-|Hne].
  - rewrite lookup_insert_eq. intros [= <-]. right. exists m.
    split; [|done]. apply elem_of_app. right. by left.
  - rewrite lookup_insert_ne by done. intros [?|(m' & Hin & ? & ?)]%IH; [by left|].
    right. exists m'. split; [|done]. apply elem_of_app. by left.
Qed.

Lemma lookup_ar_extract_ne (dir : Path) (ms : list (string * Payload))
    (fs : FS) (q : Path) :
  ¬ dir `prefix_of` q ∨ q = dir → Tools.ar_extract dir ms fs !! q = fs !! q.
Proof.
  intros Hq. induction ms as [|m ms IH] using rev_ind; [done|].
  rewrite ar_extract_snoc, lookup_insert_ne; [done|].
  intros <-. destruct Hq as [Hq|Hq].
  - apply Hq. by exists [m.1].
  - unfold joinpath in Hq. apply (f_equal length) in Hq.
    rewrite length_app in Hq. cbn in Hq. lia.
Qed.

Lemma ar_replace_names (m : string * Payload) (ms : list (string * Payload)) :
  m.1 ∈ ms.*1 → (Tools.ar_replace m ms).*1 = ms.*1.
Proof.
  induction ms as [|m' ms IH]; cbn; [by intros ?%elem_of_nil|].
  intros Hin. case_decide as Heq; cbn; [by rewrite Heq|].
  f_equal. apply IH. apply elem_of_cons in Hin as [?|?]; [congruence|done].
Qed.

Lemma elem_of_ar_replace (m : string * Payload)
    (ms : list (string * Payload)) (x : string * Payload) :
  x ∈ Tools.ar_replace m ms → x = m ∨ x ∈ ms.
Proof.
  induction ms as [|m' ms IH]; cbn.
  - intros ?%list_elem_of_singleton. by left.
  - case_decide.
    + intros [->|?]%elem_of_cons; [by left|]. right. by right.
    + intros [->|[?|?]%IH]%elem_of_cons; [right; by left|by left|].
      right. by right.
Qed.

Lemma ar_insert_names (new ms : list (string * Payload)) :
  Forall (λ m, m.1 ∈ ms.*1) new →
  (foldl (λ ms m, Tools.ar_replace m ms) ms new).*1 = ms.*1.
Proof.
  revert ms. induction new as [|m new IH]; intros ms Hall; cbn; [done|].
  apply Forall_cons in Hall as [Hm Hall].
  rewrite IH; [by apply ar_replace_names|].
  by rewrite ar_replace_names.
Qed.

Lemma elem_of_ar_insert (new ms : list (string * Payload))
    (x : string * Payload) :
  x ∈ foldl (λ ms m, Tools.ar_replace m ms) ms new → x ∈ new ∨ x ∈ ms.
Proof.
  revert ms. induction new as [|m new IH]; intros ms; cbn; [by right|].
  intros [?|[->|?]%elem_of_ar_replace]%IH.
  - left. by right.
  - left. by left.
  - by right.
Qed.

Lemma elem_of_members_of (objs : list Path) (fs : FS) (n : string)
    (pl : Payload) :
  (n, pl) ∈ Tools.members_of (map PathArg objs) fs →
  ∃ q, q ∈ objs ∧ n = name q ∧ fs !! q = Some (File (Plain pl)).
Proof.
  induction objs as [|q objs IH]; cbn; [by intros ?%elem_of_nil|].
  destruct (fs !! q) as [[[pl'| | |]|]|] eqn:Hq;
    try (intros (q' & ? & ?)%IH; exists q'; split; [by right|done]).
  intros [[= -> ->]|(q' & ? & ?)%IH]%elem_of_cons.
  - exists q. split; [by left|done].
  - exists q'. split; [by right|done].
Qed.

Lemma elem_of_children (d : Path) (fs : FS) (q : Path) :
  q ∈ Fs.children d fs ↔ parent q = d ∧ q ≠ [] ∧ is_Some (fs !! q).
Proof.
  unfold Fs.children. rewrite list_elem_of_filter, list_elem_of_fmap. split.
  - intros ([? ?] & [q' n] & -> & Hin%elem_of_map_to_list). cbn. eauto.
  - intros (? & ? & [n Hn]). split; [done|]. exists (q, n).
    split; [done|]. by apply elem_of_map_to_list.
Qed.

(** *** The Metadata Fixer *)

Definition temp_objects (lib_path : Path) : Path :=
  parent lib_path // "temp_objects".

Definition tvos_version : BuildVersion :=
  {| bv_platform := "3"; bv_minos := "12.0"; bv_sdk := "12.0" |}.

(** A payload after a successful [vtool -set-build-version 3 12.0 12.0]. *)
Definition retag (pl : Payload) : Payload :=
  match pl with
  | Object _ code => Object tvos_version code
  | Raw bytes => Raw bytes
  end.

Definition vtool_cmd (obj_file : Path) : list Word :=
  [Str "vtool"; Str "-set-build-version"; Str "3"; Str "12.0"; Str "12.0";
   Str "-replace"; PathArg obj_file].

(** Among the events, a rewrite of the member [n] that succeeded. *)
Definition rewritten (lib_path : Path) (evs : list Event) (n : string) : Prop :=
  ∃ c o, (c, o) ∈ runs evs ∧ cmd c = vtool_cmd (temp_objects lib_path // n) ∧
         returncode o = 0.

(** A member of the new archive: it has the name and the payload of a
    member [(n, pl)] of the old one, the payload retagged only if a
    rewrite of [n] succeeded. *)
Definition member_ok (lib_path : Path) (ms : list (string * Payload))
    (evs : list Event) (m' : string * Payload) : Prop :=
  ∃ pl, (m'.1, pl) ∈ ms ∧
        (m'.2 = pl ∨ (m'.2 = retag pl ∧ rewritten lib_path evs m'.1)).

Lemma retag_retag pl : retag (retag pl) = retag pl.
Proof. by destruct pl. Qed.

Lemma rewritten_mono lib_path evs evs' n :
  rewritten lib_path evs n → rewritten lib_path (evs ++ evs') n.
Proof.
  intros (c & o & Hin & ?). exists c, o. split; [|done].
  rewrite runs_app. apply elem_of_app. by left.
Qed.

Lemma member_ok_mono lib_path ms evs evs' m' :
  member_ok lib_path ms evs m' → member_ok lib_path ms (evs ++ evs') m'.
Proof.
  intros (pl & Hin & [?|[? ?]]); exists pl; (split; [done|]); [by left|].
  right. split; [done|]. by apply rewritten_mono.
Qed.

Lemma member_ok_old lib_path ms evs m : m ∈ ms → member_ok lib_path ms evs m.
Proof. intros Hin. exists m.2. split; [by destruct m|by left]. Qed.

Lemma temp_objects_above (lib_path : Path) :
  temp_objects lib_path `prefix_of` lib_path → lib_path = temp_objects lib_path.
Proof.
  intros Hpre. destruct (decide (lib_path = [])) as [->|Hne].
  - destruct Hpre as [k Hk]. by destruct k.
  - by apply prefix_of_joinpath_sibling.
Qed.

Lemma child_of_temp (lib_path q : Path) :
  q ≠ [] → parent q = temp_objects lib_path →
  q = temp_objects lib_path // name q ∧
  temp_objects lib_path `prefix_of` q ∧ q ≠ temp_objects lib_path.
Proof.
  intros Hq Hpar. pose proof (joinpath_parent_name q Hq) as Heq.
  rewrite Hpar in Heq. split; [done|]. rewrite <- Heq. split.
  - by exists [name q].
  - unfold joinpath. intros H. apply (f_equal length) in H.
    rewrite length_app in H. cbn in H. lia.
Qed.

Lemma effect_ar_x (self : Builder) (lib_path dir : Path) (o : Outcome)
    (fs : FS) (ms : list (string * Payload)) :
  returncode o = 0 → fs !! lib_path = Some (File (Archive ms)) →
  Tools.effect (call_of self [Str "ar"; Str "x"; PathArg lib_path] (Some dir) None) o fs
  = Tools.ar_extract dir ms fs.
Proof.
  intros Hz Hlib. unfold Tools.effect, call_of. rewrite decide_True by done.
  cbn. by rewrite Hlib.
Qed.

Lemma effect_ar_rcs (self : Builder) (lib_path dir : Path)
    (objs : list Path) (o : Outcome) (fs : FS) :
  returncode o = 0 →
  Tools.effect (call_of self ([Str "ar"; Str "rcs"; PathArg lib_path] ++
                              map PathArg objs) (Some dir) None) o fs
  = Tools.ar_rcs lib_path (map PathArg objs) fs.
Proof.
  intros Hz. unfold Tools.effect, call_of. by rewrite decide_True by done.
Qed.

Lemma effect_vtool (self : Builder) (obj dir : Path) (o : Outcome) (fs : FS) :
  returncode o = 0 →
  Tools.effect (call_of self (vtool_cmd obj) (Some dir) None) o fs
  = Tools.vtool_set "3" "12.0" "12.0" obj fs.
Proof.
  intros Hz. unfold Tools.effect, call_of. by rewrite decide_True by done.
Qed.

Lemma effect_failed (c : Call) (o : Outcome) (fs : FS) :
  returncode o ≠ 0 → Tools.effect c o fs = fs.
Proof. intros Hz. unfold Tools.effect. by rewrite decide_False by done. Qed.

Lemma lookup_ne (fs : FS) (p q : Path) : fs !! p ≠ fs !! q → p ≠ q.
Proof. by intros H ->. Qed.

Section Fixer.
Variables (self : Builder) (lib_path : Path) (platform : string).
Variables (ms : list (string * Payload)) (t0 : list Event).

Let temp := temp_objects lib_path.

(** The archive has not been touched. *)
Definition untouched (w : World) : Prop :=
  ∃ evs, trace w = t0 ++ evs ∧
         disk w !! lib_path = Some (File (Archive ms)).

(** The scratch directory is empty. *)
Definition emptied (w : World) : Prop :=
  untouched w ∧ temp ≠ lib_path ∧
  ∀ q, q ≠ [] → parent q = temp → disk w !! q = None.

(** The scratch directory holds members of the archive, some retagged. *)
Definition staged (w : World) : Prop :=
  ∃ evs, trace w = t0 ++ evs ∧
         disk w !! lib_path = Some (File (Archive ms)) ∧
         disk w !! temp = Some Dir ∧
         ∀ q pl', q ≠ [] → parent q = temp →
                  disk w !! q = Some (File (Plain pl')) →
                  member_ok lib_path ms evs (name q, pl').

(** The archive holds the same names, each member old or retagged. *)
Definition packed (w : World) : Prop :=
  ∃ evs ms', trace w = t0 ++ evs ∧
             disk w !! lib_path = Some (File (Archive ms')) ∧
             ms'.*1 = ms.*1 ∧ Forall (member_ok lib_path ms evs) ms'.

Lemma untouched_packed w : untouched w → packed w.
Proof.
  intros (evs & Ht & Hlib). exists evs, ms. split_and!; [done..|].
  apply Forall_forall. intros m. apply member_ok_old.
Qed.

Lemma staged_untouched w : staged w → untouched w.
Proof. intros (evs & Ht & Hlib & _). by exists evs. Qed.

Lemma untouched_evolves w w' evs' :
  untouched w → evolves w w' (disk w) evs' → untouched w'.
Proof.
  intros (evs & Ht & Hlib) [Hd Ht']. exists (evs ++ evs').
  by rewrite Ht', Ht, Hd, (assoc_L (++)).
Qed.

Lemma staged_evolves w w' evs' :
  staged w → evolves w w' (disk w) evs' → staged w'.
Proof.
  intros (evs & Ht & Hlib & Htemp & Hch) [Hd Ht']. exists (evs ++ evs').
  rewrite Ht', Ht, Hd, (assoc_L (++)). split_and!; [done..|].
  intros q pl' ? ? ?. apply member_ok_mono. by apply Hch.
Qed.

Lemma staged_ne w : staged w → temp ≠ lib_path.
Proof.
  intros (evs & Ht & Hlib & Htemp & _). apply (lookup_ne (disk w)).
  by rewrite Hlib, Htemp.
Qed.

Lemma temp_not_above : temp ≠ lib_path → ¬ temp `prefix_of` lib_path.
Proof. intros Hne Hpre. by apply temp_objects_above in Hpre. Qed.

Lemma staged_extract w w' o :
  emptied w → disk w !! temp = Some Dir → returncode o = 0 →
  evolves w w'
    (Tools.effect (call_of self [Str "ar"; Str "x"; PathArg lib_path]
                     (Some temp) None) o (disk w))
    (run_events self [Str "ar"; Str "x"; PathArg lib_path]
       (Some temp) None o) →
  staged w'.
Proof.
  intros ((evs & Ht & Hlib) & Hne & Hch) Htemp Hz [Hd Ht'].
  rewrite (effect_ar_x _ _ _ _ _ ms) in Hd by done.
  eexists. rewrite Ht', Ht, Hd, <- (assoc_L (++)). split; [done|].
  split_and!.
  - rewrite lookup_ar_extract_ne; [done|]. left. by apply temp_not_above.
  - rewrite lookup_ar_extract_ne; [done|]. by right.
  - intros q pl' Hq Hpar [Hold|(m & Hin & Heq & [= ->])]%lookup_ar_extract.
    + by rewrite Hch in Hold.
    + rewrite Heq, name_joinpath. by apply member_ok_old; destruct m.
Qed.

Lemma staged_vtool w w' o obj :
  staged w → obj ≠ [] → parent obj = temp →
  evolves w w'
    (Tools.effect (call_of self (vtool_cmd obj) (Some temp) None) o (disk w))
    (run_events self (vtool_cmd obj) (Some temp) None o) →
  staged w'.
Proof.
  intros Hst Hobj Hpar Hev.
  destruct (decide (returncode o = 0)) as [Hz|Hnz].
  2:{ rewrite effect_failed in Hev by done. by eapply staged_evolves. }
  rewrite effect_vtool in Hev by done. unfold Tools.vtool_set in Hev.
  destruct (disk w !! obj) as [[[[bv code|]| | |]|]|] eqn:Hlook;
    try by eapply staged_evolves.
  pose proof (staged_ne _ Hst) as Hne.
  destruct Hst as (evs & Ht & Hlib & Htemp & Hch). destruct Hev as [Hd Ht'].
  destruct (child_of_temp lib_path obj Hobj Hpar) as (Heq & Hpre & Hot).
  eexists. rewrite Ht', Ht, Hd, <- (assoc_L (++)). split; [done|].
  split_and!.
  - rewrite lookup_insert_ne; [done|]. intros ->.
    by apply (temp_not_above Hne).
  - by rewrite lookup_insert_ne.
  - intros q pl' Hq Hparq.
    destruct (decide (obj = q)) as [<-|Hoq].
    + rewrite lookup_insert_eq. intros [= <-].
      destruct (Hch obj _ Hobj Hpar Hlook) as (pl & Hin & Hpl).
      cbn in Hin, Hpl. exists pl. split; [done|]. right. cbn. split.
      * destruct Hpl as [<-|[Hr _]]; [done|].
        by destruct pl; simplify_eq/=.
      * exists (call_of self (vtool_cmd obj) (Some temp) None), o.
        rewrite runs_app, runs_run_events, <- Heq. split_and!; [|done..].
        apply elem_of_app. right. by left.
    + rewrite lookup_insert_ne by done. intros Hl.
      apply member_ok_mono. by apply Hch.
Qed.

Lemma packed_ar_rcs w w' o objs :
  staged w → Forall (λ q, q ≠ [] ∧ parent q = temp) objs →
  evolves w w'
    (Tools.effect (call_of self ([Str "ar"; Str "rcs"; PathArg lib_path] ++
                                 map PathArg objs) (Some temp) None) o
                  (disk w))
    (run_events self ([Str "ar"; Str "rcs"; PathArg lib_path] ++
                      map PathArg objs) (Some temp) None o) →
  packed w' ∧ disk w' !! temp = Some Dir.
Proof.
  intros Hst Hobjs Hev. pose proof (staged_ne _ Hst) as Hne.
  destruct (decide (returncode o = 0)) as [Hz|Hnz].
  2:{ rewrite effect_failed in Hev by done. split.
      - by eapply untouched_packed, untouched_evolves, Hev;
          apply staged_untouched.
      - destruct Hst as (_ & _ & _ & Htemp & _). destruct Hev as [-> _].
        done. }
  rewrite effect_ar_rcs in Hev by done. unfold Tools.ar_rcs in Hev.
  destruct Hst as (evs & Ht & Hlib & Htemp & Hch). destruct Hev as [Hd Ht'].
  rewrite Hlib in Hd. split; [|by rewrite Hd, lookup_insert_ne].
  assert (Forall (member_ok lib_path ms evs)
            (Tools.members_of (map PathArg objs) (disk w))) as Hnew.
  { apply Forall_forall. intros [n pl] (q & Hq & -> & Hl)%elem_of_members_of.
    rewrite Forall_forall in Hobjs. destruct (Hobjs q Hq) as [? ?].
    by apply Hch. }
  eexists _, _. rewrite Ht', Ht, Hd, <- (assoc_L (++)), lookup_insert_eq.
  split; [done|]. split; [done|]. split.
  - apply ar_insert_names. eapply Forall_impl; [exact Hnew|].
    intros [n pl] (pl0 & Hin & _). cbn in *.
    apply list_elem_of_fmap. by exists (n, pl0).
  - apply Forall_forall. intros x [Hx|Hx]%elem_of_ar_insert.
    + rewrite Forall_forall in Hnew. by apply member_ok_mono, Hnew.
    + by apply member_ok_old.
Qed.

Lemma packed_cleanup w w' :
  packed w → disk w !! temp = Some Dir →
  evolves w w' (Fs.remove_tree temp (disk w)) [] → packed w'.
Proof.
  intros (evs & ms' & Ht & Hlib & Hn & Hall) Htemp [Hd Ht'].
  exists evs, ms'. rewrite Ht', Hd, app_nil_r, lookup_remove_tree.
  split_and!; [done| |done..]. rewrite decide_False; [done|].
  apply temp_not_above. congruence.
Qed.

Lemma fix_object_staged obj :
  obj ≠ [] → parent obj = temp →
  hoare staged (fix_object self temp obj tt)
    (λ r w, match r with Ok _ => staged w | Raise _ => False end).
Proof.
  intros Hobj Hpar. unfold fix_object.
  eapply hoare_try_except with
    (R := λ r w, staged w ∧
                 ∀ e, r = Raise e → is_CalledProcessError e = true).
  - eapply hoare_bind with
      (R := λ r w, staged w ∧
                   ∀ e, r = Raise e → is_CalledProcessError e = true).
    + apply hoare_run_command. intros w w' o Hst Hev. split.
      * by eapply staged_vtool.
      * unfold run_result. intros e. by case_decide; intros [= <-].
    + intros o'. apply hoare_print. intros w w' [Hst _] Hev.
      split; [by eapply staged_evolves|done].
    + intros e w [? He]. split; [done|]. intros e0 [= <-]. by apply He.
  - by intros a w [? _].
  - intros e _. apply hoare_print. intros w w' [Hst _] Hev.
    by eapply staged_evolves.
  - intros e w Hc [_ He]. by rewrite (He e eq_refl) in Hc.
Qed.

Lemma fix_tvos_platform_metadata_packed :
  hoare (λ w, trace w = t0 ∧ tree_shaped (disk w) ∧
              disk w !! lib_path = Some (File (Archive ms)))
    (fix_tvos_platform_metadata self lib_path platform)
    (λ _ w, packed w).
Proof.
  unfold fix_tvos_platform_metadata. cbv zeta.
  change (parent lib_path // "temp_objects") with temp.
  eapply hoare_bind with
    (R := λ r w, untouched w ∧ tree_shaped (disk w)).
  { apply hoare_print. intros w w' (Ht & Hts & Hlib) [Hd Ht']. split.
    - exists [Printed ("Fixing platform metadata for " +:+ platform +:+ "...")].
      by rewrite Ht', Ht, Hd.
    - by rewrite Hd. }
  2:{ intros e w [Hu _]. by apply untouched_packed. }
  intros _.
  eapply hoare_bind with
    (R := λ r w, match r with
                 | Ok _ => emptied w
                 | Raise _ => untouched w
                 end).
  { apply hoare_remove_if_exists.
    - intros w [Hu Hts] Hnone. split; [done|]. split.
      + destruct Hu as (? & _ & Hlib).
        apply (lookup_ne (disk w)). by rewrite Hlib, Hnone.
      + intros q Hq Hpar. apply (tree_shaped_below _ temp); [done..|].
        by apply child_of_temp.
    - intros w w' [Hu Hts] Hdir [Hd Ht'].
      assert (temp ≠ lib_path) as Hne.
      { destruct Hu as (? & _ & Hlib).
        apply (lookup_ne (disk w)). by rewrite Hlib, Hdir. }
      split; [|split; [done|]].
      + destruct Hu as (evs & Ht & Hlib). exists evs.
        rewrite Ht', Hd, app_nil_r, lookup_remove_tree. split; [done|].
        rewrite decide_False; [done|]. by apply temp_not_above.
      + intros q Hq Hpar. rewrite Hd, lookup_remove_tree, decide_True; [done|].
        by apply child_of_temp.
    - by intros e w [Hu _]. }
  2:{ intros e w Hu. by apply untouched_packed. }
  intros _.
  eapply hoare_bind with
    (R := λ r w, match r with
                 | Ok _ => emptied w ∧ disk w !! temp = Some Dir
                 | Raise _ => untouched w
                 end).
  { apply hoare_mkdir.
    - intros w w' (Hu & Hne & Hch) Hnone Hpar [Hd Ht']. split; [split; [|split; [done|]]|].
      + destruct Hu as (evs & Ht & Hlib). exists evs.
        rewrite Ht', Hd, app_nil_r, lookup_insert_ne by done. done.
      + intros q Hq Hparq. rewrite Hd, lookup_insert_ne; [by apply Hch|].
        intros <-. by destruct (child_of_temp lib_path temp Hq Hparq) as (_ & _ & ?).
      + by rewrite Hd, lookup_insert_eq.
    - by intros e w [Hu _]. }
  2:{ intros e w Hu. by apply untouched_packed. }
  intros _.
  eapply hoare_try_finally with
    (R := λ r w, packed w ∧ disk w !! temp = Some Dir).
  2:{ intros r. apply hoare_remove_if_exists.
      - intros w [Hp Htemp] Hnone. congruence.
      - intros w w' [Hp Htemp] _ Hev. by eapply packed_cleanup.
      - by intros e w [Hp _]. }
  eapply hoare_bind with
    (R := λ r w, match r with
                 | Ok _ => staged w
                 | Raise _ => untouched w ∧ disk w !! temp = Some Dir
                 end).
  { apply hoare_run_command. intros w w' o [Hem Htemp] Hev.
    unfold run_result. case_decide as Hz.
    - by eapply staged_extract.
    - rewrite effect_failed in Hev by done. split.
      + eapply untouched_evolves; [|exact Hev]. by destruct Hem.
      + by destruct Hev as [-> _]. }
  2:{ intros e w [Hu ?]. split; [by apply untouched_packed|done]. }
  intros _.
  eapply hoare_bind with
    (R := λ r w, match r with
                 | Ok objs => staged w ∧
                              Forall (λ q, q ≠ [] ∧ parent q = temp) objs
                 | Raise _ => False
                 end); [|intros object_files|done].
  { apply hoare_glob_suffix. intros w Hst. split; [done|].
    apply Forall_forall.
    intros q [_ (? & ? & _)%elem_of_children]%list_elem_of_filter. done. }
  eapply hoare_bind with
    (R := λ r w, match r with
                 | Ok _ => staged w ∧
                           Forall (λ q, q ≠ [] ∧ parent q = temp) object_files
                 | Raise _ => False
                 end); [|intros _|done].
  { intros w [Hst Hobjs].
    assert (∀ obj s, obj ∈ object_files →
              hoare staged (fix_object self temp obj s)
                (λ r w, match r with
                        | Ok _ => staged w
                        | Raise _ => False
                        end)) as Hbody.
    { intros obj [] Hin. rewrite Forall_forall in Hobjs.
      destruct (Hobjs obj Hin). by apply fix_object_staged. }
    pose proof (hoare_for_in (λ _ w, staged w) (λ _ _, False) object_files
                  (fix_object self temp) tt Hbody w Hst) as Hl.
    destruct (for_in _ _ _ w) as [[[]|e] w1]; cbn in *; done. }
  eapply hoare_bind with
    (R := λ r w, packed w ∧ disk w !! temp = Some Dir);
    [|intros _; by apply hoare_ret|done].
  apply hoare_run_command. intros w w' o [Hst Hobjs] Hev.
  by eapply packed_ar_rcs.
Qed.
End Fixer.

(** ** Concrete worlds *)

Module Demo.

Definition root : Path := ["Users"; "dev"; "idevice"].

Definition self : Builder := init root.

(** Objects stamped for iOS 12.0 (platform code 2). *)
Definition ios_version : BuildVersion :=
  {| bv_platform := "2"; bv_minos := "12.0"; bv_sdk := "17.0" |}.

Definition library : FileData :=
  Archive [ ("idevice.o", Object ios_version "idevice");
            ("ring.o", Object ios_version "ring") ].

(** A checkout with the crate and its header, nothing built yet. *)
Definition checkout : FS :=
  list_to_map
    [ ([], Dir); (["Users"], Dir); (["Users"; "dev"], Dir); (root, Dir);
      (root // "ffi", Dir);
      (root // "ffi" // "idevice.h", File (Plain (Raw "header"))) ].

Definition success (out : string) (made : option FileData) : Outcome :=
  {| returncode := 0; stdout := out; stderr := EmptyString; artifact := made |}.

Definition failure (code : Z) (err : string) : Outcome :=
  {| returncode := code; stdout := EmptyString; stderr := err; artifact := None |}.

(** Tools that all succeed: the compiler and the combiner leave a
    library, [lipo -info] reports both architectures. *)
Definition good_tools (history : list Event) (c : Call) : Outcome :=
  match cmd c with
  | Str "lipo" :: Str "-info" :: _ =>
      success "Architectures in the fat file: libidevice_ffi.a are: x86_64 arm64 " None
  | _ => success EmptyString (Some library)
  end.

Definition world (fs : FS) (tools : list Event → Call → Outcome) : World :=
  {| disk := fs; environ := ∅; login := "dev"; pw_dir := "/Users/dev";
     script_dir := root; tools := tools; trace := [] |}.

Definition fresh : World := world checkout good_tools.

End Demo.


(** Closed facts about concrete worlds are decided by evaluation. *)
Ltac by_compute := apply (bool_decide_unpack _); vm_compute; exact I.

Lemma main_spec sdk_arg w Q :
  spec (run sdk_arg) Q →
  ∃ r, Q r (steps (run sdk_arg) w) ∧
       match r with
       | Ok _ => (main sdk_arg w).1 = 0 ∧
                 emitted sdk_arg w = steps (run sdk_arg) w
       | Raise e => (main sdk_arg w).1 = 1 ∧
                    emitted sdk_arg w = steps (run sdk_arg) w ++ [failure_line e]
       end.
Proof.
  intros H. pose proof (spec_steps _ _ w H) as HQ.
  pose proof (spec_trace _ _ w H) as Ht. unfold emitted, main.
  remember (steps (run sdk_arg) w) as evs eqn:Hevs. clear Hevs.
  destruct (run sdk_arg w) as [[[]|e] w']; cbn [fst snd] in *;
    eexists; (split; [exact HQ|]); cbn [fst snd]; (split; [done|]).
  - by rewrite Ht, drop_app_length.
  - cbn. by rewrite Ht, <- (assoc_L (++)), drop_app_length.
Qed.

(** *** C1 *)

(** The commands of the Metadata Fixer. *)
Definition fixer_tool (co : Call * Outcome) : Prop :=
  program co.1 ∈ ["ar"; "vtool"].

(** The claim as the specification words it: a full run that assembles
    the bundle has run the fixer, and the objects of the tvOS library in
    the bundle carry platform code 3 and version 12.0. *)
Definition tvos_metadata_rewritten (w : World) : Prop :=
  (main None w).1 = 0 →
  Exists fixer_tool (runs (emitted None w)) ∧
  ∃ ms, disk (main None w).2
          !! (bundle_path (init (script_dir w)) // "tvos-arm64" // lib_name)
        = Some (File (Archive ms)) ∧
        Forall (λ m, ∃ code, m.2 = Object tvos_version code) ms.

Lemma tvos_metadata_left_alone : ¬ tvos_metadata_rewritten Demo.fresh.
Proof.
  intros H. destruct H as [Hex _]; [by vm_compute|].
  revert Hex. by_compute.
Qed.

(** C1, amended: the Metadata Fixer is never invoked.  Whatever the
    world and whatever the value of [--sdk], every command of a run is a
    [rustup], [cargo] or [lipo] command: no [ar] and no [vtool] command is
    run between the builds and the assembly, for any platform. *)
Theorem metadata_fixer_never_invoked (sdk_arg : option string) (w : World) :
  Forall pipeline_tool (runs (emitted sdk_arg w)) ∧
  ¬ Exists fixer_tool (runs (emitted sdk_arg w)).
Proof.
  assert (Forall pipeline_tool (runs (emitted sdk_arg w))) as Hall.
  { destruct (main_spec sdk_arg w _ (run_tools sdk_arg)) as (r & Hr & Hm).
    unfold all_runs in Hr. destruct r as [[]|e]; destruct Hm as [_ ->]; [done|].
    rewrite runs_app, runs_cons, runs_nil, app_nil_r. done. }
  split; [done|]. intros (co & Hin & Hfix)%Exists_exists.
  rewrite Forall_forall in Hall. specialize (Hall co Hin).
  unfold pipeline_tool, fixer_tool in *.
  repeat (apply elem_of_cons in Hall as [Hall|Hall];
          [rewrite Hall in Hfix; revert Hfix; by_compute|]).
  by apply elem_of_nil in Hall.
Qed.

(** *** C2 *)

Module Demo2.
Import Demo.

Definition out : Path := root // "out".

(** One build output: a library and nothing else. *)
Definition built : FS :=
  <[out // lib_name := File library]> (<[out := Dir]> checkout).

(** [lipo -info] reports a single architecture, x86_64. *)
Definition thin_tools (history : list Event) (c : Call) : Outcome :=
  success "Non-fat file: libidevice_ffi.a is architecture: x86_64" None.

(** [lipo -info] fails. *)
Definition broken_lipo (history : list Event) (c : Call) : Outcome :=
  failure 1 "fatal error: can't open input file".

End Demo2.

(** The claim as the specification words it: every entry of the manifest
    records the architectures that a [lipo] invocation of this run
    reported for the library. *)
Definition architectures_from_lipo (self : Builder)
    (platform_builds : list (string * Path)) (w : World) : Prop :=
  let m := create_xcframework self platform_builds in
  ∀ plist,
    disk (m w).2 !! (bundle_path self // "Info.plist")
    = Some (File (PropertyList plist)) →
    Forall (λ entry,
              ∃ c o, (c, o) ∈ runs (steps m w) ∧ program c = "lipo" ∧
                     returncode o = 0 ∧
                     SupportedArchitectures entry = Py.sorted (parse_archs o))
           (AvailableLibraries plist).

Definition written_plist (self : Builder)
    (platform_builds : list (string * Path)) (w : World) : option InfoPlist :=
  match disk (create_xcframework self platform_builds w).2
          !! (bundle_path self // "Info.plist") with
  | Some (File (PropertyList plist)) => Some plist
  | _ => None
  end.

Example demo_iphoneos_manifest :
  (map SupportedArchitectures ∘ AvailableLibraries) <$>
    written_plist Demo.self [("iphoneos", Demo2.out)]
      (Demo.world Demo2.built Demo2.thin_tools)
  = Some [["arm64"]].
Proof. by vm_compute. Qed.

Example demo_fallback_manifest :
  (map SupportedArchitectures ∘ AvailableLibraries) <$>
    written_plist Demo.self [("iphonesimulator", Demo2.out)]
      (Demo.world Demo2.built Demo2.broken_lipo)
  = Some [["arm64"; "x86_64"]].
Proof. by vm_compute. Qed.

#[local] Instance architectures_entry_dec evs entry :
  Decision (∃ c o, (c, o) ∈ runs evs ∧ program c = "lipo" ∧
                   returncode o = 0 ∧
                   SupportedArchitectures entry = Py.sorted (parse_archs o)).
Proof.
  refine (cast_if (decide (Exists (λ co, program co.1 = "lipo" ∧
                                         returncode co.2 = 0 ∧
                                         SupportedArchitectures entry
                                         = Py.sorted (parse_archs co.2))
                                  (runs evs))));
    rewrite Exists_exists in *.
  - destruct e as ([c o] & ? & ?). by exists c, o.
  - intros (c & o & ? & ?). apply n. by exists (c, o).
Defined.

Lemma architectures_not_from_lipo :
  ¬ architectures_from_lipo Demo.self [("iphoneos", Demo2.out)]
      (Demo.world Demo2.built Demo2.thin_tools) ∧
  ¬ architectures_from_lipo Demo.self [("iphonesimulator", Demo2.out)]
      (Demo.world Demo2.built Demo2.broken_lipo).
Proof.
  split; intros H.
  - opose proof* H as Hall; [by vm_compute|]. revert Hall. by_compute.
  - opose proof* H as Hall; [by vm_compute|]. revert Hall. by_compute.
Qed.

(** The commands of one round of the assembler's loop: none, or a single
    introspection of the library of the item, and that only for a platform
    whose branch asks for it. *)
Definition introspects (self : Builder) (item : string * Path)
    (cos : list (Call * Outcome)) : Prop :=
  cos = [] ∨
  item.1 ∈ lipo_platforms ∧
  ∃ o, cos = [(lipo_info_call self (item.2 // lib_name), o)].

Lemma classify_post_introspects self platform platform_config build_path r evs :
  classify_post self platform platform_config (build_path // lib_name) r evs →
  introspects self (platform, build_path) (runs evs).
Proof.
  intros (_ & H). repeat case_decide.
  - destruct H as (o & s & Hr & _). right. split; [done|]. by exists o.
  - destruct H as (s & -> & _). by left.
  - destruct H as (-> & _). by left.
Qed.

Lemma add_platform_introspects self xcframework_path item libs :
  spec (add_platform self xcframework_path item libs)
    (λ _ evs, introspects self item (runs evs)).
Proof.
  destruct item as [platform build_path].
  unfold add_platform. spec_step. spec_step; cbn.
  2:{ apply spec_ret. by left. }
  spec_step. apply spec_getitem; [|by left].
  intros cfg Hcfg. spec_step.
  eapply spec_conseq; [apply classify_spec|].
  intros r evs Hc. apply classify_post_introspects in Hc.
  destruct r as [[s|]|e]; spec_go; by ev_norm.
Qed.

(** Where the architectures of a manifest entry come from: the entry is
    that of an item of [platform_builds]; for [iphoneos] and [appletvos]
    they are the constant [["arm64"]]; for the four other platforms they
    are what one [lipo -info] of the library reported, or the configured
    list when that failed or reported nothing, sorted. *)
Definition entry_archs (self : Builder)
    (platform_builds : list (string * Path)) (evs : list Event)
    (entry : LibraryEntry) : Prop :=
  ∃ platform build_path platform_config,
    (platform, build_path) ∈ platform_builds ∧
    dict_get (platforms self) platform = Some platform_config ∧
    (platform ∈ fixed_platforms ∧ SupportedArchitectures entry = ["arm64"] ∨
     platform ∈ lipo_platforms ∧
     ∃ o, (lipo_info_call self (build_path // lib_name), o) ∈ runs evs ∧
          SupportedArchitectures entry = recorded_archs platform_config o).

Lemma entry_archs_mono self platform_builds evs evs' entry :
  (∀ co, co ∈ runs evs → co ∈ runs evs') →
  entry_archs self platform_builds evs entry →
  entry_archs self platform_builds evs' entry.
Proof.
  intros Hsub (platform & build_path & cfg & Hin & Hcfg & H).
  exists platform, build_path, cfg. split_and!; [done..|].
  destruct H as [?|(? & o & Ho & ?)]; [by left|right].
  split; [done|]. exists o. auto.
Qed.

Lemma entry_archs_app self platform_builds evs evs2 entry :
  entry_archs self platform_builds evs entry →
  entry_archs self platform_builds (evs ++ evs2) entry.
Proof.
  apply entry_archs_mono. intros co. rewrite runs_app, elem_of_app. auto.
Qed.

Lemma classify_post_entry_archs self platform_builds platform build_path
    platform_config s evs :
  (platform, build_path) ∈ platform_builds →
  dict_get (platforms self) platform = Some platform_config →
  classify_post self platform platform_config (build_path // lib_name)
    (Ok (Some s)) evs →
  entry_archs self platform_builds evs (library_entry s).
Proof.
  intros Hin Hcfg (_ & H). exists platform, build_path, platform_config.
  split_and!; [done..|]. repeat case_decide.
  - destruct H as (o & s' & Hr & [= <-] & Ha & _). right. split; [done|].
    exists o. rewrite Hr. split; [apply list_elem_of_singleton|]; done.
  - destruct H as (s' & _ & [= <-] & Ha & _). by left.
  - by destruct H as (_ & [=]).
Qed.

(** C2, amended: the architectures of the manifest come from [lipo] for
    four of the six platform keys only.  Whatever the platform builds
    handed to [create_xcframework], every command it runs is a
    [lipo -info] of the library of an item whose platform is
    [iphonesimulator], [appletvsimulator], [macosx] or [maccatalyst]; and
    when it returns it has written an [Info.plist] of which every entry
    records, for [iphoneos] and [appletvos], the constant [["arm64"]], and
    for the other four the sorted architectures one such invocation
    reported, or the sorted list of the static configuration when the
    invocation failed or reported none. *)
Theorem architectures_recorded self platform_builds :
  spec (create_xcframework self platform_builds)
    (λ r evs,
       Forall (λ co, ∃ item, item ∈ platform_builds ∧
                             item.1 ∈ lipo_platforms ∧
                             co.1 = lipo_info_call self (item.2 // lib_name))
              (runs evs) ∧
       match r with
       | Ok _ =>
           ∃ plist,
             Wrote (bundle_path self // "Info.plist") (PropertyList plist)
             ∈ evs ∧
             Forall (entry_archs self platform_builds evs)
                    (AvailableLibraries plist)
       | Raise _ => True
       end).
Proof.
  set (asked := λ co : Call * Outcome,
         ∃ item, item ∈ platform_builds ∧ item.1 ∈ lipo_platforms ∧
                 co.1 = lipo_info_call self (item.2 // lib_name)).
  unfold create_xcframework, reset_bundle.
  do 3 spec_step; [|by split; [constructor|]].
  spec_step; [|by split; [constructor|]]. do 3 spec_step.
  eapply spec_conseq.
  { apply (spec_for_in
             (λ _ libs evs, Forall asked (runs evs) ∧
                            Forall (entry_archs self platform_builds evs) libs)
             (λ _ evs, Forall asked (runs evs)))
      with (done := []) (evs0 := []); [|by split; constructor].
    intros pre [platform build_path] post libs evs Heq (Hr & Hl).
    assert ((platform, build_path) ∈ platform_builds) as Hin.
    { cbn in Heq. rewrite Heq. set_solver. }
    eapply spec_conseq.
    { apply spec_and; [apply add_platform_spec|apply add_platform_introspects]. }
    intros r evs2 ((_ & _ & Hok) & Hi). ev_norm.
    assert (Forall asked (runs evs ++ runs evs2)) as Hr'.
    { apply Forall_app. split; [done|].
      destruct Hi as [->|(Hp & o & ->)]; [constructor|].
      apply Forall_singleton. by exists (platform, build_path). }
    destruct r as [libs'|e]; [|done]. split; [done|].
    destruct (Hok _ eq_refl) as [(-> & ->)|(cfg & s & Hcfg & -> & Hc)].
    { by rewrite app_nil_r. }
    apply Forall_app. split.
    - eapply Forall_impl; [done|]. intros entry. apply entry_archs_app.
    - apply Forall_singleton.
      eapply classify_post_entry_archs in Hc; [|done..].
      destruct Hc as (p & bp & c & ? & ? & H). exists p, bp, c.
      split_and!; [done..|]. destruct H as [?|(? & o & Ho & ?)]; [by left|].
      right. split; [done|]. exists o. rewrite runs_app, elem_of_app. auto. }
  intros [libs|e] evs; cbn; ev_norm; [intros (Hr & Hl)|intros Hr].
  - spec_step. apply spec_dump_plist.
    + intros e _. by ev_norm.
    + intros _ e _. by ev_norm.
    + intros _. spec_go. ev_norm. split; [done|]. eexists. split.
      * apply elem_of_cons. right. apply elem_of_app. right.
        apply elem_of_cons. by left.
      * cbn. eapply Forall_impl; [done|]. intros entry.
        apply entry_archs_mono. intros co. by ev_norm.
  - done.
Qed.

(** *** C3 *)

Example identifier_both :
  library_identifier "iphonesimulator" (Py.sorted ["x86_64"; "arm64"])
  = Some "ios-arm64_x86_64-simulator".
Proof. reflexivity. Qed.


(** *** C4 *)

Module Demo4.
Import Demo.

(** The compiler fails for the target of tvOS, and only for it. *)
Definition tv_fails (history : list Event) (c : Call) : Outcome :=
  if decide (cmd c = cargo_cmd "aarch64-apple-tvos")
  then failure 101 "error: could not compile `idevice`"
  else good_tools history c.

Definition world : World := Demo.world checkout tv_fails.

End Demo4.

(** C4: a failing compiler invocation for ["appletvos"] ends a full run.
    If, in a run without [--sdk], the [cargo] command for the target of
    ["appletvos"] exits non-zero, then the process exits with status 1,
    it has written no file ([Info.plist] included), and no [cargo]
    command for a target of ["macosx"] has been run. *)
Theorem failed_tvos_build_aborts (w : World) :
  Exists tv_build_failed (runs (emitted None w)) →
  (main None w).1 = 1 ∧
  writes (emitted None w) = [] ∧
  Forall (λ co, ¬ macosx_build co) (runs (emitted None w)).
Proof.
  destruct (main_spec None w _ run_all_aborted_early) as (r & Hr & Hm).
  assert (runs (emitted None w) = runs (steps (run None) w) ∧
          writes (emitted None w) = writes (steps (run None) w)) as [-> ->].
  { destruct r; destruct Hm as [_ ->]; [done|]. by ev_norm. }
  intros Hex. destruct (Hr Hex) as ([e ->] & Hw & Hmac). by destruct Hm.
Qed.

Lemma failed_tvos_build_aborts_witness :
  Exists tv_build_failed (runs (emitted None Demo4.world)) ∧
  (main None Demo4.world).1 = 1 ∧
  writes (emitted None Demo4.world) = [] ∧
  Forall (λ co, ¬ macosx_build co) (runs (emitted None Demo4.world)).
Proof.
  split; [by_compute|]. apply failed_tvos_build_aborts. by_compute.
Defined.

(** In that world the run has built for iOS and its simulator, and the
    disk holds no bundle at all. *)
Example demo_tv_failure :
  map (program ∘ fst) (runs (emitted None Demo4.world))
  = ["rustup"; "rustup"; "rustup"; "rustup"; "rustup"; "rustup"; "rustup";
     "rustup"; "cargo"; "cargo"; "cargo"; "lipo"; "cargo"] ∧
  disk (main None Demo4.world).2 !! bundle_path Demo.self = None.
Proof. by vm_compute. Qed.

(** *** C5 *)

Module Demo5.
Import Demo.

Definition lib_path : Path := root // "out" // lib_name.

(** [vtool] fails on [ring.o]; every other command succeeds. *)
Definition vtool_fails (history : list Event) (c : Call) : Outcome :=
  if decide (cmd c = vtool_cmd (temp_objects lib_path // "ring.o"))
  then failure 1 "vtool: error: no build version load command"
  else success EmptyString None.

Definition world : World := Demo.world Demo2.built vtool_fails.





End Demo5.


(** *** C6 *)

Module Demo6.
Import Demo.

Definition arm : Path := build_dir self // "iphonesimulator-arm64".
Definition intel : Path := build_dir self // "iphonesimulator-x86_64".

(** The two builds of the simulator are there, without headers. *)
Definition built : FS :=
  <[intel // lib_name := File library]>
    (<[intel := Dir]>
       (<[arm // lib_name := File library]>
          (<[arm := Dir]>
             (<[build_dir self := Dir]>
                (<[root // "build" := Dir]> checkout))))).

Definition world : World := Demo.world built good_tools.

End Demo6.

(** C6: the Fat-Library Combiner.  Given a single build output it returns
    that output and leaves the world as it was, so no command is run.
    Given two or more, and unless an operation on the file system of its
    own fails, it runs exactly one command, [lipo -create], in which the
    library of every build output appears, followed by one [-output]
    path, that of the library in the fat directory of the platform. *)
Theorem fat_library_combiner (self : Builder) (platform : string)
    (build_paths : list Path) (w : World) :
  (2 ≤ length build_paths)%nat →
  (∀ e, (create_fat_library self platform build_paths w).1 = Raise e →
        is_CalledProcessError e = true) →
  (∀ build_path,
     create_fat_library self platform [build_path] w = (Ok build_path, w)) ∧
  ∃ c o,
    runs (steps (create_fat_library self platform build_paths) w) = [(c, o)] ∧
    cmd c = [Str "lipo"; Str "-create"] ++
            map (λ build_path, PathArg (build_path // lib_name)) build_paths ++
            [Str "-output";
             PathArg (build_dir self // (platform +:+ "-fat") // lib_name)] ∧
    Forall (λ build_path, PathArg (build_path // lib_name) ∈ cmd c)
           build_paths.
Proof.
  intros Hlen Hos. split; [done|].
  pose proof (spec_steps _ _ w
                (create_fat_library_spec self platform build_paths
                   ltac:(lia))) as (_ & [(_ & e & Hr & He)|(o & Hruns & _)]).
  { apply Hos in Hr. unfold os_error in He. congruence. }
  exists (lipo_call self platform build_paths), o.
  assert (cmd (lipo_call self platform build_paths)
          = [Str "lipo"; Str "-create"] ++
            map (λ build_path, PathArg (build_path // lib_name)) build_paths ++
            [Str "-output";
             PathArg (build_dir self // (platform +:+ "-fat") // lib_name)])
    as Hcmd.
  { unfold lipo_call, call_of, lipo_cmd, fat_dir_of. cbn.
    by rewrite map_map. }
  split_and!; [done..|]. rewrite Hcmd. apply Forall_forall.
  intros build_path Hin. do 2 (apply elem_of_cons; right).
  apply elem_of_app. left. apply list_elem_of_fmap. by exists build_path.
Qed.

Lemma fat_library_combiner_witness :
  ∃ c o,
    runs (steps (create_fat_library Demo.self "iphonesimulator"
                   [Demo6.arm; Demo6.intel]) Demo6.world) = [(c, o)] ∧
    program c = "lipo".
Proof.
  destruct (fat_library_combiner Demo.self "iphonesimulator"
              [Demo6.arm; Demo6.intel] Demo6.world)
    as (_ & c & o & Hruns & Hcmd & _).
  - cbn. lia.
  - intros e. vm_compute. by intros [=].
  - exists c, o. split; [done|]. unfold program. by rewrite Hcmd.
Defined.

Example demo_combiner :
  map (λ co, map word_str (cmd co.1))
      (runs (steps (create_fat_library Demo.self "iphonesimulator"
                      [Demo6.arm; Demo6.intel]) Demo6.world))
  = [[ "lipo"; "-create";
       "/Users/dev/idevice/build/idevice_ffi/iphonesimulator-arm64/libidevice_ffi.a";
       "/Users/dev/idevice/build/idevice_ffi/iphonesimulator-x86_64/libidevice_ffi.a";
       "-output";
       "/Users/dev/idevice/build/idevice_ffi/iphonesimulator-fat/libidevice_ffi.a" ]].
Proof. by vm_compute. Qed.

(** *** C7 *)

Module Demo7.
Import Demo.

Definition bundle : Path := bundle_path self.

(** An older bundle, with a directory for watchOS, is on the disk. *)
Definition stale : FS :=
  <[bundle // "watchos-arm64" // lib_name := File library]>
    (<[bundle // "watchos-arm64" := Dir]>
       (<[bundle // "Info.plist" := File (Plain (Raw "old"))]>
          (<[bundle := Dir]>
             (<[xcframework_dir self := Dir]> Demo2.built)))).

Definition world : World := Demo.world stale good_tools.

End Demo7.

Lemma make_dirs_lookup (todo : list Path) (fs fs' : FS) (q : Path) :
  make_dirs todo fs = inr fs' → q ∉ todo → fs' !! q = fs !! q.
Proof.
  revert fs. induction todo as [|p todo IH]; intros fs; cbn.
  - by intros [= <-].
  - intros H [Hne Hq]%not_elem_of_cons.
    destruct (fs !! p) as [[|]|]; [done|by apply IH|].
    rewrite (IH _ H Hq). by apply lookup_insert_ne.
Qed.

Lemma elem_of_prefixes (p q : Path) : q ∈ prefixes p → q `prefix_of` p.
Proof.
  revert q. induction p as [|c p IH]; intros q; cbn.
  - intros ->%list_elem_of_singleton. done.
  - intros [->|Hin]%elem_of_cons; [apply prefix_nil|].
    apply list_elem_of_fmap in Hin as (q' & -> & Hq').
    by apply prefix_cons, IH.
Qed.

(** C7: a bundle left by an earlier run is deleted before the assembly.
    When a directory [idevice_ffi.xcframework] is at the output path, the
    assembler first empties the place: after its reset nothing is left
    below the bundle path; and the assembly as a whole gives the result
    and the world that it gives when started without the old bundle, so
    that nothing of the old bundle is in the new one. *)
Theorem stale_bundle_removed (self : Builder)
    (platform_builds : list (string * Path)) (w : World) :
  disk w !! bundle_path self = Some Dir →
  (∀ q, bundle_path self `prefix_of` q → q ≠ bundle_path self →
        disk (reset_bundle self w).2 !! q = None) ∧
  create_xcframework self platform_builds w
  = create_xcframework self platform_builds
      (set_disk (Fs.remove_tree (bundle_path self) (disk w)) w).
Proof.
  intros Hdir.
  set (w0 := set_disk (Fs.remove_tree (bundle_path self) (disk w)) w).
  assert (disk w0 !! bundle_path self = None) as Hgone.
  { cbn. rewrite lookup_remove_tree. by rewrite decide_True. }
  assert (remove_if_exists (bundle_path self) w = (Ok tt, w0)) as Hrm.
  { unfold remove_if_exists, bind, path_exists, Fs.exists_, rmtree.
    rewrite Hdir. cbn. by rewrite Hdir. }
  assert (remove_if_exists (bundle_path self) w0 = (Ok tt, w0)) as Hrm0.
  { unfold remove_if_exists, bind, path_exists, Fs.exists_.
    by rewrite Hgone. }
  split.
  - intros q Hpre Hne. unfold reset_bundle, bind. rewrite Hrm.
    assert (disk w0 !! q = None) as Hq.
    { cbn. rewrite lookup_remove_tree. by rewrite decide_True. }
    unfold mkdir. rewrite Hgone.
    destruct (make_dirs _ _) as [e|d] eqn:Hmk; [done|]. cbn.
    rewrite (make_dirs_lookup _ _ _ q Hmk); [done|].
    intros Hin%elem_of_prefixes. apply Hne.
    by apply (anti_symm prefix).
  - unfold create_xcframework, reset_bundle, bind. by rewrite Hrm, Hrm0.
Qed.

Lemma stale_bundle_removed_witness :
  disk Demo7.world !! bundle_path Demo.self = Some Dir ∧
  create_xcframework Demo.self [("iphoneos", Demo2.out)] Demo7.world
  = create_xcframework Demo.self [("iphoneos", Demo2.out)]
      (set_disk (Fs.remove_tree (bundle_path Demo.self) (disk Demo7.world))
                Demo7.world).
Proof.
  split; [by vm_compute|].
  apply (stale_bundle_removed Demo.self [("iphoneos", Demo2.out)] Demo7.world).
  by vm_compute.
Defined.

(** The new bundle holds the directory of this run and the manifest;
    the directory for watchOS is gone. *)
Example demo_stale_bundle :
  let after :=
    disk (create_xcframework Demo.self [("iphoneos", Demo2.out)]
            Demo7.world).2 in
  Py.sorted (map name (Fs.children Demo7.bundle after))
  = ["Info.plist"; "ios-arm64"] ∧
  after !! (Demo7.bundle // "watchos-arm64" // lib_name) = None.
Proof. by vm_compute. Qed.

(** *** C8 *)


Definition deployment_variables (platform : string) : list string :=
  if decide (platform ∈ ["iphoneos"; "iphonesimulator"]) then
    ["IPHONEOS_DEPLOYMENT_TARGET"]
  else if decide (platform ∈ ["appletvos"; "appletvsimulator"]) then
    ["TVOS_DEPLOYMENT_TARGET"]
  else if decide (platform = "macosx") then
    ["MACOSX_DEPLOYMENT_TARGET"]
  else if decide (platform = "maccatalyst") then
    ["MACOSX_DEPLOYMENT_TARGET"; "IPHONEOS_DEPLOYMENT_TARGET"]
  else [].



Example demo_catalyst_environment :
  deployment_variables "maccatalyst"
  = ["MACOSX_DEPLOYMENT_TARGET"; "IPHONEOS_DEPLOYMENT_TARGET"] ∧
  dict_get platform_table "maccatalyst" ≫= Some ∘ min_version = Some "13.1".
Proof. by vm_compute. Qed.

(** *** C9 *)

Definition preparing_line : string := "🔧 Preparing build environment...".

(** What a full run prints when it starts on its first platform. *)
Definition first_banner : string := nl +:+ "🚀 Building for iOS (iphoneos)".

Lemma build_all_platforms_banner root :
  spec (build_all_platforms (init root))
    (λ _ evs, ∃ rest, evs = Printed first_banner :: rest).
Proof.
  unfold build_all_platforms.
  change ((platforms (init root)).*1)
    with ("iphoneos" :: (tail platform_table).*1).
  apply for_in_cons_bind. unfold build_one at 1.
  apply spec_bind_assoc, spec_bind, spec_getitem; [|by vm_compute].
  intros cfg Hcfg. vm_compute in Hcfg. injection Hcfg as <-.
  apply spec_bind_assoc, spec_bind, spec_print.
  eapply spec_conseq; [|intros r evs _; by eexists].
  apply (all_runs_bind pipeline_tool).
  { apply all_runs_bind; [apply build_platform_tools|].
    intros p. apply all_runs_ret. }
  intros pbs. apply all_runs_bind; [|intros; apply create_xcframework_tools].
  apply all_runs_for_in. intros platform pbs'. unfold build_one.
  apply all_runs_bind; [apply all_runs_getitem|].
  intros cfg. apply all_runs_bind; [apply all_runs_print|].
  intros _. apply all_runs_bind; [apply build_platform_tools|].
  intros p. apply all_runs_ret.
Qed.

Lemma elem_of_attempt self c note e o :
  returncode o ≠ 0 → Printed note ∈ attempt self c note e o.
Proof.
  intros Hnz. unfold attempt. rewrite decide_False by done.
  apply elem_of_app. right. by apply elem_of_cons; left.
Qed.

Lemma notes_target_attempts self e targets os :
  length os = length targets →
  Forall2 (λ target o', returncode o' ≠ 0 →
                        Printed (target_note target)
                        ∈ target_attempts self e targets os)
          targets os.
Proof.
  unfold target_attempts. revert os.
  induction targets as [|t ts IH]; intros [|o os] Hlen; try done.
  cbn. constructor.
  - intros Hnz. apply elem_of_app. left. by apply elem_of_attempt.
  - eapply Forall2_impl; [apply IH; cbn in Hlen; lia|].
    cbn. intros t' o' H Hnz. apply elem_of_app. right. by apply H.
Qed.

(** **** What the system can refuse

    [subprocess.run] raises an [OSError] when the program cannot be
    started: it is not on [PATH], the working directory is gone, the
    system has no process to give.  [os.getlogin()] raises one when the
    process has no controlling terminal.  Neither is a
    [CalledProcessError].  The preparation is modelled again here with
    these two failures, the rest of the world being as before.  Whether a
    call is refused may depend on what happened so far; the text of each
    error is the system's. *)
Record Faults := {
  cannot_start : list Event → Call → option string;
  no_login : list Event → option string
}.

Definition no_faults : Faults :=
  {| cannot_start := λ _ _, None; no_login := λ _, None |}.

Definition running_line (cmd : list Word) : string :=
  "Running: " +:+ Py.join " " (map word_str cmd).

Definition warning_line (msg : string) : string :=
  "Warning: failed to ensure some targets: " +:+ msg.

Section Faulty.
Variable F : Faults.

(** [subprocess.run]: the program starts, or the call raises and no
    process has run. *)
Definition subprocess_run_in (c : Call) : M Outcome :=
  λ w, match cannot_start F (trace w) c with
       | Some msg => (Raise (OSError msg), w)
       | None => subprocess_run c w
       end.

(** [os.getlogin()] *)
Definition getlogin_in : M string :=
  λ w, match no_login F (trace w) with
       | Some msg => (Raise (OSError msg), w)
       | None => (Ok (login w), w)
       end.

(** [run_command] *)
Definition run_command_in (self : Builder) (cmd : list Word)
    (cwd : option Path) (env : option (gmap string string)) : M Outcome :=
  print ("Running: " +:+ Py.join " " (map word_str cmd)) ;;
  result <- subprocess_run_in
              {| cmd := cmd; cwd := default (idevice_ffi_dir self) cwd;
                 env := env |} ;;
  if decide (returncode result = 0) then ret result
  else
    let e := CalledProcessError cmd result in
    print ("Command failed: " +:+ exn_str e) ;;
    print ("stdout: " +:+ stdout result) ;;
    print ("stderr: " +:+ stderr result) ;;
    raise e.

(** The clean environment dict: [os.getlogin()] is an argument of
    [os.environ.get('USER', ...)], so it is called whether or not [USER]
    is set. *)
Definition clean_env_in : M (gmap string string) :=
  getlogin_in ;; clean_env.

Definition install_rust_src_in (self : Builder) : M unit :=
  try_except
    (env <- clean_env_in ;;
     run_command_in self
       [Str "rustup"; Str "component"; Str "add"; Str "rust-src";
        Str "--toolchain"; Str "nightly"]
       (Some (project_root self)) (Some env) ;;
     ret tt)
    is_CalledProcessError
    (λ _, print "rust-src component might already be installed").

Definition install_target_in (self : Builder) (env : gmap string string)
    (target : string) (_ : unit) : M unit :=
  try_except
    (run_command_in self [Str "rustup"; Str "target"; Str "add"; Str target]
       (Some (project_root self)) (Some env) ;;
     ret tt)
    is_CalledProcessError
    (λ _, print ("Target " +:+ target +:+
                 " might already be installed or not required on this toolchain")).

Definition install_rust_targets_in (self : Builder) : M unit :=
  try_except
    (env <- clean_env_in ;;
     for_in install_targets (install_target_in self env) tt)
    any_Exception
    (λ e, print ("Warning: failed to ensure some targets: " +:+ exn_str e)).

(** [prepare_build_environment] *)
Definition prepare_build_environment_in (self : Builder) : M unit :=
  prepare_directories self ;;
  install_rust_src_in self ;;
  install_rust_targets_in self ;;
  print "Using nightly Rust with -Zbuild-std for tvOS targets (Tier 3)".

(** What [main] does inside its [try].  The builds and the assembly are
    those of [run_body]: their programs are taken to start. *)
Definition run_body_in (root : Path) (sdk_arg : option string) : M unit :=
  let builder := init root in
  print "🔧 Preparing build environment..." ;;
  prepare_build_environment_in builder ;;
  match truthy sdk_arg with
  | Some sdk_name => build_active_platform builder sdk_name ;; ret tt
  | None => build_all_platforms builder ;; ret tt
  end.

Definition run_in (sdk_arg : option string) : M unit :=
  λ w, run_body_in (script_dir w) sdk_arg w.

(** [main] *)
Definition main_in (sdk_arg : option string) (w : World) : Z * World :=
  match run_in sdk_arg w with
  | (Ok _, w') => (0, w')
  | (Raise e, w') => (1, log (failure_line e) w')
  end.

Definition emitted_in (sdk_arg : option string) (w : World) : list Event :=
  drop (length (trace w)) (trace (main_in sdk_arg w).2).

Lemma spec_subprocess_run_in (c : Call) Q :
  (∀ o, Q (Ok o) [Ran c o]) → (∀ msg, Q (Raise (OSError msg)) []) →
  spec (subprocess_run_in c) Q.
Proof.
  intros Hok He w. unfold subprocess_run_in.
  destruct (cannot_start F (trace w) c) as [msg|].
  - exists []. rewrite app_nil_r. split; [done|]. apply He.
  - by apply spec_subprocess_run.
Qed.

Lemma spec_run_command_in self c cw e Q :
  (∀ o, Q (run_result c o) (run_events self c cw e o)) →
  (∀ msg, Q (Raise (OSError msg)) [Printed (running_line c)]) →
  spec (run_command_in self c cw e) Q.
Proof.
  intros H He. unfold run_command_in. spec_step. spec_step. spec_step.
  apply spec_subprocess_run_in; [|intros msg; apply He].
  intros o. cbn. specialize (H o).
  unfold run_result, run_events, failure_report in H.
  destruct (decide (returncode o = 0)); spec_steps; by ev_simpl.
Qed.

Lemma spec_clean_env_in Q :
  (∀ e, is_clean e → Q (Ok e) []) → (∀ msg, Q (Raise (OSError msg)) []) →
  spec clean_env_in Q.
Proof.
  intros Hok He. unfold clean_env_in. apply spec_bind.
  intros w. exists []. rewrite app_nil_r. unfold getlogin_in.
  destruct (no_login F (trace w)) as [msg|]; cbn; (split; [done|]);
    [apply He|].
  by apply spec_clean_env.
Qed.

End Faulty.

(** With nothing refused the preparation is the one of the script. *)
Lemma run_in_no_faults (sdk_arg : option string) (w : World) :
  run_in no_faults sdk_arg w = run sdk_arg w.
Proof. reflexivity. Qed.

Lemma main_in_no_faults (sdk_arg : option string) (w : World) :
  main_in no_faults sdk_arg w = main sdk_arg w.
Proof. reflexivity. Qed.

(** The [rust-src] attempt was not made: the login name or the start of
    [rustup] was refused, and the exception is not caught. *)
Definition rust_src_unattempted {A} (r : Result A) (evs : list Event)
    : Prop :=
  ∃ msg, r = Raise (OSError msg) ∧
         (evs = [] ∨ evs = [Printed (running_line rust_src_cmd)]).

Lemma install_rust_src_in_spec F self :
  spec (install_rust_src_in F self)
    (λ r evs, rust_src_unattempted r evs ∨
              (r = Ok tt ∧
               ∃ e o, evs = attempt self rust_src_cmd rust_src_note e o)).
Proof.
  unfold install_rust_src_in. apply spec_try_except, spec_bind.
  apply spec_clean_env_in; [|intros msg; left; exists msg; by split; [|left]].
  intros e _. apply spec_bind, spec_run_command_in.
  2:{ intros msg. cbn. left. exists msg. by split; [|right]. }
  intros o. unfold run_result, attempt.
  destruct (decide (returncode o = 0)); simpl.
  - spec_step. right. split; [done|]. exists e, o. by finish_events.
  - spec_step. right. split; [done|]. exists e, o. by finish_events.
Qed.

Lemma install_target_in_spec F self e target :
  spec (install_target_in F self e target tt)
    (λ r evs,
       (r = Ok tt ∧
        ∃ o, evs = attempt self (target_add_cmd target)
                     (target_note target) e o) ∨
       (∃ msg, r = Raise (OSError msg) ∧
               evs = [Printed (running_line (target_add_cmd target))])).
Proof.
  unfold install_target_in. apply spec_try_except, spec_bind.
  apply spec_run_command_in; [|intros msg; cbn; right; by exists msg].
  intros o. unfold run_result, attempt.
  destruct (decide (returncode o = 0)); simpl.
  - spec_step. left. split; [done|]. exists o. by finish_events.
  - spec_step. left. split; [done|]. exists o. by finish_events.
Qed.

(** How the loop over the targets ended: after the last target; or at a
    target for which [rustup] could not be started, with the warning of
    the outer handler; or before the first, the login name refused. *)
Definition targets_cut (ts : list string) (warning : list Event) : Prop :=
  (ts = install_targets ∧ warning = []) ∨
  (∃ t post msg,
     install_targets = ts ++ t :: post ∧
     warning = [Printed (running_line (target_add_cmd t));
                Printed (warning_line msg)]) ∨
  (ts = [] ∧ ∃ msg, warning = [Printed (warning_line msg)]).

Lemma install_rust_targets_in_spec F self :
  spec (install_rust_targets_in F self)
    (λ r evs, r = Ok tt ∧
              ∃ e ts os warning,
                length os = length ts ∧ targets_cut ts warning ∧
                evs = target_attempts self e ts os ++ warning).
Proof.
  unfold install_rust_targets_in. apply spec_try_except, spec_bind.
  apply spec_clean_env_in.
  2:{ intros msg. cbn. apply spec_print. split; [done|].
      exists ∅, [], [], [Printed (warning_line msg)].
      split; [done|]. split; [|done]. right. right. split; [done|].
      by exists msg. }
  intros e _. eapply spec_conseq.
  { apply (spec_for_in
             (λ pre (_ : unit) evs, ∃ os, length os = length pre ∧
                                     evs = target_attempts self e pre os)
             (λ ex evs, ∃ pre t post os msg,
                install_targets = pre ++ t :: post ∧
                length os = length pre ∧ ex = OSError msg ∧
                evs = target_attempts self e pre os ++
                      [Printed (running_line (target_add_cmd t))]))
      with (done := []) (evs0 := []); [|by exists []].
    intros pre x post [] evs Heq (os & Hlen & ->).
    eapply spec_conseq; [apply install_target_in_spec|].
    intros r evs2 [(-> & o & ->)|(msg & -> & ->)].
    - exists (os ++ [o]). split.
      + rewrite !length_app. simpl. lia.
      + unfold target_attempts. rewrite zip_with_app by done.
        rewrite concat_app. simpl. by rewrite app_nil_r.
    - by exists pre, x, post, os, msg. }
  intros [[]|ex] evs; simpl.
  - intros (os & Hlen & ->). split; [done|].
    exists e, install_targets, os, []. rewrite app_nil_r.
    split; [done|]. split; [by left|done].
  - intros (pre & t & post & os & msg & Heq & Hlen & -> & ->). cbn.
    apply spec_print. split; [done|].
    exists e, pre, os,
      [Printed (running_line (target_add_cmd t)); Printed (warning_line msg)].
    split; [done|]. split.
    + right. left. by exists t, post, msg.
    + by rewrite <- (assoc_L (++)).
Qed.

Lemma prepare_build_environment_in_spec F self :
  spec (prepare_build_environment_in F self)
    (λ r evs,
       setup_failed r evs ∨ rust_src_unattempted r evs ∨
       (r = Ok tt ∧
        ∃ e1 e2 o ts os warning,
          length os = length ts ∧ targets_cut ts warning ∧
          evs = attempt self rust_src_cmd rust_src_note e1 o ++
                target_attempts self e2 ts os ++ warning ++
                [Printed nightly_note])).
Proof.
  unfold prepare_build_environment_in. spec_step.
  apply spec_silent; [apply silent_prepare_directories|intros []|];
    [|intros e He; left; split; [done|by exists e]].
  cbn. spec_step. eapply spec_conseq; [apply install_rust_src_in_spec|].
  intros r evs1 [Hun|(-> & e1 & o & ->)]; [destruct r; [|by right; left]|].
  { by destruct Hun as (? & [=] & _). }
  spec_step. eapply spec_conseq; [apply install_rust_targets_in_spec|].
  intros r evs2 (-> & e2 & ts & os & warning & Hlen & Hcut & ->). spec_step.
  right. right. split; [done|]. exists e1, e2, o, ts, os, warning.
  split; [done|]. split; [done|]. by rewrite <- !(assoc_L (++)).
Qed.

(** What a full run emits up to its first build once the [rust-src]
    attempt was made: the line of the preparation, that attempt, the
    attempts for the targets up to where the loop ended, each failed one
    with its note, the warning if the loop was cut, the note on tvOS and
    then the banner of the first platform. *)
Definition installs_then_builds (self : Builder) (evs : list Event) : Prop :=
  ∃ e1 e2 o ts os warning rest,
    length os = length ts ∧ targets_cut ts warning ∧
    evs = Printed preparing_line ::
          attempt self rust_src_cmd rust_src_note e1 o ++
          target_attempts self e2 ts os ++ warning ++
          Printed nightly_note :: Printed first_banner :: rest ∧
    (returncode o ≠ 0 → Printed rust_src_note ∈ evs) ∧
    Forall2 (λ target o', returncode o' ≠ 0 →
                          Printed (target_note target) ∈ evs)
            ts os.

Lemma run_body_in_installs F root :
  spec (run_body_in F root None)
    (λ r evs,
       (evs = [Printed preparing_line] ∧ ∃ e, r = Raise e ∧ os_error e) ∨
       (evs = [Printed preparing_line; Printed (running_line rust_src_cmd)] ∧
        ∃ msg, r = Raise (OSError msg)) ∨
       installs_then_builds (init root) evs).
Proof.
  unfold run_body_in. cbn [truthy]. spec_step. spec_step. spec_step.
  eapply spec_conseq; [apply prepare_build_environment_in_spec|].
  intros r evs
    [(-> & e & -> & He)
    |[(msg & -> & [->| ->])
     |(-> & e1 & e2 & o & ts & os & warning & Hlen & Hcut & ->)]].
  { left. split; [done|]. by exists e. }
  { left. split; [done|]. by exists (OSError msg). }
  { right. left. split; [done|]. by exists msg. }
  assert (∀ rest, installs_then_builds (init root)
                    ([Printed preparing_line] ++
                     (attempt (init root) rust_src_cmd rust_src_note e1 o ++
                      target_attempts (init root) e2 ts os ++ warning ++
                      [Printed nightly_note]) ++
                     Printed first_banner :: rest)) as Hgoal.
  { intros rest. exists e1, e2, o, ts, os, warning, rest.
    split; [done|]. split; [done|]. split.
    { cbn. by rewrite <- !(assoc_L (++)). }
    split.
    - intros Hnz. apply elem_of_cons. right. apply elem_of_app. left.
      apply elem_of_app. left. by apply elem_of_attempt.
    - eapply Forall2_impl; [by apply notes_target_attempts|].
      cbn. intros t o' H Hnz. apply elem_of_cons. right.
      apply elem_of_app. left. apply elem_of_app. right.
      apply elem_of_app. left. by apply H. }
  spec_step. eapply spec_conseq; [apply build_all_platforms_banner|].
  intros r evs (rest & ->). destruct r as [p|e].
  - spec_step. right. right. rewrite app_nil_r. apply Hgoal.
  - right. right. apply Hgoal.
Qed.

Module Demo9.
Import Demo.

(** Every [rustup] command fails; the other tools succeed. *)
Definition rustup_fails (history : list Event) (c : Call) : Outcome :=
  if decide (program c = "rustup")
  then failure 1 "error: toolchain 'nightly' is not installed"
  else good_tools history c.

Definition world : World := Demo.world checkout rustup_fails.

(** The system has no process to give when the second target is to be
    added. *)
Definition no_process : Faults :=
  {| cannot_start := λ _ c,
       if decide (cmd c = target_add_cmd "aarch64-apple-ios-sim")
       then Some "[Errno 35] Resource temporarily unavailable"
       else None;
     no_login := λ _, None |}.

(** [rustup] is not installed. *)
Definition no_rustup : Faults :=
  {| cannot_start := λ _ c,
       if decide (program c = "rustup")
       then Some "[Errno 2] No such file or directory: 'rustup'"
       else None;
     no_login := λ _, None |}.

End Demo9.

(** The claim as the specification words it: once the directories are
    prepared, each of the eight attempts is made whatever became of the
    others, and the first build is begun. *)
Definition attempts_independent (F : Faults) (w : World) : Prop :=
  (∃ u, (prepare_directories (init (script_dir w)) w).1 = Ok u) →
  Forall (λ c, running_line c ∈ prints (emitted_in F None w))
         (rust_src_cmd :: map target_add_cmd install_targets) ∧
  first_banner ∈ prints (emitted_in F None w).

Lemma failed_start_skips_targets :
  ¬ attempts_independent Demo9.no_process Demo.fresh.
Proof.
  intros H. destruct H as [Hall _]; [by eexists; vm_compute|].
  rewrite Forall_forall in Hall.
  specialize (Hall (target_add_cmd "x86_64-apple-ios")).
  revert Hall. by_compute.
Qed.

(** C9, amended: an installation attempt that exits non-zero aborts
    nothing, and neither does a target that cannot be attempted, but the
    attempts for the targets are not independent.  A full run
    - fails before any attempt is begun (the directories could not be
      prepared, or the login name could not be determined), or
    - is aborted because [rustup] could not be started for [rust-src], or
    - makes the [rust-src] attempt and then the attempts for the targets
      in order, whatever the exit status of each, printing the note of
      every one that exited non-zero; when [rustup] cannot be started for
      a target (or the login name cannot be determined) it prints a
      warning and skips the targets that remain; in every case it goes
      on to the note on tvOS and to the build of the first platform. *)
Theorem install_attempts_outcome (F : Faults) (w : World) :
  (steps (run_in F None) w = [Printed preparing_line] ∧
   ∃ e, (run_in F None w).1 = Raise e ∧ os_error e) ∨
  (steps (run_in F None) w
   = [Printed preparing_line; Printed (running_line rust_src_cmd)] ∧
   ∃ msg, (run_in F None w).1 = Raise (OSError msg)) ∨
  installs_then_builds (init (script_dir w)) (steps (run_in F None) w).
Proof.
  exact (spec_steps _ _ w (run_body_in_installs F (script_dir w))).
Qed.

(** With every [rustup] command failing the run still succeeds, after
    eight failed attempts. *)
Example demo_failed_installs :
  (main None Demo9.world).1 = 0 ∧
  map (λ co : Call * Outcome, (program co.1, returncode co.2))
      (take 9 (runs (emitted None Demo9.world)))
  = [("rustup", 1); ("rustup", 1); ("rustup", 1); ("rustup", 1);
     ("rustup", 1); ("rustup", 1); ("rustup", 1); ("rustup", 1);
     ("cargo", 0)].
Proof. by vm_compute. Qed.

(** When the second target cannot be attempted the five that follow it
    are skipped, and the run succeeds. *)
Example demo_skipped_targets :
  (main_in Demo9.no_process None Demo.fresh).1 = 0 ∧
  take 6 (prints (emitted_in Demo9.no_process None Demo.fresh))
  = [ preparing_line;
      "Running: rustup component add rust-src --toolchain nightly";
      "Running: rustup target add aarch64-apple-ios";
      "Running: rustup target add aarch64-apple-ios-sim";
      "Warning: failed to ensure some targets: [Errno 35] Resource temporarily unavailable";
      "Using nightly Rust with -Zbuild-std for tvOS targets (Tier 3)" ].
Proof. by vm_compute. Qed.

(** Without [rustup] the run ends at the first attempt, with status 1:
    the handler of the [rust-src] attempt catches [CalledProcessError]
    only. *)
Example demo_no_rustup :
  (main_in Demo9.no_rustup None Demo.fresh).1 = 1 ∧
  prints (emitted_in Demo9.no_rustup None Demo.fresh)
  = [ preparing_line;
      "Running: rustup component add rust-src --toolchain nightly";
      "❌ Build failed: [Errno 2] No such file or directory: 'rustup'" ].
Proof. by vm_compute. Qed.

(** *** C10 *)

(** C10: a platform without its library is skipped.  When the build
    output of an item holds no [libidevice_ffi.a], the round of the
    assembler for that item returns the entries it was given and leaves
    the world as it was: no directory is made, no entry is appended,
    nothing is printed and no exception is raised. *)
Theorem missing_library_skipped (self : Builder) (xcframework_path : Path)
    (platform : string) (build_path : Path) (libs : list LibraryEntry)
    (w : World) :
  disk w !! (build_path // lib_name) = None →
  add_platform self xcframework_path (platform, build_path) libs w
  = (Ok libs, w).
Proof.
  intros Hlib. unfold add_platform, bind, path_exists, Fs.exists_.
  by rewrite Hlib.
Qed.

Module Demo10.
Import Demo.

(** The build output of iOS holds a library, that of macOS is empty. *)
Definition empty_out : Path := root // "empty".

Definition half_built : FS := <[empty_out := Dir]> Demo2.built.

Definition world : World := Demo.world half_built good_tools.

End Demo10.

Lemma missing_library_skipped_witness :
  add_platform Demo.self (bundle_path Demo.self)
    ("macosx", Demo10.empty_out) [] Demo10.world
  = (Ok [], Demo10.world).
Proof. apply missing_library_skipped. by vm_compute. Defined.

(** Two platforms are passed in, one entry is in the manifest, and the
    assembler returns normally. *)
Example demo_fewer_entries :
  (create_xcframework Demo.self
     [("iphoneos", Demo2.out); ("macosx", Demo10.empty_out)]
     Demo10.world).1 = Ok (bundle_path Demo.self) ∧
  (map LibraryIdentifier ∘ AvailableLibraries) <$>
    written_plist Demo.self
      [("iphoneos", Demo2.out); ("macosx", Demo10.empty_out)] Demo10.world
  = Some ["ios-arm64"].
Proof. by vm_compute. Qed.

(** ** Further properties of the script *)

(** *** [get_lib_archs] *)

(** X2: [get_lib_archs] never raises.  It runs one [lipo -info] on the
    library, from the project root and with the inherited environment;
    when the tool exits non-zero the result is the empty list, otherwise
    it is what the output parses to. *)
Theorem get_lib_archs_never_raises (self : Builder) (lib_path : Path) :
  spec (get_lib_archs self lib_path)
    (λ r evs,
       ∃ o,
         runs evs = [({| cmd := [Str "lipo"; Str "-info"; PathArg lib_path];
                         cwd := project_root self;
                         env := None |}, o)] ∧
         r = Ok (if decide (returncode o = 0) then parse_archs o else [])).
Proof.
  eapply spec_conseq; [apply get_lib_archs_spec|].
  intros r evs (_ & o & Hr & ->). by exists o.
Qed.

(** *** [main]: errors before any build *)

(** X3: When the crate directory [ffi] is missing next to the script, the
    process prints the line of the preparation and the failure line,
    exits with status 1, runs no command and leaves the disk as it was
    (in particular an older build directory and an older bundle stay). *)
Theorem missing_crate_directory (sdk_arg : option string) (w : World) :
  disk w !! (script_dir w // "ffi") = None →
  (main sdk_arg w).1 = 1 ∧
  emitted sdk_arg w
  = [ Printed "🔧 Preparing build environment...";
      Printed ("❌ Build failed: idevice ffi directory not found at: " +:+
               path_str (script_dir w // "ffi")) ] ∧
  disk (main sdk_arg w).2 = disk w.
Proof.
  intros Hffi.
  assert (run sdk_arg w
          = (Raise (FileNotFoundError
                      ("idevice ffi directory not found at: " +:+
                       path_str (script_dir w // "ffi"))),
             log (Printed "🔧 Preparing build environment...") w)) as Hrun.
  { unfold run, run_body, prepare_build_environment, prepare_directories,
      bind, print, path_exists, Fs.exists_. cbn. by rewrite Hffi. }
  unfold emitted, main. rewrite Hrun. cbn. split; [done|]. split; [|done].
  by rewrite <- (assoc_L (++)), drop_app_length.
Qed.

Module DemoX.
Import Demo.

(** A disk without the crate, and with an older bundle. *)
Definition no_crate : FS :=
  list_to_map
    [ ([], Dir); (["Users"], Dir); (["Users"; "dev"], Dir); (root, Dir);
      (root // "xcframework", Dir);
      (bundle_path self, Dir);
      (bundle_path self // "Info.plist", File (Plain (Raw "old"))) ].

Definition no_crate_world : World := Demo.world no_crate good_tools.

End DemoX.

Lemma missing_crate_directory_witness :
  (main None DemoX.no_crate_world).1 = 1 ∧
  disk (main None DemoX.no_crate_world).2 = DemoX.no_crate.
Proof.
  destruct (missing_crate_directory None DemoX.no_crate_world)
    as (Hst & _ & Hdisk); [by vm_compute|]. by split.
Defined.

(** X4: An SDK name that is not one of the six, in any letter case, is
    rejected only after the preparation: the process exits with status 1,
    it has run nothing but [rustup] commands and written no file, and
    unless the preparation itself failed its last line reports the name. *)
Theorem unsupported_sdk_rejected (sdk_name : string) (w : World) :
  sdk_name ≠ EmptyString →
  dict_get platform_map (Py.lower sdk_name) = None →
  (main (Some sdk_name) w).1 = 1 ∧
  Forall (λ co, program co.1 = "rustup") (runs (emitted (Some sdk_name) w)) ∧
  writes (emitted (Some sdk_name) w) = [] ∧
  (runs (emitted (Some sdk_name) w) = [] ∨
   last (emitted (Some sdk_name) w)
   = Some (Printed ("❌ Build failed: Unsupported SDK: " +:+ sdk_name))).
Proof.
  intros Hne Hmap.
  assert (spec (run (Some sdk_name))
            (λ r evs,
               writes evs = [] ∧
               Forall (λ co, program co.1 = "rustup") (runs evs) ∧
               ∃ e, r = Raise e ∧
                    (runs evs = [] ∨
                     e = ValueError ("Unsupported SDK: " +:+ sdk_name))))
    as Hspec.
  { apply spec_run. intros root. unfold run_body.
    replace (truthy (Some sdk_name)) with (Some sdk_name)
      by (by destruct sdk_name).
    spec_step. spec_step. spec_step.
    eapply spec_conseq.
    { apply spec_and; [apply prepare_build_environment_runs
                      |apply prepare_build_environment_spec]. }
    intros r evs ((Hw & Hall) & Hprep).
    assert (Forall (λ co : Call * Outcome, program co.1 = "rustup")
              (runs evs)) as Hrustup.
    { eapply Forall_impl; [exact Hall|]. intros [c o] [Hc|[t Hc]];
        unfold program; cbn in *; by rewrite Hc. }
    destruct Hprep as [(-> & e & -> & _)|(-> & _)].
    - ev_norm. split; [done|]. split; [constructor|].
      exists e. split; [done|]. by left.
    - spec_step. unfold build_active_platform. rewrite Hmap. cbn.
      spec_step. ev_norm. rewrite Hw. split; [done|]. split; [done|].
      eexists. split; [done|]. by right. }
  destruct (main_spec (Some sdk_name) w _ Hspec)
    as (r & (Hw & Hall & e & -> & He) & Hst & ->).
  rewrite runs_app, writes_app, Hw, runs_cons, runs_nil, writes_cons,
    writes_nil, !app_nil_r.
  split; [done|]. split; [done|]. split; [done|].
  destruct He as [?| ->]; [by left|right]. by rewrite last_snoc.
Qed.

Lemma unsupported_sdk_rejected_witness :
  (main (Some "WatchOS") Demo.fresh).1 = 1.
Proof.
  apply (unsupported_sdk_rejected "WatchOS" Demo.fresh); by vm_compute.
Defined.

(** *** The manifest and the exit status *)

Lemma manifest_after_quiet {A B} self (m : M A) (f : A → M B) :
  spec m (λ _ evs, writes evs = []) →
  (∀ a, spec (f a) (manifest_or_nothing self)) →
  spec (bind m f) (manifest_or_nothing self).
Proof.
  intros Hm Hf. apply spec_bind. eapply spec_conseq; [exact Hm|].
  intros [a|e] evs1 Hw; cbn; [|by left].
  eapply spec_conseq; [apply Hf|]. intros r evs2 H2.
  unfold manifest_or_nothing in *. rewrite writes_app, Hw. cbn.
  destruct r as [b|e].
  - destruct H2 as (? & plist & ? & ?). split; [done|]. exists plist.
    split; [|done]. apply elem_of_app. by right.
  - destruct H2 as [?|[? ?]]; [by left|]. right. split; [done|].
    apply elem_of_app. by right.
Qed.

Lemma manifest_ret_tt {A} self (m : M A) :
  spec m (manifest_or_nothing self) →
  spec (m ;; ret tt) (manifest_or_nothing self).
Proof.
  intros H. apply spec_bind. eapply spec_conseq; [exact H|].
  intros [a|e] evs Hw; cbn; [|done]. apply spec_ret.
  by rewrite app_nil_r.
Qed.

Lemma quiet_build_post {A} K (m : M A) :
  spec m (build_post K) → spec m (λ _ evs, writes evs = []).
Proof. intros H. eapply spec_conseq; [exact H|]. by intros r evs (? & _). Qed.

Lemma create_xcframework_manifest self platform_builds :
  spec (create_xcframework self platform_builds) (manifest_or_nothing self).
Proof.
  eapply spec_conseq; [apply create_xcframework_spec|].
  by intros r evs (_ & _ & H).
Qed.

Lemma run_body_manifest root sdk_arg :
  spec (run_body root sdk_arg) (manifest_or_nothing (init root)).
Proof.
  unfold run_body. apply manifest_after_quiet; [by apply spec_print|].
  intros _. apply manifest_after_quiet.
  { eapply spec_conseq; [apply prepare_build_environment_runs|].
    by intros r evs (? & _). }
  intros _. destruct (truthy sdk_arg) as [sdk_name|].
  - apply manifest_ret_tt. unfold build_active_platform.
    destruct (truthy _) as [platform|]; [|apply spec_raise; by left].
    apply manifest_after_quiet; [by apply spec_getitem|]. intros cfg.
    apply manifest_after_quiet; [by apply spec_print|]. intros _.
    apply manifest_after_quiet.
    { eapply quiet_build_post, build_platform_post. }
    intros p. apply create_xcframework_manifest.
  - apply manifest_ret_tt. unfold build_all_platforms.
    apply manifest_after_quiet; [|intros; apply create_xcframework_manifest].
    apply (quiet_build_post (λ _, True)), build_post_for_in.
    intros platform pbs _. eapply spec_conseq; [apply build_one_post|].
    intros r evs (Hw & _ & Hf). split; [done|]. split; [|done].
    by apply Forall_forall.
Qed.

Lemma main_spec_at sdk_arg w Q :
  spec (run_body (script_dir w) sdk_arg) Q →
  ∃ r, Q r (steps (run sdk_arg) w) ∧
       match r with
       | Ok _ => (main sdk_arg w).1 = 0 ∧
                 emitted sdk_arg w = steps (run sdk_arg) w
       | Raise e => (main sdk_arg w).1 = 1 ∧
                    emitted sdk_arg w = steps (run sdk_arg) w ++ [failure_line e]
       end.
Proof.
  intros H. pose proof (spec_steps _ _ w H) as HQ.
  pose proof (spec_trace _ _ w H) as Ht.
  change (run_body (script_dir w) sdk_arg w) with (run sdk_arg w) in *.
  change (steps (run_body (script_dir w) sdk_arg) w)
    with (steps (run sdk_arg) w) in *.
  unfold emitted, main.
  remember (steps (run sdk_arg) w) as evs eqn:Hevs. clear Hevs.
  destruct (run sdk_arg w) as [[[]|e] w']; cbn [fst snd] in *;
    eexists; (split; [exact HQ|]); cbn [fst snd]; (split; [done|]).
  - by rewrite Ht, drop_app_length.
  - cbn. by rewrite Ht, <- (assoc_L (++)), drop_app_length.
Qed.

(** X5: The complete manifest is the mark of success.  The one file a
    process writes through [open] is the [Info.plist] of the bundle next to
    the script, at most once.  A process that exits with status 0 has
    written it completely, every string of it being one [plistlib]
    accepts; a process that exits with status 1 has not opened it, or has
    abandoned it part-way because a string of it holds a control
    character. *)
Theorem manifest_iff_success (sdk_arg : option string) (w : World) :
  let info := bundle_path (init (script_dir w)) // "Info.plist" in
  let evs := emitted sdk_arg w in
  if decide ((main sdk_arg w).1 = 0)
  then writes evs = [info] ∧
       ∃ plist, Wrote info (PropertyList plist) ∈ evs ∧
                plist_writable plist = true
  else writes evs = [] ∨
       (writes evs = [info] ∧ Wrote info Unfinished ∈ evs).
Proof.
  cbv zeta.
  destruct (main_spec_at sdk_arg w _ (run_body_manifest _ sdk_arg))
    as ([[]|e] & Hw & Hst & ->); rewrite Hst.
  - by rewrite decide_True.
  - rewrite decide_False by done. unfold manifest_or_nothing in Hw.
    rewrite writes_app, writes_cons, writes_nil, app_nil_r.
    destruct Hw as [?|[? ?]]; [by left|]. right. split; [done|].
    apply elem_of_app. by left.
Qed.

(** *** Failing builds *)

(** The commands of the builds: the compiler and the combiner. *)
Definition build_command (c : Call) : Prop :=
  program c = "cargo" ∨ take 2 (cmd c) = [Str "lipo"; Str "-create"].

Definition failed_build (co : Call * Outcome) : Prop :=
  returncode co.2 ≠ 0 ∧ build_command co.1.

(** A failed build command makes the computation raise before anything
    is written. *)
Definition fatal {A} (r : Result A) (evs : list Event) : Prop :=
  Exists failed_build (runs evs) → raised r ∧ writes evs = [].

Definition harmless {A} (r : Result A) (evs : list Event) : Prop :=
  Forall (λ co, ¬ build_command co.1) (runs evs).

Lemma harmless_not_failed {A} (r : Result A) evs :
  harmless r evs → ¬ Exists failed_build (runs evs).
Proof.
  intros Hall (co & Hin & _ & Hb)%Exists_exists.
  unfold harmless in Hall. rewrite Forall_forall in Hall.
  by destruct (Hall co Hin).
Qed.

Lemma fatal_after_harmless {A B} (m : M A) (f : A → M B) :
  spec m (λ r evs, writes evs = [] ∧ harmless r evs) →
  (∀ a, spec (f a) fatal) → spec (bind m f) fatal.
Proof.
  intros Hm Hf. apply spec_bind. eapply spec_conseq; [exact Hm|].
  intros [a|e] evs1 [Hw Hall]; cbn.
  2:{ intros Hex. by destruct (harmless_not_failed _ _ Hall). }
  eapply spec_conseq; [apply Hf|]. intros r evs2 H2.
  unfold fatal. rewrite runs_app, writes_app, Hw.
  intros [H1|H]%Exists_app; [|by apply H2].
  by destruct (harmless_not_failed _ _ Hall).
Qed.

Lemma fatal_after_build {A B} K (m : M A) (f : A → M B) :
  spec m (build_post K) → (∀ a, spec (f a) harmless) →
  spec (bind m f) fatal.
Proof.
  intros Hm Hf. apply spec_bind. eapply spec_conseq; [exact Hm|].
  intros [a|e] evs1 (Hw & _ & Hfail); cbn; [|by intros _; split; [eexists|]].
  eapply spec_conseq; [apply Hf|]. intros r evs2 H2.
  unfold fatal. rewrite runs_app.
  intros [H1|H]%Exists_app; [|by destruct (harmless_not_failed _ _ H2)].
  destruct Hfail as [? [=]].
  eapply Exists_impl; [exact H1|]. by intros co [? _].
Qed.

Lemma fatal_ret_tt {A} (m : M A) : spec m fatal → spec (m ;; ret tt) fatal.
Proof.
  intros H. apply spec_bind. eapply spec_conseq; [exact H|].
  intros [a|e] evs Hq; cbn.
  - apply spec_ret. rewrite app_nil_r. intros Hex.
    by destruct (Hq Hex) as [[? [=]] _].
  - intros Hex. destruct (Hq Hex) as [_ Hw]. split; [by eexists|done].
Qed.

Lemma create_xcframework_harmless self platform_builds :
  spec (create_xcframework self platform_builds) harmless.
Proof.
  eapply spec_conseq; [apply create_xcframework_spec|].
  intros r evs (Hall & _). eapply Forall_impl; [exact Hall|].
  intros [c o] [lib Hc]. cbn in Hc. subst c.
  unfold build_command, program, lipo_info_call, call_of. cbn.
  by intros [?|?].
Qed.

Lemma run_body_fatal root sdk_arg : spec (run_body root sdk_arg) fatal.
Proof.
  unfold run_body. apply fatal_after_harmless.
  { apply spec_print. split; [done|constructor]. }
  intros _. apply fatal_after_harmless.
  { eapply spec_conseq; [apply prepare_build_environment_runs|].
    intros r evs (Hw & Hall). split; [done|].
    eapply Forall_impl; [exact Hall|].
    intros [c o] Hc. cbn in Hc. unfold build_command, program. cbn.
    destruct Hc as [->|[t ->]]; cbn; by intros [?|?]. }
  intros _. destruct (truthy sdk_arg) as [sdk_name|].
  - apply fatal_ret_tt. unfold build_active_platform.
    destruct (truthy _) as [platform|];
      [|by apply spec_raise; intros ?%Exists_nil].
    apply fatal_after_harmless;
      [apply spec_getitem; intros; (split; [done|constructor])|].
    intros cfg. apply fatal_after_harmless;
      [apply spec_print; split; [done|constructor]|].
    intros _. eapply fatal_after_build; [apply build_platform_post|].
    intros p. apply create_xcframework_harmless.
  - apply fatal_ret_tt. unfold build_all_platforms.
    apply (fatal_after_build (λ _, True)).
    + apply build_post_for_in.
      intros platform pbs _. eapply spec_conseq; [apply build_one_post|].
      intros r evs (Hw & _ & Hf). split; [done|]. split; [|done].
      by apply Forall_forall.
    + intros pbs. apply create_xcframework_harmless.
Qed.

(** X6: Every build failure is fatal, for whatever platform and in a full
    run as in a single-platform one: if a [cargo] command or the
    [lipo -create] command exits non-zero, the process exits with status 1
    and has written no manifest. *)
Theorem build_failure_is_fatal (sdk_arg : option string) (w : World) :
  Exists failed_build (runs (emitted sdk_arg w)) →
  (main sdk_arg w).1 = 1 ∧ writes (emitted sdk_arg w) = [].
Proof.
  destruct (main_spec_at sdk_arg w _ (run_body_fatal _ sdk_arg))
    as (r & Hf & Hm).
  assert (runs (emitted sdk_arg w) = runs (steps (run sdk_arg) w)) as ->.
  { destruct r; destruct Hm as [_ ->]; [done|]. by ev_norm. }
  intros Hex. destruct (Hf Hex) as [[e ->] Hw]. destruct Hm as [-> ->].
  split; [done|]. by rewrite writes_app, Hw, writes_cons, writes_nil.
Qed.

Module DemoF.
Import Demo.

(** The combiner fails for the simulator of iOS. *)
Definition lipo_fails (history : list Event) (c : Call) : Outcome :=
  match cmd c with
  | Str "lipo" :: Str "-create" :: _ => failure 1 "fatal error: lipo"
  | _ => good_tools history c
  end.

Definition world : World := Demo.world checkout lipo_fails.

End DemoF.

Lemma build_failure_is_fatal_witness :
  (main (Some "iphonesimulator") DemoF.world).1 = 1.
Proof.
  apply (build_failure_is_fatal (Some "iphonesimulator") DemoF.world).
  unfold failed_build, build_command. by_compute.
Defined.

(** *** [build_platform] and the single-platform run *)

Lemma build_platform_unknown self platform :
  spec (build_platform self platform)
    (λ r evs, dict_get (platforms self) platform = None →
              evs = [] ∧ r = Raise (KeyError platform)).
Proof.
  destruct (dict_get (platforms self) platform) as [cfg|] eqn:Hcfg.
  - eapply spec_conseq; [apply build_platform_post|]. by intros.
  - unfold build_platform, getitem. rewrite Hcfg.
    by apply spec_bind, spec_raise.
Qed.

(** X7: The commands of the build of one platform.  [build_platform] writes
    no file through [open]; each command it runs is a [cargo] build for
    one of the targets configured for the platform, run in the crate
    directory with the clean environment and the deployment target of
    the platform, or the [lipo -create] for the platform; a command that
    exits non-zero makes it raise; and for a key that the table does not
    have it raises [KeyError] without doing anything. *)
Theorem build_platform_commands (self : Builder) (platform : string) :
  spec (build_platform self platform)
    (λ r evs,
       writes evs = [] ∧
       Forall (λ co,
                 (∃ platform_config rust_target e,
                    dict_get (platforms self) platform = Some platform_config ∧
                    rust_target ∈ rust_targets_of platform_config ∧
                    is_clean e ∧
                    co.1 = {| cmd := cargo_cmd rust_target;
                              cwd := idevice_ffi_dir self;
                              env := Some (set_deployment_target platform
                                             platform_config e) |}) ∨
                 (∃ build_paths,
                    co.1 = {| cmd := lipo_cmd
                                       (map (λ build_path,
                                               build_path // lib_name)
                                            build_paths)
                                       (build_dir self //
                                        (platform +:+ "-fat") // lib_name);
                              cwd := project_root self;
                              env := None |}))
              (runs evs) ∧
       (Exists (λ co, returncode co.2 ≠ 0) (runs evs) → ∃ e, r = Raise e) ∧
       (dict_get (platforms self) platform = None →
        evs = [] ∧ r = Raise (KeyError platform))).
Proof.
  eapply spec_conseq.
  { apply spec_and; [apply build_platform_post|apply build_platform_unknown]. }
  intros r evs ((Hw & Hall & Hfail) & Hnone). split_and!; [done| |done..].
  eapply Forall_impl; [exact Hall|]. by intros [c o].
Qed.

Lemma all_runs_weaken {A} (P Q : Call * Outcome → Prop) (m : M A) :
  (∀ co, P co → Q co) → spec m (all_runs P) → spec m (all_runs Q).
Proof.
  intros HP H. eapply spec_conseq; [exact H|]. intros r evs Hall.
  eapply Forall_impl; [exact Hall|]. done.
Qed.

(** The targets a [cargo] command may have in a run for [platform]. *)
Definition compiles_for (platform : string) (co : Call * Outcome) : Prop :=
  program co.1 = "cargo" →
  ∃ platform_config rust_target,
    dict_get platform_table platform = Some platform_config ∧
    rust_target ∈ rust_targets_of platform_config ∧
    cmd co.1 = cargo_cmd rust_target.

(** X8: A run with [--sdk] builds one platform only.  The SDK name is
    matched whatever its letter case, and every [cargo] command of the
    run is a build for one of the targets configured for the platform
    named. *)
Theorem single_platform_run (sdk_name platform : string) (w : World) :
  sdk_name ≠ EmptyString →
  dict_get platform_map (Py.lower sdk_name) = Some platform →
  Forall (compiles_for platform) (runs (emitted (Some sdk_name) w)).
Proof.
  intros Hne Hmap.
  assert (spec (run (Some sdk_name)) (all_runs (compiles_for platform)))
    as Hspec.
  { apply spec_run. intros root. unfold run_body.
    replace (truthy (Some sdk_name)) with (Some sdk_name)
      by (by destruct sdk_name).
    apply all_runs_bind; [apply all_runs_print|]. intros _.
    apply all_runs_bind.
    { eapply spec_conseq; [apply prepare_build_environment_runs|].
      intros r evs (_ & Hall). eapply Forall_impl; [exact Hall|].
      intros [c o] Hc Hcargo. cbn in *. unfold program in Hcargo.
      by destruct Hc as [Hc|[t Hc]]; rewrite Hc in Hcargo. }
    intros _. apply all_runs_bind; [|intros; apply all_runs_ret].
    unfold build_active_platform. rewrite Hmap.
    assert (truthy (Some platform) = Some platform) as ->.
    { revert Hmap. generalize (Py.lower sdk_name). intros k. cbn.
      repeat (case_decide; [by intros [= <-]|]). done. }
    apply all_runs_bind; [apply all_runs_getitem|]. intros cfg.
    apply all_runs_bind; [apply all_runs_print|]. intros _.
    apply all_runs_bind.
    - eapply all_runs_build_post; [|apply build_platform_post].
      intros c o [(pc & t & e & Hpc & Ht & _ & ->)|(bps & ->)] Hcargo.
      + by exists pc, t.
      + by unfold program, lipo_call, call_of in Hcargo.
    - intros p. eapply all_runs_weaken; [|apply create_xcframework_harmless].
      intros co Hnb Hcargo. destruct Hnb. by left. }
  destruct (main_spec (Some sdk_name) w _ Hspec) as (r & Hr & Hm).
  unfold all_runs in Hr. destruct r as [[]|e]; destruct Hm as [_ ->]; [done|].
  by rewrite runs_app, runs_cons, runs_nil, app_nil_r.
Qed.

Lemma single_platform_run_witness :
  Forall (compiles_for "appletvos")
         (runs (emitted (Some "AppleTVOS") Demo.fresh)).
Proof. apply single_platform_run; by vm_compute. Defined.

Example demo_single_platform :
  map (λ co : Call * Outcome, map word_str (drop 1 (take 7 (cmd co.1))))
      (filter (λ co, program co.1 = "cargo")
              (runs (emitted (Some "AppleTVOS") Demo.fresh)))
  = [["+nightly"; "build"; "-Zbuild-std=std,panic_abort"; "--release";
      "--target"; "aarch64-apple-tvos"]].
Proof. by vm_compute. Qed.

(** *** What the preparation leaves alone *)














Module DemoK.
Import Demo.

(** Another framework lies beside an older bundle of this one. *)
Definition other : Path := xcframework_dir self // "plist.xcframework".

Definition shared : FS :=
  <[bundle_path self // "Info.plist" := File (Plain (Raw "old"))]>
    (<[bundle_path self := Dir]>
       (<[other // "Info.plist" := File (Plain (Raw "other"))]>
          (<[other := Dir]>
             (<[xcframework_dir self := Dir]> checkout)))).

Definition world : World := Demo.world shared good_tools.

End DemoK.


Example demo_preparation :
  disk (prepare_build_environment Demo.self DemoK.world).2
    !! (bundle_path Demo.self) = None.
Proof. by vm_compute. Qed.

(** *** The assembler: items that are not skipped *)

Lemma bind_Ok_inv {A B} (m : M A) (f : A → M B) w b :
  (bind m f w).1 = Ok b → ∃ a, (m w).1 = Ok a ∧ (f a (m w).2).1 = Ok b.
Proof. unfold bind. destruct (m w) as [[a|e] w1]; [by exists a|done]. Qed.

Lemma platform_table_keys platform platform_config :
  dict_get platform_table platform = Some platform_config →
  platform ∈ lipo_platforms ∨ platform ∈ fixed_platforms.
Proof.
  intros H. cbn in H.
  repeat (case_decide; [subst platform; first
            [ left; by_compute | right; by_compute ]|]).
  done.
Qed.

Lemma classify_table self platform platform_config lib_path w :
  dict_get platform_table platform = Some platform_config →
  ∃ s, (classify self platform platform_config lib_path w).1 = Ok (Some s).
Proof.
  intros Hk%platform_table_keys.
  pose proof (spec_steps _ _ w
                (classify_spec self platform platform_config lib_path))
    as (_ & Hc).
  destruct Hk as [Hk|Hk].
  - rewrite decide_True in Hc by done. destruct Hc as (o & s & _ & -> & _).
    by exists s.
  - rewrite decide_False, decide_True in Hc; [|done|].
    + destruct Hc as (s & _ & -> & _). by exists s.
    + intros Hl. revert Hk Hl. unfold fixed_platforms, lipo_platforms.
      intros [->|[->|[]%elem_of_nil]%elem_of_cons]%elem_of_cons; by_compute.
Qed.

(** X10: With its library present an item is never passed over in silence.
    For the builder of the script, a round of the assembler's loop whose
    library exists either appends exactly one entry or raises; for a key
    that the platform table does not have it raises [KeyError] at once,
    so the final [else: continue] of the platform chain is never
    reached. *)
Theorem present_library_not_skipped (root xcframework_path : Path)
    (platform : string) (build_path : Path) (libs : list LibraryEntry)
    (w : World) :
  disk w !! (build_path // lib_name) ≠ None →
  (dict_get platform_table platform = None →
   add_platform (init root) xcframework_path (platform, build_path) libs w
   = (Raise (KeyError platform), w)) ∧
  (∀ libs',
     (add_platform (init root) xcframework_path (platform, build_path) libs
        w).1 = Ok libs' →
     ∃ entry, libs' = libs ++ [entry]).
Proof.
  intros Hlib.
  assert (Fs.exists_ (disk w) (build_path // lib_name) = true) as Hex.
  { unfold Fs.exists_. by destruct (disk w !! _). }
  split.
  - intros Hnone. unfold add_platform, bind, path_exists. rewrite Hex.
    cbn [negb]. unfold getitem.
    change (platforms (init root)) with platform_table. by rewrite Hnone.
  - intros libs'. unfold add_platform. intros (ex & Hp & H)%bind_Ok_inv.
    unfold path_exists in Hp, H. cbn in Hp, H. rewrite Hex in Hp.
    injection Hp as <-. cbn in H.
    apply bind_Ok_inv in H as (cfg & Hcfg & H).
    unfold getitem in Hcfg, H. cbn [platforms init] in Hcfg, H.
    destruct (dict_get platform_table platform) as [cfg'|] eqn:Hd; [|done].
    cbn in Hcfg. injection Hcfg as ->. cbn in H.
    apply bind_Ok_inv in H as (found & Hfound & H).
    destruct (classify_table (init root) platform cfg
                (build_path // lib_name) w Hd) as [s Hs].
    rewrite Hs in Hfound. injection Hfound as <-.
    repeat (apply bind_Ok_inv in H as (? & _ & H)).
    cbn in H. injection H as <-. by eexists.
Qed.

Lemma present_library_not_skipped_witness :
  add_platform Demo.self (bundle_path Demo.self) ("watchos", Demo2.out) []
    (Demo.world Demo2.built Demo.good_tools)
  = (Raise (KeyError "watchos"), Demo.world Demo2.built Demo.good_tools).
Proof.
  apply (present_library_not_skipped Demo.root (bundle_path Demo.self)
           "watchos" Demo2.out [] (Demo.world Demo2.built Demo.good_tools));
    by vm_compute.
Defined.

(** *** The directories of the bundle *)

(** The platform that an identifier belongs to. *)
Definition platform_of_identifier (identifier : string) : option string :=
  dict_get
    [ ("tvos-arm64", "appletvos");
      ("tvos-arm64_x86_64-simulator", "appletvsimulator");
      ("tvos-arm64-simulator", "appletvsimulator");
      ("tvos-x86_64-simulator", "appletvsimulator");
      ("tvos-simulator", "appletvsimulator");
      ("ios-arm64", "iphoneos");
      ("ios-arm64_x86_64-simulator", "iphonesimulator");
      ("ios-arm64-simulator", "iphonesimulator");
      ("ios-x86_64-simulator", "iphonesimulator");
      ("ios-simulator", "iphonesimulator");
      ("macos-arm64_x86_64", "macosx");
      ("macos-arm64", "macosx");
      ("macos-x86_64", "macosx");
      ("macos", "macosx");
      ("ios-arm64_x86_64-maccatalyst", "maccatalyst");
      ("ios-arm64-maccatalyst", "maccatalyst");
      ("ios-x86_64-maccatalyst", "maccatalyst");
      ("ios-maccatalyst", "maccatalyst") ]
    identifier.

Lemma library_identifier_platform platform sorted_archs identifier :
  library_identifier platform sorted_archs = Some identifier →
  platform_of_identifier identifier = Some platform.
Proof.
  unfold library_identifier, by_archs.
  repeat (case_decide; [subst platform|]); [..|done];
    repeat case_decide; by intros [= <-].
Qed.

Lemma add_platform_entry self xcframework_path platform build_path libs w
    entry :
  (add_platform self xcframework_path (platform, build_path) libs w).1
  = Ok (libs ++ [entry]) →
  library_identifier platform (SupportedArchitectures entry)
  = Some (LibraryIdentifier entry).
Proof.
  intros Hr.
  pose proof (spec_steps _ _ w
                (add_platform_spec self xcframework_path platform build_path
                   libs)) as (_ & _ & Hok).
  destruct (Hok _ Hr) as [(Heq & _)|(cfg & s & _ & Heq & _ & Hc)].
  - apply (f_equal length) in Heq. rewrite length_app in Heq. cbn in Heq. lia.
  - apply app_inv_head in Heq. injection Heq as ->. cbn.
    repeat case_decide.
    + by destruct Hc as (o & s' & _ & [= <-] & _ & Hid).
    + by destruct Hc as (s' & _ & [= <-] & _ & Hid).
    + by destruct Hc as (_ & [=]).
Qed.

(** X11: No two platforms share a directory of the bundle.  If two rounds of
    the assembler's loop, in whatever worlds, append entries with the
    same [LibraryIdentifier], they are rounds for the same platform key;
    so within one assembly the [mkdir] of a platform directory never
    meets the directory of another platform. *)
Theorem bundle_directories_distinct (self : Builder)
    (xcframework_path1 xcframework_path2 : Path)
    (platform1 platform2 : string) (build_path1 build_path2 : Path)
    (libs1 libs2 : list LibraryEntry) (w1 w2 : World)
    (entry1 entry2 : LibraryEntry) :
  (add_platform self xcframework_path1 (platform1, build_path1) libs1 w1).1
  = Ok (libs1 ++ [entry1]) →
  (add_platform self xcframework_path2 (platform2, build_path2) libs2 w2).1
  = Ok (libs2 ++ [entry2]) →
  LibraryIdentifier entry1 = LibraryIdentifier entry2 →
  platform1 = platform2.
Proof.
  intros H1%add_platform_entry%library_identifier_platform
         H2%add_platform_entry%library_identifier_platform Heq.
  rewrite Heq in H1. congruence.
Qed.

Lemma bundle_directories_distinct_witness :
  ∃ entry,
    (add_platform Demo.self Demo7.bundle ("iphoneos", Demo2.out) []
       Demo7.world).1 = Ok ([] ++ [entry]) ∧
    "iphoneos" = "iphoneos".
Proof.
  eexists. split; [by vm_compute|].
  eapply (bundle_directories_distinct Demo.self Demo7.bundle Demo7.bundle
            "iphoneos" "iphoneos" Demo2.out Demo2.out [] [] Demo7.world
            Demo7.world); [by vm_compute|by vm_compute|done].
Defined.

(** *** The scratch directory of the Metadata Fixer *)

Lemma remove_if_exists_no_dir (p : Path) (w : World) :
  disk (remove_if_exists p w).2 !! p ≠ Some Dir.
Proof.
  unfold remove_if_exists, bind, path_exists, Fs.exists_, rmtree.
  destruct (disk w !! p) as [[d|]|] eqn:Hp; cbn; rewrite ?Hp; cbn;
    rewrite ?lookup_remove_tree, ?decide_True by done; congruence.
Qed.

Lemma try_finally_world {A} (m : M A) (fin : M unit) (w : World) :
  (try_finally m fin w).2 = (fin (m w).2).2.
Proof.
  unfold try_finally. destruct (m w) as [r w1]. cbn.
  by destruct (fin w1) as [[[]|e] w2].
Qed.

(** X12: The Metadata Fixer leaves no scratch directory behind.  Whatever the
    disk, the archive and the outcomes of [ar] and [vtool], and whether
    the fixer returns or raises, there is no directory [temp_objects]
    beside the library afterwards. *)
Theorem fixer_leaves_no_scratch (self : Builder) (lib_path : Path)
    (platform : string) (w : World) :
  disk (fix_tvos_platform_metadata self lib_path platform w).2
    !! (parent lib_path // "temp_objects") ≠ Some Dir.
Proof.
  unfold fix_tvos_platform_metadata. cbv zeta.
  set (temp := parent lib_path // "temp_objects").
  unfold bind at 1. unfold print at 1. cbn [fst snd].
  set (w1 := log _ w). unfold bind at 1.
  pose proof (remove_if_exists_no_dir temp w1) as Hrm.
  destruct (remove_if_exists temp w1) as [[[]|e] w2]; cbn [fst snd] in *;
    [|done].
  unfold bind at 1.
  assert (match mkdir temp false false w2 with
          | (Ok _, _) => True
          | (Raise _, w3) => w3 = w2
          end) as Hmk.
  { unfold mkdir. destruct (disk w2 !! temp) as [[|]|]; cbn; try done.
    by destruct (disk w2 !! parent temp) as [[|]|]. }
  destruct (mkdir temp false false w2) as [[[]|e] w3]; cbn [fst snd];
    [|by subst w3].
  rewrite try_finally_world. apply remove_if_exists_no_dir.
Qed.

(** *** The output of a per-target build *)

(** [grows m]: [m] removes nothing from the disk. *)
Definition grows {A} (m : M A) : Prop :=
  ∀ w q, disk w !! q ≠ None → disk (m w).2 !! q ≠ None.

Lemma grows_ret {A} (a : A) : grows (ret a).
Proof. by intros w q. Qed.

Lemma grows_print line : grows (print line).
Proof. by intros w q. Qed.

Lemma grows_path_exists p : grows (path_exists p).
Proof. by intros w q. Qed.

Lemma grows_bind {A B} (m : M A) (f : A → M B) :
  grows m → (∀ a, grows (f a)) → grows (bind m f).
Proof.
  intros Hm Hf w q Hq. unfold bind. specialize (Hm w q Hq).
  destruct (m w) as [[a|e] w1]; cbn in *; [|done]. by apply Hf.
Qed.

Lemma make_dirs_grows (todo : list Path) (fs fs' : FS) (q : Path) :
  make_dirs todo fs = inr fs' → fs !! q ≠ None → fs' !! q ≠ None.
Proof.
  revert fs. induction todo as [|p todo IH]; intros fs; cbn.
  - by intros [= <-].
  - destruct (fs !! p) as [[|]|] eqn:Hp; [done|by apply IH|].
    intros H Hq. apply (IH _ H).
    destruct (decide (p = q)) as [->|Hne];
      [by rewrite lookup_insert_eq|by rewrite lookup_insert_ne].
Qed.

Lemma insert_grows (fs : FS) (p q : Path) (n : Node) :
  fs !! q ≠ None → <[p := n]> fs !! q ≠ None.
Proof.
  intros Hq. destruct (decide (p = q)) as [->|Hne];
    [by rewrite lookup_insert_eq|by rewrite lookup_insert_ne].
Qed.

Lemma grows_mkdir p parents exist_ok : grows (mkdir p parents exist_ok).
Proof.
  intros w q Hq. unfold mkdir.
  destruct (disk w !! p) as [[|]|]; [done|by destruct exist_ok|].
  destruct parents.
  - destruct (make_dirs _ _) as [e|d] eqn:Hmk; [done|]. cbn.
    by eapply make_dirs_grows.
  - destruct (disk w !! parent p) as [[|]|]; [done| |done]. cbn.
    by apply insert_grows.
Qed.

Lemma grows_copy2 src dst : grows (copy2 src dst).
Proof.
  intros w q Hq. unfold copy2. cbv zeta.
  repeat case_match; try done; cbn; by apply insert_grows.
Qed.

(** A copy that returns has put something at its destination. *)
Lemma copy2_exists src dst w :
  (copy2 src dst w).1 = Ok tt → disk (copy2 src dst w).2 !! dst ≠ None.
Proof.
  unfold copy2. cbv zeta.
  destruct (disk w !! dst) as [[|]|] eqn:Hdst;
    repeat case_match; try done; cbn; intros _;
    first [ by rewrite lookup_insert_eq
          | by apply insert_grows; rewrite Hdst ].
Qed.

Lemma hoare_any {A} (P : World → Prop) (m : M A) : hoare P m (λ _ _, True).
Proof. by intros w _. Qed.

(** X13: A per-target build that returns has left its library.  When
    [build_for_target] returns, what it returns is the directory
    [<build_dir>/<platform>-<arch>], and [libidevice_ffi.a] exists in it,
    so that the existence check of the assembler on this build output
    succeeds. *)
Theorem built_library_exists (self : Builder)
    (platform rust_target arch : string) (w : World) (build_path : Path) :
  (build_for_target self platform rust_target arch w).1 = Ok build_path →
  build_path = build_dir self // (platform +:+ "-" +:+ arch) ∧
  Fs.exists_ (disk (build_for_target self platform rust_target arch w).2)
             (build_path // lib_name) = true.
Proof.
  set (sub := build_dir self // (platform +:+ "-" +:+ arch)).
  set (there := λ w' : World, disk w' !! (sub // lib_name) ≠ None).
  assert (hoare (λ _, True)
            (build_for_target self platform rust_target arch)
            (λ r w', ∀ p, r = Ok p → p = sub ∧ there w')) as Hh.
  { unfold build_for_target. fold sub.
    do 7 (eapply (hoare_bind _ _ _ (λ _ _, True));
          [apply hoare_any|intros ?|done]).
    eapply (hoare_bind _ _ _ (λ r w', r = Ok tt → there w')).
    { intros w0 _ Hr.
      match goal with
      | |- there (copy2 ?s ?d w0).2 =>
          pose proof (copy2_exists s d w0) as Hex;
          destruct (copy2 s d w0) as [[[]|e] w1]; [by apply Hex|done]
      end. }
    2: done.
    intros [] w0 Hw0 p Hp. specialize (Hw0 eq_refl). split.
    - repeat (apply bind_Ok_inv in Hp as (? & _ & Hp)). by injection Hp.
    - revert Hw0.
      match goal with
      | |- there w0 → there (?m w0).2 =>
          assert (grows m) as Hg; [|apply Hg]
      end.
      apply grows_bind; [apply grows_path_exists|]. intros ex.
      apply grows_bind; [|intros; apply grows_ret]. destruct ex.
      + apply grows_bind; [apply grows_mkdir|]. intros _. apply grows_copy2.
      + apply grows_print. }
  intros Hr. destruct (Hh w I build_path Hr) as [-> Hex]. split; [done|].
  unfold Fs.exists_. unfold there in Hex. by destruct (disk _ !! _).
Qed.

Lemma built_library_exists_witness :
  Fs.exists_
    (disk (build_for_target Demo.self "iphoneos" "aarch64-apple-ios" "arm64"
             Demo.fresh).2)
    (build_dir Demo.self // "iphoneos-arm64" // lib_name) = true.
Proof.
  apply (built_library_exists Demo.self "iphoneos" "aarch64-apple-ios"
           "arm64" Demo.fresh). by vm_compute.
Defined.

(** *** The environment of the compiler *)

Lemma set_deployment_target_other platform platform_config e k :
  k ∉ deployment_variables platform →
  set_deployment_target platform platform_config e !! k = e !! k.
Proof.
  unfold set_deployment_target, deployment_variables.
  destruct (decide (platform ∈ ["iphoneos"; "iphonesimulator"])).
  { rewrite bool_decide_eq_true_2 by done. intros Hk.
    rewrite lookup_insert_ne; [done|]. intros <-. apply Hk.
    by apply list_elem_of_singleton. }
  rewrite bool_decide_eq_false_2 by done.
  destruct (decide (platform ∈ ["appletvos"; "appletvsimulator"])).
  { rewrite bool_decide_eq_true_2 by done. intros Hk.
    rewrite lookup_insert_ne; [done|]. intros <-. apply Hk.
    by apply list_elem_of_singleton. }
  rewrite bool_decide_eq_false_2 by done.
  destruct (decide (platform = "macosx")) as [->|Hmac].
  { rewrite bool_decide_eq_true_2 by (by apply list_elem_of_singleton).
    intros Hk. rewrite lookup_insert_ne; [done|]. intros <-. apply Hk.
    by apply list_elem_of_singleton. }
  rewrite bool_decide_eq_false_2 by (by rewrite list_elem_of_singleton).
  destruct (decide (platform = "maccatalyst")) as [->|Hcat].
  { rewrite bool_decide_eq_true_2 by (by apply list_elem_of_singleton).
    intros Hk. rewrite !lookup_insert_ne; [done|..]; intros <-; apply Hk.
    - apply elem_of_cons. by left.
    - apply elem_of_cons. right. by apply list_elem_of_singleton. }
  by rewrite bool_decide_eq_false_2 by (by rewrite list_elem_of_singleton).
Qed.

(** X14: The compiler never sees the environment of the caller.  The
    environment of every command of a per-target build holds no variable
    other than the seven the script sets itself ([PATH], [HOME], [USER],
    [SHELL], [TERM], [LANG], [LC_ALL]) and the deployment-target
    variables of the platform: nothing else of [os.environ] is passed
    on. *)
Theorem compiler_environment_is_clean (self : Builder)
    (platform rust_target arch : string) :
  spec (build_for_target self platform rust_target arch)
    (λ r evs,
       Forall (λ co,
                 ∃ e, env co.1 = Some e ∧
                      ∀ k, k ∉ ["PATH"; "HOME"; "USER"; "SHELL"; "TERM";
                                "LANG"; "LC_ALL"] →
                           k ∉ deployment_variables platform →
                           e !! k = None)
              (runs evs)).
Proof.
  eapply spec_conseq; [apply build_for_target_spec|].
  intros r evs (_ & [(-> & _)|(cfg & e & o & _ & He & -> & _)]);
    [constructor|].
  apply Forall_singleton. eexists. split; [done|]. intros k Hk Hd.
  rewrite set_deployment_target_other by done. by apply He.
Qed.

(** *** The order of the architectures *)

(** The order of [sorted] on strings. *)
Definition sle (a b : string) : Prop := String.leb a b = true.

Lemma sle_cases a b :
  sle a b ↔ OrderedTypeEx.String_as_OT.lt a b ∨ a = b.
Proof.
  unfold sle, String.leb.
  pose proof (OrderedTypeEx.String_as_OT.cmp_lt a b) as Hlt.
  pose proof (OrderedTypeEx.String_as_OT.cmp_eq a b) as Heq.
  unfold OrderedTypeEx.String_as_OT.cmp in *.
  destruct (String.compare a b); split; try done.
  - intros _. right. by apply Heq.
  - intros _. left. by apply Hlt.
  - intros [H|H]; [by apply Hlt in H|by apply Heq in H].
Qed.

#[local] Instance sle_trans : Transitive sle.
Proof.
  intros a b c [Hab| ->]%sle_cases [Hbc| ->]%sle_cases; apply sle_cases;
    [left|by left|by left|by right].
  by apply (OrderedTypeEx.String_as_OT.lt_trans a b c).
Qed.

#[local] Instance sle_antisym : AntiSymm (=) sle.
Proof. intros a b. apply String.leb_antisym. Qed.

Lemma insert_sorted_perm x l : Py.insert_sorted x l ≡ₚ x :: l.
Proof.
  induction l as [|y l IH]; cbn; [done|].
  destruct (String.leb x y); [done|]. rewrite IH. apply Permutation_swap.
Qed.

Lemma sorted_perm l : Py.sorted l ≡ₚ l.
Proof.
  induction l as [|x l IH]; cbn; [done|].
  by rewrite insert_sorted_perm, IH.
Qed.

Lemma insert_sorted_sorted x l :
  StronglySorted sle l → StronglySorted sle (Py.insert_sorted x l).
Proof.
  induction 1 as [|y l Hl IH Hy]; cbn.
  - repeat constructor.
  - destruct (String.leb x y) eqn:Hxy.
    + constructor; [by constructor|]. constructor; [done|].
      eapply Forall_impl; [exact Hy|]. intros z Hz. by trans y.
    + constructor; [done|]. rewrite insert_sorted_perm. constructor; [|done].
      destruct (String.leb_total x y) as [H|H]; [congruence|done].
Qed.

Lemma sorted_sorted l : StronglySorted sle (Py.sorted l).
Proof.
  induction l as [|x l IH]; cbn; [constructor|]. by apply insert_sorted_sorted.
Qed.

Lemma sorted_canonical l l' : l ≡ₚ l' → Py.sorted l = Py.sorted l'.
Proof.
  intros Hp. apply (StronglySorted_unique sle); [apply sorted_sorted..|].
  by rewrite !sorted_perm.
Qed.

(** X15: The recorded architectures do not depend on the order in which
    [lipo] lists them.  What [create_xcframework] records for a platform
    that asks [lipo] is in ascending order and has the architectures
    reported (or, when none is, those configured), each as often as it
    was listed; two reports that list the same architectures in different
    orders give the same record, and so the same library identifier. *)
Theorem recorded_architectures_canonical (platform_config : PlatformConfig)
    (o o' : Outcome) :
  detected o ≡ₚ detected o' →
  recorded_archs platform_config o = recorded_archs platform_config o' ∧
  StronglySorted sle (recorded_archs platform_config o) ∧
  recorded_archs platform_config o
  ≡ₚ Py.or_list (detected o) (config_archs platform_config).
Proof.
  intros Hp. unfold recorded_archs. split; [|split].
  - apply sorted_canonical.
    destruct (detected o) as [|a l] eqn:Ho.
    + apply Permutation_nil_l in Hp. by rewrite Hp.
    + destruct (detected o') as [|a' l'] eqn:Ho'; [|done].
      by apply Permutation_nil_r in Hp.
  - apply sorted_sorted.
  - apply sorted_perm.
Qed.

Module DemoS.
Import Demo.

Definition macos : PlatformConfig :=
  {| targets := MultiTarget ["aarch64-apple-darwin"; "x86_64-apple-darwin"]
                            ["arm64"; "x86_64"];
     sdk := "macosx"; min_version := "12.0"; platform_name := "macOS" |}.

Definition intel_first : Outcome :=
  success "Architectures in the fat file: lib.a are: x86_64 arm64 " None.

Definition arm_first : Outcome :=
  success "Architectures in the fat file: lib.a are: arm64 x86_64 " None.

End DemoS.

Lemma recorded_architectures_canonical_witness :
  recorded_archs DemoS.macos DemoS.intel_first
  = recorded_archs DemoS.macos DemoS.arm_first.
Proof.
  destruct (recorded_architectures_canonical DemoS.macos DemoS.intel_first
              DemoS.arm_first) as [Heq _]; [|exact Heq].
  vm_compute. apply Permutation_swap.
Defined.


(** *** The bundle and its manifest *)

Lemma grows_raise {A} e : grows (raise (A := A) e).
Proof. by intros w q. Qed.

Lemma grows_getitem {V} (d : list (string * V)) k : grows (getitem d k).
Proof. unfold getitem. destruct (dict_get d k); by intros w q. Qed.

Lemma grows_try_except {A} (m : M A) catches h :
  grows m → (∀ e, grows (h e)) → grows (try_except m catches h).
Proof.
  intros Hm Hh w q Hq. unfold try_except. specialize (Hm w q Hq).
  destruct (m w) as [[a|e] w1]; cbn in *; [done|].
  destruct (catches e); [|done]. by apply Hh.
Qed.

Lemma grows_for_in {X S} (l : list X) (body : X → S → M S) s :
  (∀ x s, grows (body x s)) → grows (for_in l body s).
Proof.
  intros Hbody. revert s. induction l as [|x l IH]; intros s; cbn.
  - apply grows_ret.
  - by apply grows_bind.
Qed.

Lemma grows_copytree src dst ok : grows (copytree src dst ok).
Proof.
  intros w q Hq. unfold copytree.
  destruct (disk w !! src) as [[|]|]; [done| |done].
  assert (∀ (m d : FS), d !! q ≠ None → (m ∪ d) !! q ≠ None) as Hunion.
  { intros m d Hd. destruct (d !! q) as [n|] eqn:Hdq; [|done].
    rewrite lookup_union. rewrite Hdq. by destruct (m !! q). }
  destruct (disk w !! dst) as [[|]|].
  - done.
  - destruct ok; [|done]. cbn. by apply Hunion.
  - destruct (make_dirs _ _) as [e|d] eqn:Hmk; [done|]. cbn.
    apply Hunion. by eapply make_dirs_grows.
Qed.

Lemma grows_lipo_info self lib_path cw e :
  grows (run_command self [Str "lipo"; Str "-info"; PathArg lib_path] cw e).
Proof.
  intros w q Hq. rewrite run_command_eq. cbn zeta.
  assert (∀ c o fs, cmd c = [Str "lipo"; Str "-info"; PathArg lib_path] →
                    Tools.effect c o fs = fs) as Heff.
  { intros c o fs Hc. unfold Tools.effect. rewrite Hc. by case_decide. }
  case_decide; cbn; by rewrite Heff.
Qed.

Lemma grows_dump_plist p content : grows (dump_plist p content).
Proof.
  intros w q Hq. unfold dump_plist.
  repeat case_match; try done; cbn; by apply insert_grows.
Qed.

Lemma grows_classify self platform platform_config lib_path :
  grows (classify self platform platform_config lib_path).
Proof.
  assert (grows (detect_sorted_archs self platform_config lib_path)) as Hd.
  { unfold detect_sorted_archs, get_lib_archs.
    apply grows_bind; [|intros; apply grows_ret].
    apply grows_try_except; [|intros; apply grows_ret].
    apply grows_bind; [apply grows_lipo_info|intros; apply grows_ret]. }
  unfold classify.
  repeat case_decide; first
    [ apply grows_ret
    | apply grows_bind; [exact Hd|intros; apply grows_ret] ].
Qed.

Lemma grows_add_platform self xcframework_path item libs :
  grows (add_platform self xcframework_path item libs).
Proof.
  destruct item as [platform build_path]. unfold add_platform.
  apply grows_bind; [apply grows_path_exists|]. intros [|]; cbn;
    [|apply grows_ret].
  apply grows_bind; [apply grows_getitem|]. intros cfg.
  apply grows_bind; [apply grows_classify|]. intros [s|]; [|apply grows_ret].
  apply grows_bind; [apply grows_mkdir|]. intros _.
  apply grows_bind; [apply grows_copy2|]. intros _.
  apply grows_bind; [apply grows_path_exists|]. intros ex.
  apply grows_bind; [|intros; apply grows_ret].
  destruct ex; [apply grows_copytree|apply grows_ret].
Qed.

(** The library of an entry is in the bundle. *)
Definition in_bundle (xcframework_path : Path) (w : World)
    (entry : LibraryEntry) : Prop :=
  disk w !! (xcframework_path // LibraryIdentifier entry // lib_name) ≠ None.

Lemma add_platform_in_bundle self xcframework_path item libs :
  hoare (λ _, True) (add_platform self xcframework_path item libs)
    (λ r w', ∀ libs', r = Ok libs' →
               libs' = libs ∨
               ∃ entry, libs' = libs ++ [entry] ∧
                        in_bundle xcframework_path w' entry).
Proof.
  destruct item as [platform build_path]. unfold add_platform.
  eapply (hoare_bind _ _ _ (λ _ _, True)); [apply hoare_any|intros ex|done].
  destruct ex; cbn [negb].
  2:{ apply hoare_ret. intros w _ libs' [= <-]. by left. }
  eapply (hoare_bind _ _ _ (λ _ _, True)); [apply hoare_any|intros cfg|done].
  eapply (hoare_bind _ _ _ (λ _ _, True)); [apply hoare_any|intros found|done].
  destruct found as [s|].
  2:{ apply hoare_ret. intros w _ libs' [= <-]. by left. }
  eapply (hoare_bind _ _ _ (λ _ _, True)); [apply hoare_any|intros _|done].
  eapply (hoare_bind _ _ _
            (λ r w', r = Ok tt →
                     disk w' !! (xcframework_path // slot_identifier s //
                                 lib_name) ≠ None)).
  { intros w0 _ Hr.
    match goal with
    | |- disk (copy2 ?src ?dst w0).2 !! _ ≠ None =>
        pose proof (copy2_exists src dst w0) as Hex;
        destruct (copy2 src dst w0) as [[[]|e] w1]; [by apply Hex|done]
    end. }
  2: done.
  intros [] w0 Hw0 libs' Hp. specialize (Hw0 eq_refl). right.
  exists (library_entry s). split.
  - repeat (apply bind_Ok_inv in Hp as (? & _ & Hp)). by injection Hp.
  - unfold in_bundle. cbn [LibraryIdentifier library_entry]. revert Hw0.
    match goal with
    | |- _ → disk (?m w0).2 !! ?q ≠ None =>
        assert (grows m) as Hg; [|apply Hg]
    end.
    apply grows_bind; [apply grows_path_exists|]. intros ex.
    apply grows_bind; [|intros; apply grows_ret].
    destruct ex; [apply grows_copytree|apply grows_ret].
Qed.

Lemma for_in_add_platform_in_bundle self xcframework_path items libs :
  hoare (λ w, Forall (in_bundle xcframework_path w) libs)
    (for_in items (add_platform self xcframework_path) libs)
    (λ r w', match r with
             | Ok libs' => Forall (in_bundle xcframework_path w') libs'
             | Raise _ => True
             end).
Proof.
  apply (hoare_for_in (λ libs w, Forall (in_bundle xcframework_path w) libs)
           (λ _ _, True)).
  intros item libs0 _ w Hall.
  pose proof (add_platform_in_bundle self xcframework_path item libs0 w I)
    as Hadd.
  pose proof (grows_add_platform self xcframework_path item libs0 w) as Hg.
  destruct (add_platform self xcframework_path item libs0 w)
    as [[libs1|e] w1]; cbn [fst snd] in *; [|done].
  assert (Forall (in_bundle xcframework_path w1) libs0) as Hold.
  { eapply Forall_impl; [exact Hall|]. intros entry. apply Hg. }
  destruct (Hadd _ eq_refl) as [->|(entry & -> & Hentry)]; [done|].
  apply Forall_app. split; [done|]. by apply Forall_singleton.
Qed.

(** X16: The bundle holds what its manifest lists.  When [create_xcframework]
    returns, it returns the path of the bundle, [Info.plist] in it is the
    manifest written in this run, and for every entry of the manifest the
    directory named by its [LibraryIdentifier] holds a
    [libidevice_ffi.a]. *)
Theorem bundle_holds_its_entries (self : Builder)
    (platform_builds : list (string * Path)) (w : World)
    (xcframework_path : Path) :
  (create_xcframework self platform_builds w).1 = Ok xcframework_path →
  xcframework_path = xcframework_dir self // "idevice_ffi.xcframework" ∧
  ∃ plist,
    disk (create_xcframework self platform_builds w).2
      !! (xcframework_path // "Info.plist")
    = Some (File (PropertyList plist)) ∧
    Forall (λ entry,
              Fs.exists_ (disk (create_xcframework self platform_builds w).2)
                (xcframework_path // LibraryIdentifier entry // lib_name)
              = true)
           (AvailableLibraries plist).
Proof.
  set (bundle := xcframework_dir self // "idevice_ffi.xcframework").
  set (good := λ (plist : InfoPlist) (w' : World),
         disk w' !! (bundle // "Info.plist")
         = Some (File (PropertyList plist)) ∧
         Forall (in_bundle bundle w') (AvailableLibraries plist)).
  assert (hoare (λ _, True) (create_xcframework self platform_builds)
            (λ r w', ∀ p, r = Ok p → p = bundle ∧ ∃ plist, good plist w'))
    as Hh.
  { unfold create_xcframework. fold (bundle_path self).
    change (bundle_path self) with bundle.
    do 2 (eapply (hoare_bind _ _ _ (λ _ _, True));
          [apply hoare_any|intros ?|done]).
    eapply (hoare_bind _ _ _
              (λ r w', match r with
                       | Ok libs => Forall (in_bundle bundle w') libs
                       | Raise _ => True
                       end)); [| |done].
    { eapply hoare_conseq; [apply for_in_add_platform_in_bundle| |done].
      intros w0 _. constructor. }
    intros libs. cbn beta.
    set (plist := {| AvailableLibraries := libs;
                     CFBundlePackageType := "XFWK";
                     XCFrameworkFormatVersion := "1.0" |}).
    eapply (hoare_bind _ _ _ (λ r w', r = Ok tt → good plist w')).
    { intros w0 Hall Hr. split.
      - revert Hr. unfold dump_plist. repeat case_match; try done; cbn;
          intros _; by rewrite lookup_insert_eq.
      - eapply Forall_impl; [exact Hall|]. intros entry.
        apply grows_dump_plist. }
    2: done.
    intros [] w0 Hw0 p Hp. specialize (Hw0 eq_refl). cbn in Hp.
    injection Hp as <-. split; [done|]. exists plist. exact Hw0. }
  intros Hr. destruct (Hh w I _ Hr) as (-> & plist & Hplist & Hall).
  split; [done|]. exists plist. split; [done|].
  eapply Forall_impl; [exact Hall|]. intros entry He. unfold in_bundle in He.
  unfold Fs.exists_.
  by destruct (disk _ !! (bundle // LibraryIdentifier entry // lib_name)).
Qed.

Lemma bundle_holds_its_entries_witness :
  ∃ plist,
    disk (create_xcframework Demo.self [("iphoneos", Demo2.out)]
            Demo7.world).2 !! (bundle_path Demo.self // "Info.plist")
    = Some (File (PropertyList plist)).
Proof.
  destruct (bundle_holds_its_entries Demo.self [("iphoneos", Demo2.out)]
              Demo7.world (bundle_path Demo.self))
    as (_ & plist & Hplist & _); [by vm_compute|]. by exists plist.
Defined.
(** *** The members the Metadata Fixer leaves *)

Lemma member_ok_at lib_path ms evs n pl pl' :
  NoDup ms.*1 → (n, pl) ∈ ms → member_ok lib_path ms evs (n, pl') →
  pl' = pl ∨ pl' = retag pl ∧ rewritten lib_path evs n.
Proof.
  intros Hnd Hin (pl0 & Hin0 & H). cbn in *.
  assert (pl0 = pl) as ->; [|done].
  apply list_elem_of_lookup in Hin as [i Hi], Hin0 as [j Hj].
  assert (i = j) as ->; [|congruence].
  eapply NoDup_lookup; [exact Hnd|by rewrite list_lookup_fmap, ?Hi, ?Hj..].
Qed.

(** X17: The Metadata Fixer keeps the count and the names of the members.
    From a world whose disk is a tree and holds an archive at [lib_path],
    the fixer ends with an archive at [lib_path] that has as many members
    as the input and the same names in the same order, whatever the
    outcomes of the commands.  Every member of the output carries the
    payload of an input member of its name, retagged for tvOS only if a
    [vtool] command for that name succeeded; when the names of the
    archive are pairwise distinct that input member is the one at the
    same place, so a member whose rewrite failed has its original
    metadata. *)
Theorem fixer_keeps_members (self : Builder) (lib_path : Path)
    (platform : string) (ms : list (string * Payload)) (w : World) :
  tree_shaped (disk w) →
  disk w !! lib_path = Some (File (Archive ms)) →
  let m := fix_tvos_platform_metadata self lib_path platform in
  ∃ ms', disk (m w).2 !! lib_path = Some (File (Archive ms')) ∧
         length ms' = length ms ∧
         ms'.*1 = ms.*1 ∧
         Forall (member_ok lib_path ms (steps m w)) ms' ∧
         (NoDup ms.*1 →
          Forall2 (λ old new,
                     new.1 = old.1 ∧
                     (new.2 = old.2 ∨
                      new.2 = retag old.2 ∧
                      rewritten lib_path (steps m w) old.1))
                  ms ms').
Proof.
  intros Htree Hlib m.
  destruct (fix_tvos_platform_metadata_packed self lib_path platform ms
              (trace w) w) as (evs & ms' & Ht & Hlib' & Hnames & Hok);
    [done|].
  fold m in Ht, Hlib'. unfold steps. rewrite Ht, drop_app_length.
  exists ms'. split_and!; [done| |done..|].
  { by rewrite <- (length_fmap fst ms'), Hnames, length_fmap. }
  intros Hnd. apply Forall2_same_length_lookup. split.
  { by rewrite <- (length_fmap fst ms'), Hnames, length_fmap. }
  intros i [n pl] [n' pl'] Hi Hi'.
  assert (n' = n) as ->.
  { apply (f_equal (λ l, l !! i)) in Hnames.
    rewrite !list_lookup_fmap, Hi, Hi' in Hnames. by injection Hnames. }
  split; [done|]. cbn. eapply member_ok_at; [done| |].
  - by eapply list_elem_of_lookup_2.
  - rewrite Forall_forall in Hok. apply Hok. by eapply list_elem_of_lookup_2.
Qed.

Example demo_fixer :
  disk (fix_tvos_platform_metadata Demo.self Demo5.lib_path "appletvos"
          Demo5.world).2 !! Demo5.lib_path
  = Some (File (Archive [ ("idevice.o", Object tvos_version "idevice");
                          ("ring.o", Object Demo.ios_version "ring") ])).
Proof. by vm_compute. Qed.

Lemma fixer_keeps_members_witness :
  ∃ ms', disk (fix_tvos_platform_metadata Demo.self Demo5.lib_path "appletvos"
                 Demo5.world).2 !! Demo5.lib_path
         = Some (File (Archive ms')) ∧
         length ms' = 2%nat.
Proof.
  destruct (fixer_keeps_members Demo.self Demo5.lib_path "appletvos"
              [ ("idevice.o", Object Demo.ios_version "idevice");
                ("ring.o", Object Demo.ios_version "ring") ] Demo5.world)
    as (ms' & Hlib & Hlen & _).
  - unfold tree_shaped. by_compute.
  - by vm_compute.
  - exists ms'. split; [exact Hlib|exact Hlen].
Defined.
